(** * outlook-exporter: ticket store, SLA sweep and spreadsheet sync

    A shallow embedding of the reconciliation core of the repository
    ([core/utils.py], [core/db.py], [core/sla.py], [core/excel.py]) and the
    proofs of the properties its specification states about it.

    Conventions of the embedding.
    - A Python [str] is the list of its Unicode code points ([str := list N]);
      literals are written [u "..."] and decoded from UTF-8.
    - A Python [int] is a [Z]; a Python [float] is idealised as a rational
      ([Q]): comparisons and the one division of the code are exact.
    - [None] is [None]: an [Optional[T]] is an [option T].
    - A [dict] used as a finite map is a [gmap]; a dict literal inserts its
      entries from left to right.
    - A SQLite table is the list of its rows in rowid order and an INTEGER
      column holds a [Z]; statements are functions on the connection state,
      and a raised exception is [None].
    - The clock is an input: [now] stands for the reading of
      [datetime.utcnow()] or of SQLite's [datetime('now')] during a call. *)

From Stdlib Require Import ZArith NArith QArith Qminmax List String Ascii Lia.
From stdpp Require Import base decidable option list gmap.

Local Open Scope Z_scope.

(** ** Python built-ins used by the code *)

Module Py.

Definition str := list N.

(** UTF-8 decoding of a literal into code points. *)
Fixpoint utf8_decode (bs : list N) : str :=
  match bs with
  | [] => []
  | b0 :: r0 =>
      if (b0 <? 128)%N then b0 :: utf8_decode r0
      else match r0 with
      | [] => [b0]
      | b1 :: r1 =>
          if (b0 <? 224)%N
          then ((b0 - 192) * 64 + (b1 - 128))%N :: utf8_decode r1
          else match r1 with
          | [] => [b0; b1]
          | b2 :: r2 =>
              if (b0 <? 240)%N
              then ((b0 - 224) * 4096 + (b1 - 128) * 64 + (b2 - 128))%N
                     :: utf8_decode r2
              else match r2 with
              | [] => [b0; b1; b2]
              | b3 :: r3 =>
                  ((b0 - 240) * 262144 + (b1 - 128) * 4096
                   + (b2 - 128) * 64 + (b3 - 128))%N :: utf8_decode r3
              end
          end
      end
  end.

Definition u (s : string) : str :=
  utf8_decode (List.map N_of_ascii (list_ascii_of_string s)).

(** [str.isspace] on one code point: the white space of [str.strip()]. *)
Definition isspace (c : N) : bool :=
  ((9 <=? c) && (c <=? 13) || (28 <=? c) && (c <=? 32)
   || (c =? 133) || (c =? 160) || (c =? 5760)
   || (8192 <=? c) && (c <=? 8202)
   || (c =? 8232) || (c =? 8233) || (c =? 8239) || (c =? 8287)
   || (c =? 12288))%N.

Fixpoint lstrip (s : str) : str :=
  match s with
  | c :: r => if isspace c then lstrip r else s
  | [] => []
  end.

Definition rstrip (s : str) : str := rev (lstrip (rev s)).

(** [s.strip()] *)
Definition strip (s : str) : str := rstrip (lstrip s).

(** [str.lower] on one code point.  The case mapping is written out for the
    Basic Latin, Latin-1 and Cyrillic blocks (U+0000 to U+00FF and U+0400 to
    U+045F), the alphabets of the status vocabulary and of e-mail
    addresses, where it is the mapping of [str.lower]; other code points
    map to themselves. *)
Definition lower_cp (c : N) : N :=
  (if (65 <=? c) && (c <=? 90) then c + 32
   else if (192 <=? c) && (c <=? 222) && negb (c =? 215) then c + 32
   else if (1024 <=? c) && (c <=? 1039) then c + 80
   else if (1040 <=? c) && (c <=? 1071) then c + 32
   else c)%N.

(** [s.lower()] *)
Definition lower (s : str) : str := List.map lower_cp s.

(** Truth value of a [str]: the empty string is false. *)
Definition truthy (s : str) : bool :=
  match s with [] => false | _ => true end.

(** [a or b] on strings. *)
Definition or_str (a b : str) : str := if truthy a then a else b.

(** Truth value of an [Optional[str]]. *)
Definition truthy_opt (o : option str) : bool :=
  match o with Some s => truthy s | None => false end.

(** [s.startswith(p)] *)
Fixpoint startswith (s p : str) : bool :=
  match p, s with
  | [], _ => true
  | _ :: _, [] => false
  | a :: p', b :: s' => (a =? b)%N && startswith s' p'
  end.

(** [s.endswith(p)] *)
Definition endswith (s p : str) : bool := startswith (rev s) (rev p).

(** [p in s] *)
Fixpoint contains (s p : str) : bool :=
  startswith s p || match s with [] => false | _ :: s' => contains s' p end.

(** [s == t] *)
Definition eqb (s t : str) : bool := bool_decide (s = t).

(** [s.replace(a, b)] for one-character [a] and [b]. *)
Definition replace_cp (a b : N) (s : str) : str :=
  List.map (fun c => if (c =? a)%N then b else c) s.

(** A dict literal: entries are inserted from left to right, so that a
    repeated key keeps its last value. *)
Definition dict {V} (l : list (str * V)) : gmap str V :=
  fold_left (fun m kv => <[kv.1 := kv.2]> m) l ∅.

End Py.

Import Py.

(** ** [datetime]: naive timestamps

    A naive [datetime] is a calendar day, held as its proleptic Gregorian
    ordinal ([date.toordinal()]), and the microsecond of that day.  The
    calendar of the model is unbounded: date arithmetic does not leave the
    representable range.  A TEXT column of the store that holds the ISO
    rendering of a timestamp is modelled by the timestamp itself. *)

Module Datetime.

Record datetime := mkdt { dt_day : Z; dt_us : Z }.

Definition US_PER_HOUR : Z := 3600000000.
Definition US_PER_DAY : Z := 86400000000.

(** [time(hour=h)] and [time(hour, minute, second)] as microseconds. *)
Definition time_hour (h : Z) : Z := h * US_PER_HOUR.
Definition time_hms (h m s : Z) : Z := ((h * 60 + m) * 60 + s) * 1000000.

(** [datetime.combine(d, t)] *)
Definition combine (d : Z) (t : Z) : datetime := mkdt d t.

(** [a < b] *)
Definition ltb (a b : datetime) : bool :=
  (dt_day a <? dt_day b) || ((dt_day a =? dt_day b) && (dt_us a <? dt_us b)).

(** [a <= b] *)
Definition leb (a b : datetime) : bool := negb (ltb b a).

(** [max(a, b)] and [min(a, b)]: the first argument unless the second
    is strictly better. *)
Definition dt_max (a b : datetime) : datetime := if ltb a b then b else a.
Definition dt_min (a b : datetime) : datetime := if ltb b a then b else a.

(** [(a - b).total_seconds() / 3600.0] *)
Definition hours_between (a b : datetime) : Q :=
  ((dt_day a - dt_day b) * US_PER_DAY + (dt_us a - dt_us b)) # 3600000000.

(** [d.weekday()]: Monday is 0. *)
Definition weekday (d : Z) : Z := (d + 6) mod 7.

(** [datetime.combine(d, time.min) + timedelta(days=1)] *)
Definition next_midnight (d : Z) : datetime := mkdt (d + 1) 0.

(** Calendar fields of an ordinal, as [date.fromordinal] computes them. *)
Definition DAYS_BEFORE_MONTH (m : Z) : Z :=
  match m with
  | 1 => 0 | 2 => 31 | 3 => 59 | 4 => 90 | 5 => 120 | 6 => 151
  | 7 => 181 | 8 => 212 | 9 => 243 | 10 => 273 | 11 => 304 | 12 => 334
  | _ => 0
  end.

Definition DAYS_IN_MONTH (m : Z) : Z :=
  match m with
  | 2 => 28 | 4 | 6 | 9 | 11 => 30 | _ => 31
  end.

Definition ord2ymd (ordinal : Z) : Z * Z * Z :=
  let n := ordinal - 1 in
  let n400 := n / 146097 in
  let n := n mod 146097 in
  let year := n400 * 400 + 1 in
  let n100 := n / 36524 in
  let n := n mod 36524 in
  let n4 := n / 1461 in
  let n := n mod 1461 in
  let n1 := n / 365 in
  let n := n mod 365 in
  let year := year + n100 * 100 + n4 * 4 + n1 in
  if (n1 =? 4) || (n100 =? 4) then (year - 1, 12, 31)
  else
    let leapyear := (n1 =? 3) && (negb (n4 =? 24) || (n100 =? 3)) in
    let month := Z.shiftr (n + 50) 5 in
    let preceding :=
      DAYS_BEFORE_MONTH month + (if (2 <? month) && leapyear then 1 else 0) in
    if n <? preceding then
      let month := month - 1 in
      let preceding :=
        preceding
        - (DAYS_IN_MONTH month + (if (month =? 2) && leapyear then 1 else 0)) in
      (year, month, n - preceding + 1)
    else (year, month, n - preceding + 1).

(** [date(y, m, d).toordinal()] *)
Definition is_leap (y : Z) : bool :=
  (y mod 4 =? 0) && (negb (y mod 100 =? 0) || (y mod 400 =? 0)).

Definition ymd2ord (y m d : Z) : Z :=
  let y1 := y - 1 in
  y1 * 365 + y1 / 4 - y1 / 100 + y1 / 400
  + DAYS_BEFORE_MONTH m + (if (2 <? m) && is_leap y then 1 else 0) + d.

(** [datetime(y, m, d, hh, mm, ss)] *)
Definition datetime_of (y m d hh mm ss : Z) : datetime :=
  mkdt (ymd2ord y m d) (time_hms hh mm ss).

(** Decimal rendering on [k] digits, zero padded (["%0kd"]). *)
Fixpoint digits (k : nat) (n : Z) : str :=
  match k with
  | O => []
  | S k' => digits k' (n / 10) ++ [Z.to_N (48 + n mod 10)]
  end.

(** [d.isoformat()]: ["YYYY-MM-DD"] *)
Definition date_isoformat (d : Z) : str :=
  let '(y, m, dd) := ord2ymd d in
  digits 4 y ++ [45%N] ++ digits 2 m ++ [45%N] ++ digits 2 dd.

End Datetime.

Import Datetime.

(** ** [config.AppConfig]: the options the core reads *)

Module Config.

(** One entry of [sla_by_priority]: a dict that may hold the keys
    ["first_response_hours"] and ["resolution_hours"]. *)
Record SlaEntry := mkSla {
  first_response_hours : option Q;
  resolution_hours : option Q
}.

Record AppConfig := mkCfg {
  sender_filter : str;
  sender_filter_mode : str;
  sender_filter_value : option str;
  overdue_days : Z;
  business_hours_start : Z;
  business_hours_end : Z;
  holidays : list str;
  sla_by_priority : gmap str SlaEntry
}.

End Config.

Import Config.

(** ** [core/utils.py] *)

Module utils.

(** [cfg.sender_filter_value or cfg.sender_filter or ""] *)
Definition configured_value (cfg : AppConfig) : str :=
  match sender_filter_value cfg with
  | Some v => if truthy v then v else or_str (sender_filter cfg) []
  | None => or_str (sender_filter cfg) []
  end.

(** [_normalize_sender_filter] *)
Definition _normalize_sender_filter (cfg : AppConfig) : str * str :=
  let mode := or_str (strip (lower (or_str (sender_filter_mode cfg) [])))
                     (u "off") in
  let value := strip (lower (configured_value cfg)) in
  if Py.eqb mode (u "domain") && startswith value (u "@")
  then (mode, tl value)
  else (mode, value).

(** [passes_sender_filter] *)
Definition passes_sender_filter (sender : option str) (cfg : AppConfig) : bool :=
  let sender_l :=
    lower (match sender with
           | Some s => or_str s []
           | None => []
           end) in
  let '(mode, value) := _normalize_sender_filter cfg in
  if Py.eqb mode (u "off") || negb (truthy value) then true
  else if Py.eqb mode (u "contains") then contains sender_l value
  else if Py.eqb mode (u "equals") then Py.eqb sender_l value
  else if Py.eqb mode (u "domain") then
    endswith sender_l (u "@" ++ value) || endswith sender_l (u "." ++ value)
  else true.

End utils.

(** ** [core/db.py]: the ticket store *)

Module db.

(** The [TicketRecord] dataclass. *)
Module TicketRecord.
Record t := mk {
  id : option Z;
  conv_id : option str;
  thread_key : str;
  entry_id : option str;
  first_received_utc : datetime;
  sender : str;
  subject : str;
  body : str;
  first_forward_utc : option datetime;
  first_forward_to : option str;
  first_reply_utc : option datetime;
  first_reply_body : option str;
  responsible : option str;
  status : str;
  last_status_utc : datetime;
  days_without_update : Z;
  overdue : bool;
  not_interesting : bool;
  customer_email : option str;
  is_repeat : bool;
  repeat_hint : option str;
  recommended_answer : option str;
  match_score : option Q;
  topic : option str;
  last_reminder_utc : option datetime;
  priority : option str;
  stable_id : option str;
  last_updated_at : option datetime;
  last_updated_by : option str;
  data_source : option str;
  comment : option str;
  row_version : Z
}.
End TicketRecord.

(** A row of the table [tickets], column by column as [ensure_schema]
    creates it; a column declared NOT NULL has no [option]. *)
Module Row.
Record t := mk {
  id : Z;
  stable_id : option str;
  conv_id : option str;
  thread_key : str;
  entry_id : option str;
  first_received_utc : datetime;
  sender : str;
  subject : str;
  body : option str;
  first_forward_utc : option datetime;
  first_forward_to : option str;
  first_reply_utc : option datetime;
  first_reply_body : option str;
  responsible : option str;
  status : str;
  last_status_utc : datetime;
  days_without_update : Z;
  overdue : Z;
  not_interesting : Z;
  customer_email : option str;
  is_repeat : Z;
  repeat_hint : option str;
  recommended_answer : option str;
  match_score : option Q;
  topic : option str;
  last_reminder_utc : option datetime;
  priority : option str;
  last_updated_at : option datetime;
  last_updated_by : option str;
  data_source : option str;
  comment : option str;
  row_version : Z
}.
End Row.

(** A row of the table [events]. *)
Module Event.
Record t := mk {
  id : Z;
  ticket_id : Z;
  event_type : str;
  status_before : option str;
  status_after : option str;
  source : option str;
  event_dt_utc : option datetime;
  raw_response : option str;
  item_entry_id : option str
}.
End Event.

(** The state behind a [sqlite3.Connection]: both tables, the
    AUTOINCREMENT counters of [sqlite_sequence], and the rowid of the last
    successful INSERT, which [cursor.lastrowid] reads. *)
Record Conn := mkConn {
  tickets : list Row.t;
  tickets_seq : Z;
  events : list Event.t;
  events_seq : Z;
  last_insert_rowid : Z
}.

Definition empty_conn : Conn := mkConn [] 0 [] 0 0.

(** The rowid AUTOINCREMENT gives to a new row: one more than the largest
    rowid the table has ever held. *)
Definition next_rowid (seq : Z) (ids : list Z) : Z :=
  fold_right Z.max seq ids + 1.

(** [UPDATE tickets SET ... WHERE id=?] *)
Definition update_ticket (ticket_id : Z) (f : Row.t -> Row.t)
    (rows : list Row.t) : list Row.t :=
  List.map (fun r => if Row.id r =? ticket_id then f r else r) rows.

(** [SELECT ... FROM tickets WHERE id=?] followed by [fetchone()] *)
Definition select_ticket (ticket_id : Z) (rows : list Row.t) : option Row.t :=
  List.find (fun r => Row.id r =? ticket_id) rows.

(** The row that makes an INSERT fail on [UNIQUE(conv_id, thread_key)].
    In SQLite two NULLs are distinct in a UNIQUE constraint: a row without
    a [conv_id] conflicts with no other. *)
Definition conflict_row (conv_id : option str) (thread_key : str)
    (rows : list Row.t) : option Row.t :=
  match conv_id with
  | None => None
  | Some c =>
      List.find (fun r => bool_decide (Row.conv_id r = Some c)
                          && bool_decide (Row.thread_key r = thread_key)) rows
  end.

(** [UNIQUE(stable_id)]: does a row other than [self] hold this value? *)
Definition stable_id_taken (self : option Z) (sid : option str)
    (rows : list Row.t) : bool :=
  match sid with
  | None => false
  | Some s =>
      existsb (fun r => negb (bool_decide (Some (Row.id r) = self))
                        && bool_decide (Row.stable_id r = Some s)) rows
  end.

Definition int_of_bool (b : bool) : Z := if b then 1 else 0.

(** The row [INSERT INTO tickets (cols) VALUES (...)] builds from the
    payload, under the rowid [new_id]. *)
Definition inserted_row (new_id : Z) (ticket : TicketRecord.t) : Row.t :=
  {| Row.id := new_id;
     Row.stable_id := TicketRecord.stable_id ticket;
     Row.conv_id := TicketRecord.conv_id ticket;
     Row.thread_key := TicketRecord.thread_key ticket;
     Row.entry_id := TicketRecord.entry_id ticket;
     Row.first_received_utc := TicketRecord.first_received_utc ticket;
     Row.sender := TicketRecord.sender ticket;
     Row.subject := TicketRecord.subject ticket;
     Row.body := Some (TicketRecord.body ticket);
     Row.first_forward_utc := TicketRecord.first_forward_utc ticket;
     Row.first_forward_to := TicketRecord.first_forward_to ticket;
     Row.first_reply_utc := TicketRecord.first_reply_utc ticket;
     Row.first_reply_body := TicketRecord.first_reply_body ticket;
     Row.responsible := TicketRecord.responsible ticket;
     Row.status := TicketRecord.status ticket;
     Row.last_status_utc := TicketRecord.last_status_utc ticket;
     Row.days_without_update := TicketRecord.days_without_update ticket;
     Row.overdue := int_of_bool (TicketRecord.overdue ticket);
     Row.not_interesting := int_of_bool (TicketRecord.not_interesting ticket);
     Row.customer_email := TicketRecord.customer_email ticket;
     Row.is_repeat := int_of_bool (TicketRecord.is_repeat ticket);
     Row.repeat_hint := TicketRecord.repeat_hint ticket;
     Row.recommended_answer := TicketRecord.recommended_answer ticket;
     Row.match_score := TicketRecord.match_score ticket;
     Row.topic := TicketRecord.topic ticket;
     Row.last_reminder_utc := TicketRecord.last_reminder_utc ticket;
     Row.priority := TicketRecord.priority ticket;
     Row.last_updated_at := TicketRecord.last_updated_at ticket;
     Row.last_updated_by := TicketRecord.last_updated_by ticket;
     Row.data_source := TicketRecord.data_source ticket;
     Row.comment := TicketRecord.comment ticket;
     Row.row_version := TicketRecord.row_version ticket |}.

(** The row [ON CONFLICT ... DO UPDATE SET c=excluded.c, ...,
    row_version = tickets.row_version + 1] writes over [old].  The SET list
    names every column of [cols] but [first_received_utc]; [row_version] is
    named twice and the rightmost assignment is the one SQLite applies. *)
Definition updated_row (old : Row.t) (ticket : TicketRecord.t) : Row.t :=
  let excluded := inserted_row (Row.id old) ticket in
  {| Row.id := Row.id old;
     Row.stable_id := Row.stable_id excluded;
     Row.conv_id := Row.conv_id excluded;
     Row.thread_key := Row.thread_key excluded;
     Row.entry_id := Row.entry_id excluded;
     Row.first_received_utc := Row.first_received_utc old;
     Row.sender := Row.sender excluded;
     Row.subject := Row.subject excluded;
     Row.body := Row.body excluded;
     Row.first_forward_utc := Row.first_forward_utc excluded;
     Row.first_forward_to := Row.first_forward_to excluded;
     Row.first_reply_utc := Row.first_reply_utc excluded;
     Row.first_reply_body := Row.first_reply_body excluded;
     Row.responsible := Row.responsible excluded;
     Row.status := Row.status excluded;
     Row.last_status_utc := Row.last_status_utc excluded;
     Row.days_without_update := Row.days_without_update excluded;
     Row.overdue := Row.overdue excluded;
     Row.not_interesting := Row.not_interesting excluded;
     Row.customer_email := Row.customer_email excluded;
     Row.is_repeat := Row.is_repeat excluded;
     Row.repeat_hint := Row.repeat_hint excluded;
     Row.recommended_answer := Row.recommended_answer excluded;
     Row.match_score := Row.match_score excluded;
     Row.topic := Row.topic excluded;
     Row.last_reminder_utc := Row.last_reminder_utc excluded;
     Row.priority := Row.priority excluded;
     Row.last_updated_at := Row.last_updated_at excluded;
     Row.last_updated_by := Row.last_updated_by excluded;
     Row.data_source := Row.data_source excluded;
     Row.comment := Row.comment excluded;
     Row.row_version := Row.row_version old + 1 |}.

(** [upsert_ticket].  [None] is the [sqlite3.IntegrityError] of a
    [UNIQUE(stable_id)] violation, which the ON CONFLICT clause does not
    cover.  The conflict target is checked first; without a conflict the
    row is inserted. *)
Definition upsert_ticket (conn : Conn) (ticket : TicketRecord.t)
    : option (Conn * Z) :=
  let rows := tickets conn in
  let executed :=
    match conflict_row (TicketRecord.conv_id ticket)
                       (TicketRecord.thread_key ticket) rows with
    | Some old =>
        if stable_id_taken (Some (Row.id old))
                           (TicketRecord.stable_id ticket) rows
        then None
        else Some (mkConn (update_ticket (Row.id old)
                                         (fun r => updated_row r ticket) rows)
                          (tickets_seq conn) (events conn) (events_seq conn)
                          (last_insert_rowid conn))
    | None =>
        if stable_id_taken None (TicketRecord.stable_id ticket) rows
        then None
        else
          let new_id := next_rowid (tickets_seq conn) (List.map Row.id rows) in
          Some (mkConn (rows ++ [inserted_row new_id ticket])
                       new_id (events conn) (events_seq conn) new_id)
    end in
  match executed with
  | None => None
  | Some conn' =>
      let ticket_id :=
        match TicketRecord.id ticket with
        | None => last_insert_rowid conn'
        | Some given =>
            match conflict_row (TicketRecord.conv_id ticket)
                               (TicketRecord.thread_key ticket)
                               (tickets conn') with
            | Some row => Row.id row
            | None => given
            end
        end in
      Some (conn', ticket_id)
  end.

(** [log_event]: INSERT OR IGNORE under [UNIQUE(item_entry_id)].  [now]
    is the reading of [datetime('now')]. *)
Definition log_event (conn : Conn) (now : datetime) (ticket_id : Z)
    (event_type : str) (status_before status_after : option str)
    (source : str) (raw_response item_entry_id : option str) : Conn :=
  let taken :=
    match item_entry_id with
    | None => false
    | Some e =>
        existsb (fun ev => bool_decide (Event.item_entry_id ev = Some e))
                (events conn)
    end in
  if taken then conn
  else
    let new_id := next_rowid (events_seq conn)
                             (List.map Event.id (events conn)) in
    mkConn (tickets conn) (tickets_seq conn)
           (events conn ++ [Event.mk new_id ticket_id event_type status_before
                                     status_after (Some source) (Some now)
                                     raw_response item_entry_id])
           new_id new_id.

(** [STATUS_MIGRATION]: legacy status texts and their codes. *)
Definition STATUS_MIGRATION : list (str * str) :=
  [ (u "???‘<ü", u "new");
    (u "' ‘?ø+?‘'ç ‘? ó?>>ç?", u "in_table");
    (u "' ‘'ø+>ñ‘Åç", u "assigned");
    (u "ÿç‘?ç??", u "responded");
    (u "-øó‘?‘<‘'?", u "resolved");
    (u "?‘??‘?‘??‘Øç??", u "overdue");
    (u "?ç ñ?‘'ç‘?ç‘???", u "not_interesting") ].

(** [UPDATE tickets SET status=? WHERE status=?] *)
Definition update_status_where (new old : str) (rows : list Row.t)
    : list Row.t :=
  List.map (fun r =>
    if bool_decide (Row.status r = old) then
      {| Row.id := Row.id r;
         Row.stable_id := Row.stable_id r;
         Row.conv_id := Row.conv_id r;
         Row.thread_key := Row.thread_key r;
         Row.entry_id := Row.entry_id r;
         Row.first_received_utc := Row.first_received_utc r;
         Row.sender := Row.sender r;
         Row.subject := Row.subject r;
         Row.body := Row.body r;
         Row.first_forward_utc := Row.first_forward_utc r;
         Row.first_forward_to := Row.first_forward_to r;
         Row.first_reply_utc := Row.first_reply_utc r;
         Row.first_reply_body := Row.first_reply_body r;
         Row.responsible := Row.responsible r;
         Row.status := new;
         Row.last_status_utc := Row.last_status_utc r;
         Row.days_without_update := Row.days_without_update r;
         Row.overdue := Row.overdue r;
         Row.not_interesting := Row.not_interesting r;
         Row.customer_email := Row.customer_email r;
         Row.is_repeat := Row.is_repeat r;
         Row.repeat_hint := Row.repeat_hint r;
         Row.recommended_answer := Row.recommended_answer r;
         Row.match_score := Row.match_score r;
         Row.topic := Row.topic r;
         Row.last_reminder_utc := Row.last_reminder_utc r;
         Row.priority := Row.priority r;
         Row.last_updated_at := Row.last_updated_at r;
         Row.last_updated_by := Row.last_updated_by r;
         Row.data_source := Row.data_source r;
         Row.comment := Row.comment r;
         Row.row_version := Row.row_version r |}
    else r) rows.

(** [_migrate_statuses] *)
Definition _migrate_statuses (rows : list Row.t) : list Row.t :=
  update_status_where (u "table") (u "in_table")
    (fold_left (fun rs on => update_status_where on.2 on.1 rs)
               STATUS_MIGRATION rows).

(** [ensure_schema] on a store whose tables and columns exist: the status
    migration is what remains of it. *)
Definition ensure_schema (conn : Conn) : Conn :=
  mkConn (_migrate_statuses (tickets conn)) (tickets_seq conn)
         (events conn) (events_seq conn) (last_insert_rowid conn).

End db.

Import db.

(** ** [core/recommend.py]: the enrichment run after the sweep

    The similarity scoring is a collaborator: [advise rows r] stands for what
    it computes for the ticket [r] among [rows], [None] when the ticket is
    outside the look-back window, when the scoring library is absent, or
    when the refresh stopped before reaching it. *)

Module recommend.

Record Advice := mkAdvice {
  adv_is_repeat : Z;
  adv_repeat_hint : option str;
  adv_recommended_answer : option str;
  adv_match_score : option Q;
  adv_topic : option str
}.

(** [UPDATE tickets SET is_repeat=?, repeat_hint=?, recommended_answer=?,
    match_score=?, topic=? WHERE id=?] *)
Definition set_advice (a : Advice) (r : Row.t) : Row.t :=
  {| Row.id := Row.id r;
     Row.stable_id := Row.stable_id r;
     Row.conv_id := Row.conv_id r;
     Row.thread_key := Row.thread_key r;
     Row.entry_id := Row.entry_id r;
     Row.first_received_utc := Row.first_received_utc r;
     Row.sender := Row.sender r;
     Row.subject := Row.subject r;
     Row.body := Row.body r;
     Row.first_forward_utc := Row.first_forward_utc r;
     Row.first_forward_to := Row.first_forward_to r;
     Row.first_reply_utc := Row.first_reply_utc r;
     Row.first_reply_body := Row.first_reply_body r;
     Row.responsible := Row.responsible r;
     Row.status := Row.status r;
     Row.last_status_utc := Row.last_status_utc r;
     Row.days_without_update := Row.days_without_update r;
     Row.overdue := Row.overdue r;
     Row.not_interesting := Row.not_interesting r;
     Row.customer_email := Row.customer_email r;
     Row.is_repeat := adv_is_repeat a;
     Row.repeat_hint := adv_repeat_hint a;
     Row.recommended_answer := adv_recommended_answer a;
     Row.match_score := adv_match_score a;
     Row.topic := adv_topic a;
     Row.last_reminder_utc := Row.last_reminder_utc r;
     Row.priority := Row.priority r;
     Row.last_updated_at := Row.last_updated_at r;
     Row.last_updated_by := Row.last_updated_by r;
     Row.data_source := Row.data_source r;
     Row.comment := Row.comment r;
     Row.row_version := Row.row_version r |}.

(** [update_recommendations] *)
Definition update_recommendations
    (advise : list Row.t -> Row.t -> option Advice) (conn : Conn) : Conn :=
  let rows := tickets conn in
  mkConn (fold_left
            (fun rs r => match advise rows r with
                         | Some a => update_ticket (Row.id r) (set_advice a) rs
                         | None => rs
                         end)
            rows rows)
         (tickets_seq conn) (events conn) (events_seq conn)
         (last_insert_rowid conn).

End recommend.

(** ** [core/sla.py]: status model, business hours, the sweep *)

Module sla.

Definition STATUS_NEW : str := u "new".
Definition STATUS_ASSIGNED : str := u "assigned".
Definition STATUS_RESPONDED : str := u "responded".
Definition STATUS_RESOLVED : str := u "resolved".
Definition STATUS_WAITING_CUSTOMER : str := u "waiting_customer".
Definition STATUS_TABLE : str := u "table".
Definition STATUS_OTIP : str := u "otip".
Definition STATUS_OVERDUE : str := u "overdue".
Definition STATUS_NOT_INTERESTING : str := u "not_interesting".

Definition STATUS_IN_TABLE : str := u "in_table".
Definition STATUS_ALIASES : gmap str str :=
  dict [ (STATUS_IN_TABLE, STATUS_TABLE) ].

Definition STATUS_MODEL : list (str * str) :=
  [ (STATUS_NEW, u "Новое");
    (STATUS_ASSIGNED, u "В работе");
    (STATUS_RESPONDED, u "Дан ответ");
    (STATUS_RESOLVED, u "Закрыто");
    (STATUS_WAITING_CUSTOMER, u "Ждем клиента");
    (STATUS_TABLE, u "Требует данных/таблица");
    (STATUS_OTIP, u "OTIP");
    (STATUS_OVERDUE, u "Просрочка SLA");
    (STATUS_NOT_INTERESTING, u "Неинтересно/спам") ].

Definition STATUS_LABELS_RU : gmap str str := dict STATUS_MODEL.

Definition STATUS_ORDER : gmap str Z :=
  dict [ (STATUS_NEW, 0);
         (STATUS_TABLE, 1);
         (STATUS_IN_TABLE, 1);
         (STATUS_ASSIGNED, 2);
         (STATUS_RESPONDED, 3);
         (STATUS_OVERDUE, 4);
         (STATUS_RESOLVED, 5);
         (STATUS_NOT_INTERESTING, 6);
         (STATUS_WAITING_CUSTOMER, 2);
         (STATUS_OTIP, 2) ].

(** [STATUS_TEXT_MAP] *)
Definition STATUS_TEXT_MAP : gmap str str :=
  dict [ (u "новое", STATUS_NEW);
         (u "new", STATUS_NEW);
         (u "vhod", STATUS_NEW);
         (u "вход", STATUS_NEW);
         (u "входящее", STATUS_NEW);
         (u "in_table", STATUS_TABLE);
         (u "table", STATUS_TABLE);
         (u "таблица", STATUS_TABLE);
         (u "требует таблицы", STATUS_TABLE);
         (u "требует данных", STATUS_TABLE);
         (u "требует данных/таблица", STATUS_TABLE);
         (u "назначено", STATUS_ASSIGNED);
         (u "в работе", STATUS_ASSIGNED);
         (u "работа", STATUS_ASSIGNED);
         (u "переслано", STATUS_ASSIGNED);
         (u "forwarded", STATUS_ASSIGNED);
         (u "forward", STATUS_ASSIGNED);
         (u "assigned", STATUS_ASSIGNED);
         (u "naznacheno", STATUS_ASSIGNED);
         (u "ответ", STATUS_RESPONDED);
         (u "дан ответ", STATUS_RESPONDED);
         (u "responded", STATUS_RESPONDED);
         (u "ok", STATUS_RESPONDED);
         (u "ок", STATUS_RESPONDED);
         (u "закрыто", STATUS_RESOLVED);
         (u "закрыть", STATUS_RESOLVED);
         (u "resolved", STATUS_RESOLVED);
         (u "done", STATUS_RESOLVED);
         (u "close", STATUS_RESOLVED);
         (u "closed", STATUS_RESOLVED);
         (u "неинтересно", STATUS_NOT_INTERESTING);
         (u "неинтересно/спам", STATUS_NOT_INTERESTING);
         (u "не наш", STATUS_NOT_INTERESTING);
         (u "спам", STATUS_NOT_INTERESTING);
         (u "not_interesting", STATUS_NOT_INTERESTING);
         (u "просрочка", STATUS_OVERDUE);
         (u "просрочка sla", STATUS_OVERDUE);
         (u "overdue", STATUS_OVERDUE);
         (u "waiting_customer", STATUS_WAITING_CUSTOMER);
         (u "waiting", STATUS_WAITING_CUSTOMER);
         (u "waiting customer", STATUS_WAITING_CUSTOMER);
         (u "need more time", STATUS_WAITING_CUSTOMER);
         (u "more time", STATUS_WAITING_CUSTOMER);
         (u "нужно время", STATUS_WAITING_CUSTOMER);
         (u "ждём клиента", STATUS_WAITING_CUSTOMER);
         (u "ждем клиента", STATUS_WAITING_CUSTOMER);
         (u "ожидаем клиента", STATUS_WAITING_CUSTOMER);
         (u "ждём", STATUS_WAITING_CUSTOMER);
         (u "ждем", STATUS_WAITING_CUSTOMER);
         (u "ждём ответ", STATUS_WAITING_CUSTOMER);
         (u "ждем ответ", STATUS_WAITING_CUSTOMER);
         (u "otip", STATUS_OTIP);
         (u "отип", STATUS_OTIP) ].

(** [normalize_status_code] *)
Definition normalize_status_code (code : option str) : option str :=
  match code with
  | None => None
  | Some code =>
      let code_l := lower (strip code) in
      Some (default
              (if bool_decide (is_Some (STATUS_LABELS_RU !! code_l))
               then code_l else code_l)
              (STATUS_ALIASES !! code_l))
  end.

(** [status_code_to_label] *)
Definition status_code_to_label (code : str) : str :=
  match normalize_status_code (Some code) with
  | Some canonical => default (or_str code []) (STATUS_LABELS_RU !! canonical)
  | None => or_str code []
  end.

(** The character class of the clean-up pattern
    [[^a-zа-яё 0-9_]+] under IGNORECASE: a character is
    kept when it, or its other case, is in the class.  Beside both cases
    of the Latin and Cyrillic ranges, the case-insensitive matching of the
    regex engine also keeps U+0131, U+017F and the Cyrillic variants
    U+1C80 to U+1C86. *)
Definition status_clean_keeps (c : N) : bool :=
  ((97 <=? c) && (c <=? 122) || (65 <=? c) && (c <=? 90)
   || (1072 <=? c) && (c <=? 1103) || (1040 <=? c) && (c <=? 1071)
   || (c =? 1105) || (c =? 1025)
   || (c =? 32) || (48 <=? c) && (c <=? 57) || (c =? 95)
   || (c =? 304) || (c =? 305) || (c =? 383) || (c =? 8490)
   || (7296 <=? c) && (c <=? 7302))%N.

(** [status_text_to_code] *)
Definition status_text_to_code (text : str) : option str :=
  if negb (truthy text) then None
  else
    let t := lower (strip text) in
    let code := STATUS_TEXT_MAP !! t in
    if truthy_opt code then code
    else if bool_decide (is_Some (STATUS_LABELS_RU !! t)) then Some t
    else match STATUS_ALIASES !! t with
    | Some a => Some a
    | None =>
        let t_clean := strip (List.filter status_clean_keeps t) in
        let first := STATUS_TEXT_MAP !! t_clean in
        if truthy_opt first then first
        else STATUS_TEXT_MAP !! replace_cp 32 95 t_clean
    end.

(** [derive_base_status] *)
Definition derive_base_status
    (has_forward has_reply requires_table is_uninteresting : bool) : str :=
  if is_uninteresting then STATUS_NOT_INTERESTING
  else if requires_table then STATUS_TABLE
  else if has_reply then STATUS_RESPONDED
  else if has_forward then STATUS_ASSIGNED
  else STATUS_ASSIGNED.

(** [raise_status] *)
Definition raise_status (current candidate : str) : str :=
  if default (-1) (STATUS_ORDER !! current)
     <? default (-1) (STATUS_ORDER !! candidate)
  then candidate else current.

(** One day of the loop of [business_hours_between]: what the day of
    [current] adds to the total. *)
Definition day_hours (current end_ : datetime) (start_hour end_hour : Z)
    (holidays_set : gset str) : Q :=
  let is_weekend := 5 <=? weekday (dt_day current) in
  let is_holiday :=
    bool_decide (date_isoformat (dt_day current) ∈ holidays_set) in
  if negb is_weekend && negb is_holiday then
    let sh := Z.max 0 (Z.min 23 start_hour) in
    let eh := end_hour in
    let day_end :=
      if 24 <=? eh then combine (dt_day current) (time_hms 23 59 59)
      else combine (dt_day current) (time_hour (Z.max sh eh)) in
    let day_start := combine (dt_day current) (time_hour sh) in
    let interval_start := dt_max current day_start in
    let interval_end := dt_min end_ day_end in
    if ltb interval_start interval_end
    then hours_between interval_end interval_start
    else 0
  else 0.

(** The [while current.date() <= end_date] loop.  Every turn moves
    [current] to the next midnight, so the loop runs once per calendar
    day from the day of [current] to the day of [end_]; [days] bounds
    the number of turns. *)
Fixpoint hours_loop (days : nat) (current end_ : datetime)
    (start_hour end_hour : Z) (holidays_set : gset str) (total : Q) : Q :=
  match days with
  | O => total
  | S days' =>
      if dt_day current <=? dt_day end_ then
        hours_loop days' (next_midnight (dt_day current)) end_
                   start_hour end_hour holidays_set
                   (total + day_hours current end_ start_hour end_hour
                                      holidays_set)
      else total
  end.

(** [business_hours_between] *)
Definition business_hours_between (start end_ : datetime)
    (start_hour end_hour : Z) (holidays : list str) : Q :=
  if leb end_ start then 0
  else
    let holidays_set : gset str := list_to_set holidays in
    let total :=
      hours_loop (Z.to_nat (dt_day end_ - dt_day start + 1)) start end_
                 start_hour end_hour holidays_set 0 in
    if Qle_bool 0 total then total else 0.

(** The columns the sweep writes on an ordinary ticket:
    [UPDATE tickets SET days_without_update=?, overdue=?, status=?,
    last_status_utc=? WHERE id=?] *)
Definition set_sweep (days overdue : Z) (status : str) (now : datetime)
    (r : Row.t) : Row.t :=
  {| Row.id := Row.id r;
     Row.stable_id := Row.stable_id r;
     Row.conv_id := Row.conv_id r;
     Row.thread_key := Row.thread_key r;
     Row.entry_id := Row.entry_id r;
     Row.first_received_utc := Row.first_received_utc r;
     Row.sender := Row.sender r;
     Row.subject := Row.subject r;
     Row.body := Row.body r;
     Row.first_forward_utc := Row.first_forward_utc r;
     Row.first_forward_to := Row.first_forward_to r;
     Row.first_reply_utc := Row.first_reply_utc r;
     Row.first_reply_body := Row.first_reply_body r;
     Row.responsible := Row.responsible r;
     Row.status := status;
     Row.last_status_utc := now;
     Row.days_without_update := days;
     Row.overdue := overdue;
     Row.not_interesting := Row.not_interesting r;
     Row.customer_email := Row.customer_email r;
     Row.is_repeat := Row.is_repeat r;
     Row.repeat_hint := Row.repeat_hint r;
     Row.recommended_answer := Row.recommended_answer r;
     Row.match_score := Row.match_score r;
     Row.topic := Row.topic r;
     Row.last_reminder_utc := Row.last_reminder_utc r;
     Row.priority := Row.priority r;
     Row.last_updated_at := Row.last_updated_at r;
     Row.last_updated_by := Row.last_updated_by r;
     Row.data_source := Row.data_source r;
     Row.comment := Row.comment r;
     Row.row_version := Row.row_version r |}.

(** The columns the sweep writes on a ticket that waits for the customer:
    [UPDATE tickets SET days_without_update=?, overdue=0 WHERE id=?] *)
Definition set_waiting (days : Z) (r : Row.t) : Row.t :=
  set_sweep days 0 (Row.status r) (Row.last_status_utc r) r.

(** The WHERE clause of the sweep:
    [status NOT IN ('resolved', 'not_interesting', 'table', 'in_table')] *)
Definition swept (r : Row.t) : bool :=
  negb (bool_decide (Row.status r ∈ [STATUS_RESOLVED; STATUS_NOT_INTERESTING;
                                      STATUS_TABLE; STATUS_IN_TABLE])).

(** [normalize_status_code(r["status"]) or r["status"]] *)
Definition current_status (r : Row.t) : str :=
  match normalize_status_code (Some (Row.status r)) with
  | Some c => or_str c (Row.status r)
  | None => Row.status r
  end.

(** The thresholds of a ticket: its priority, or ["p3"], looked up in
    [sla_by_priority]; a missing key falls back on [overdue_days * 24]. *)
Definition sla_entry (cfg : AppConfig) (r : Row.t) : SlaEntry :=
  let priority :=
    match Row.priority r with
    | Some p => or_str p (u "p3")
    | None => u "p3"
    end in
  default (default (mkSla None None) (sla_by_priority cfg !! u "p3"))
          (sla_by_priority cfg !! priority).

Definition fhours (cfg : AppConfig) (r : Row.t) : Q :=
  default (inject_Z (overdue_days cfg * 24))
          (first_response_hours (sla_entry cfg r)).

Definition rhours (cfg : AppConfig) (r : Row.t) : Q :=
  default (inject_Z (overdue_days cfg * 24))
          (resolution_hours (sla_entry cfg r)).

(** [bus_hours_since_recv] *)
Definition bus_hours_since_recv (cfg : AppConfig) (now : datetime)
    (r : Row.t) : Q :=
  business_hours_between (Row.first_received_utc r) now
                         (business_hours_start cfg) (business_hours_end cfg)
                         (holidays cfg).

(** The local [overdue] of the loop body. *)
Definition overdue_flag (cfg : AppConfig) (now : datetime) (r : Row.t) : bool :=
  let bus := bus_hours_since_recv cfg now r in
  if negb (bool_decide (is_Some (Row.first_reply_utc r)))
     && Qle_bool (fhours cfg r) bus
  then true
  else if Qle_bool (rhours cfg r) bus then true
  else false.

(** The local [status] of the loop body, after both tests. *)
Definition swept_status (cfg : AppConfig) (now : datetime) (r : Row.t) : str :=
  let bus := bus_hours_since_recv cfg now r in
  let overdue := overdue_flag cfg now r in
  let status := current_status r in
  let status :=
    if overdue
       && negb (bool_decide (status ∈ [STATUS_OVERDUE; STATUS_RESPONDED;
                                        STATUS_ASSIGNED]))
    then STATUS_OVERDUE else status in
  if bool_decide (status ∈ [STATUS_RESPONDED; STATUS_ASSIGNED])
     && Qle_bool (rhours cfg r) bus
  then STATUS_OVERDUE else status.

(** The body of the [for r in rows] loop of [recalc_open]: [r] is the row
    as the SELECT returned it, [rows] is the table as it stands. *)
Definition recalc_row (cfg : AppConfig) (now : datetime) (r : Row.t)
    (rows : list Row.t) : list Row.t :=
  let days :=
    Z.max 0 (dt_day now - dt_day (Row.last_status_utc r)) in
  if bool_decide (current_status r = STATUS_WAITING_CUSTOMER)
  then update_ticket (Row.id r) (set_waiting days) rows
  else update_ticket (Row.id r)
         (set_sweep days (int_of_bool (overdue_flag cfg now r))
                    (swept_status cfg now r) now)
         rows.

(** [recalc_open]: the sweep, then the enrichment.  Returns the store
    and the number of tickets touched. *)
Definition recalc_open (cfg : AppConfig)
    (advise : list Row.t -> Row.t -> option recommend.Advice)
    (now : datetime) (conn : Conn) : Conn * Z :=
  let conn := ensure_schema conn in
  let rows := List.filter swept (tickets conn) in
  let swept_rows :=
    fold_left (fun rs r => recalc_row cfg now r rs) rows (tickets conn) in
  let conn := mkConn swept_rows (tickets_seq conn) (events conn)
                     (events_seq conn) (last_insert_rowid conn) in
  (recommend.update_recommendations advise conn, Z.of_nat (length rows)).

(** The columns [mark_reminder_sent] writes:
    [UPDATE tickets SET last_reminder_utc=datetime('now'),
    row_version=row_version+1 WHERE id=?] *)
Definition set_reminder (now : datetime) (r : Row.t) : Row.t :=
  {| Row.id := Row.id r;
     Row.stable_id := Row.stable_id r;
     Row.conv_id := Row.conv_id r;
     Row.thread_key := Row.thread_key r;
     Row.entry_id := Row.entry_id r;
     Row.first_received_utc := Row.first_received_utc r;
     Row.sender := Row.sender r;
     Row.subject := Row.subject r;
     Row.body := Row.body r;
     Row.first_forward_utc := Row.first_forward_utc r;
     Row.first_forward_to := Row.first_forward_to r;
     Row.first_reply_utc := Row.first_reply_utc r;
     Row.first_reply_body := Row.first_reply_body r;
     Row.responsible := Row.responsible r;
     Row.status := Row.status r;
     Row.last_status_utc := Row.last_status_utc r;
     Row.days_without_update := Row.days_without_update r;
     Row.overdue := Row.overdue r;
     Row.not_interesting := Row.not_interesting r;
     Row.customer_email := Row.customer_email r;
     Row.is_repeat := Row.is_repeat r;
     Row.repeat_hint := Row.repeat_hint r;
     Row.recommended_answer := Row.recommended_answer r;
     Row.match_score := Row.match_score r;
     Row.topic := Row.topic r;
     Row.last_reminder_utc := Some now;
     Row.priority := Row.priority r;
     Row.last_updated_at := Row.last_updated_at r;
     Row.last_updated_by := Row.last_updated_by r;
     Row.data_source := Row.data_source r;
     Row.comment := Row.comment r;
     Row.row_version := Row.row_version r + 1 |}.

(** [mark_reminder_sent]; [now] is the reading of [datetime('now')]. *)
Definition mark_reminder_sent (now : datetime) (ticket_id : Z)
    (conn : Conn) : Conn :=
  mkConn (update_ticket ticket_id (set_reminder now) (tickets conn))
         (tickets_seq conn) (events conn) (events_seq conn)
         (last_insert_rowid conn).

End sla.

(** ** [core/excel.py]: import of the spreadsheet *)

Module excel.

Import sla.

(** One row of the ticket sheet, as the loop of [sync_from_excel] reads
    its cells.  [sr_ticket_id] and [sr_row_version] are the results of
    [int(...)], [None] when it raises; the other fields are the texts
    [str(...)] yields, before [strip()]. *)
Record SheetRow := mkSheetRow {
  sr_ticket_id : option Z;
  sr_row_version : option Z;
  sr_status : str;
  sr_responsible : str;
  sr_priority : str;
  sr_comment : str;
  sr_updated_at : str
}.

(** A value of a conflict detail row. *)
Inductive pyval :=
| PyInt (n : Z)
| PyStr (s : str)
| PyTime (t : option datetime).

(** An entry of [conflict_rows]. *)
Record ConflictRow := mkConflict {
  cr_ticket_id : Z;
  cr_field : str;
  cr_excel : pyval;
  cr_db : pyval;
  cr_resolution : str
}.

(** The locals of the loop: the connection and the counters. *)
Record SyncState := mkSync {
  conn : Conn;
  updated : Z;
  conflicts : Z;
  missing : Z;
  conflict_rows : list ConflictRow
}.

(** [x or None] *)
Definition or_none (s : str) : option str :=
  if truthy s then Some s else None.

(** The UPDATE of an accepted row:
    [SET status=?, responsible=?, priority=?, comment=?,
    overdue=CASE WHEN ? IN ('resolved','table','in_table','not_interesting')
    THEN 0 ELSE overdue END, row_version=row_version+1,
    last_status_utc=datetime('now'), last_updated_at=datetime('now'),
    last_updated_by='excel', data_source='excel'] *)
Definition set_synced (now : datetime) (status responsible priority
    comment : str) (r : Row.t) : Row.t :=
  {| Row.id := Row.id r;
     Row.stable_id := Row.stable_id r;
     Row.conv_id := Row.conv_id r;
     Row.thread_key := Row.thread_key r;
     Row.entry_id := Row.entry_id r;
     Row.first_received_utc := Row.first_received_utc r;
     Row.sender := Row.sender r;
     Row.subject := Row.subject r;
     Row.body := Row.body r;
     Row.first_forward_utc := Row.first_forward_utc r;
     Row.first_forward_to := Row.first_forward_to r;
     Row.first_reply_utc := Row.first_reply_utc r;
     Row.first_reply_body := Row.first_reply_body r;
     Row.responsible := or_none responsible;
     Row.status := status;
     Row.last_status_utc := now;
     Row.days_without_update := Row.days_without_update r;
     Row.overdue :=
       if bool_decide (status ∈ [u "resolved"; u "table"; u "in_table";
                                  u "not_interesting"])
       then 0 else Row.overdue r;
     Row.not_interesting := Row.not_interesting r;
     Row.customer_email := Row.customer_email r;
     Row.is_repeat := Row.is_repeat r;
     Row.repeat_hint := Row.repeat_hint r;
     Row.recommended_answer := Row.recommended_answer r;
     Row.match_score := Row.match_score r;
     Row.topic := Row.topic r;
     Row.last_reminder_utc := Row.last_reminder_utc r;
     Row.priority := or_none priority;
     Row.last_updated_at := Some now;
     Row.last_updated_by := Some (u "excel");
     Row.data_source := Some (u "excel");
     Row.comment := or_none comment;
     Row.row_version := Row.row_version r + 1 |}.

(** A reader of timestamps written as ["YYYY-MM-DD HH:MM:SS"], with any
    separator between date and time: [datetime.fromisoformat] on the texts
    [datetime('now')] produces. *)
Definition digit (c : N) : option Z :=
  if ((48 <=? c) && (c <=? 57))%N then Some (Z.of_N c - 48) else None.

Fixpoint number (s : str) (acc : Z) : option Z :=
  match s with
  | [] => Some acc
  | c :: rest =>
      match digit c with
      | Some d => number rest (acc * 10 + d)
      | None => None
      end
  end.

Definition iso_seconds (s : str) : option datetime :=
  match s with
  | [y1; y2; y3; y4; a; m1; m2; b; d1; d2; _; h1; h2; p; n1; n2; q; s1; s2] =>
      if ((a =? 45) && (b =? 45) && (p =? 58) && (q =? 58))%N then
        match number [y1; y2; y3; y4] 0, number [m1; m2] 0,
              number [d1; d2] 0, number [h1; h2] 0, number [n1; n2] 0,
              number [s1; s2] 0 with
        | Some y, Some m, Some d, Some hh, Some mm, Some ss =>
            if (1 <=? y) && (1 <=? m) && (m <=? 12) && (1 <=? d)
               && (d <=? DAYS_IN_MONTH m
                         + (if (m =? 2) && is_leap y then 1 else 0))
               && (hh <? 24) && (mm <? 60) && (ss <? 60)
            then Some (datetime_of y m d hh mm ss)
            else None
        | _, _, _, _, _, _ => None
        end
      else None
  | _ => None
  end.

Section Sync.

(** [datetime.fromisoformat] on the text of a cell; [None] when it
    raises.  Timestamps are naive. *)
Variable fromisoformat : str -> option datetime.

(** [db_updated_dt and excel_updated_dt and
    db_updated_dt > excel_updated_dt] *)
Definition db_newer (db_updated_dt excel_updated_dt : option datetime)
    : bool :=
  match db_updated_dt, excel_updated_dt with
  | Some d, Some e => ltb e d
  | _, _ => false
  end.

(** The body of the [for _, row in df.iterrows()] loop.  [None] is the
    exception [int(row["row_version"])] raises on a cell that holds no
    number; [now] is the reading of [datetime('now')]. *)
Definition sync_row (now : datetime) (row : SheetRow) (st : SyncState)
    : option SyncState :=
  match sr_ticket_id row with
  | None => Some st
  | Some ticket_id =>
      match sr_row_version row with
      | None => None
      | Some excel_rv =>
          let status_display := strip (sr_status row) in
          let status :=
            match status_text_to_code status_display with
            | Some c => or_str c status_display
            | None => status_display
            end in
          let responsible := strip (sr_responsible row) in
          let priority := strip (sr_priority row) in
          let comment := strip (sr_comment row) in
          let excel_updated_at := strip (sr_updated_at row) in
          let excel_updated_dt := fromisoformat excel_updated_at in
          match select_ticket ticket_id (tickets (conn st)) with
          | None =>
              Some (mkSync (conn st) (updated st) (conflicts st)
                           (missing st + 1) (conflict_rows st))
          | Some current =>
              let db_updated := Row.last_updated_at current in
              if db_newer db_updated excel_updated_dt then
                Some (mkSync
                        (log_event (conn st) now ticket_id
                                   (u "excel_conflict") None (Some status)
                                   (u "excel") (Some (u "db newer")) None)
                        (updated st) (conflicts st + 1) (missing st)
                        (conflict_rows st ++
                         [mkConflict ticket_id (u "last_updated_at")
                                     (PyStr excel_updated_at)
                                     (PyTime db_updated)
                                     (u "skip (db newer)")]))
              else if negb (Row.row_version current =? excel_rv) then
                Some (mkSync
                        (log_event (conn st) now ticket_id
                                   (u "excel_conflict") None (Some status)
                                   (u "excel")
                                   (Some (u "row_version mismatch")) None)
                        (updated st) (conflicts st + 1) (missing st)
                        (conflict_rows st ++
                         [mkConflict ticket_id (u "row_version")
                                     (PyInt excel_rv)
                                     (PyInt (Row.row_version current))
                                     (u "skip")]))
              else
                let c := conn st in
                let c :=
                  mkConn (List.map
                            (fun r =>
                               if (Row.id r =? ticket_id)
                                  && (Row.row_version r =? excel_rv)
                               then set_synced now status responsible
                                               priority comment r
                               else r)
                            (tickets c))
                         (tickets_seq c) (events c) (events_seq c)
                         (last_insert_rowid c) in
                Some (mkSync
                        (log_event c now ticket_id (u "excel_sync") None
                                   (Some status) (u "excel") None None)
                        (updated st + 1) (conflicts st) (missing st)
                        (conflict_rows st))
          end
      end
  end.

(** The loop: the state reached, and whether it ran to its end. *)
Fixpoint sync_rows (now : datetime) (rows : list SheetRow)
    (st : SyncState) : SyncState * bool :=
  match rows with
  | [] => (st, true)
  | row :: rest =>
      match sync_row now row st with
      | Some st' => sync_rows now rest st'
      | None => (st, false)
      end
  end.

(** The dict [sync_from_excel] returns; the early exits carry no
    ["conflict_rows"]. *)
Record Summary := mkSummary {
  sum_updated : Z;
  sum_conflicts : Z;
  sum_missing : Z;
  sum_conflict_rows : option (list ConflictRow)
}.

(** [sync_from_excel].  [sheet] is what reading the workbook gives:
    [None] when the file is absent, cannot be read or lacks a required
    column.  The result is the store as the call leaves it, and the
    summary, [None] when the loop raised. *)
Definition sync_from_excel (now : datetime)
    (sheet : option (list SheetRow)) (c : Conn) : Conn * option Summary :=
  let c := ensure_schema c in
  match sheet with
  | None => (c, Some (mkSummary 0 0 0 None))
  | Some rows =>
      let '(st, finished) := sync_rows now rows (mkSync c 0 0 0 []) in
      (conn st,
       if finished
       then Some (mkSummary (updated st) (conflicts st) (missing st)
                            (Some (conflict_rows st)))
       else None)
  end.

End Sync.

End excel.

(** ** The constraints of the schema and the vocabulary of the properties *)

Module schema.

(** [id INTEGER PRIMARY KEY] *)
Definition primary_key (rows : list Row.t) : Prop :=
  NoDup (List.map Row.id rows).

(** [UNIQUE(conv_id, thread_key)]: NULLs are distinct, so the constraint
    binds the rows that have a [conv_id]. *)
Definition unique_thread (rows : list Row.t) : Prop :=
  forall (r1 r2 : Row.t) (c : str),
    In r1 rows -> In r2 rows ->
    Row.conv_id r1 = Some c -> Row.conv_id r2 = Some c ->
    Row.thread_key r1 = Row.thread_key r2 ->
    r1 = r2.

(** The number of events that carry the external message id [e]. *)
Definition entry_count (e : str) (evs : list Event.t) : nat :=
  length (List.filter
            (fun ev => bool_decide (Event.item_entry_id ev = Some e)) evs).

(** [UNIQUE(item_entry_id)] *)
Definition unique_item_entry_id (evs : list Event.t) : Prop :=
  forall e : str, (entry_count e evs <= 1)%nat.

(** The arguments of one call of [log_event], the external message id
    apart. *)
Record LogCall := mkLogCall {
  lc_now : datetime;
  lc_ticket_id : Z;
  lc_event_type : str;
  lc_status_before : option str;
  lc_status_after : option str;
  lc_source : str;
  lc_raw_response : option str
}.

(** One call of [log_event] for the message [e]. *)
Definition log_call (e : str) (conn : Conn) (a : LogCall) : Conn :=
  log_event conn (lc_now a) (lc_ticket_id a) (lc_event_type a)
            (lc_status_before a) (lc_status_after a) (lc_source a)
            (lc_raw_response a) (Some e).


(** Two rows that agree on every column but [last_reminder_utc] and
    [row_version]. *)
Definition same_but_reminder (r r' : Row.t) : Prop :=
  Row.id r' = Row.id r
  /\ Row.stable_id r' = Row.stable_id r
  /\ Row.conv_id r' = Row.conv_id r
  /\ Row.thread_key r' = Row.thread_key r
  /\ Row.entry_id r' = Row.entry_id r
  /\ Row.first_received_utc r' = Row.first_received_utc r
  /\ Row.sender r' = Row.sender r
  /\ Row.subject r' = Row.subject r
  /\ Row.body r' = Row.body r
  /\ Row.first_forward_utc r' = Row.first_forward_utc r
  /\ Row.first_forward_to r' = Row.first_forward_to r
  /\ Row.first_reply_utc r' = Row.first_reply_utc r
  /\ Row.first_reply_body r' = Row.first_reply_body r
  /\ Row.responsible r' = Row.responsible r
  /\ Row.status r' = Row.status r
  /\ Row.last_status_utc r' = Row.last_status_utc r
  /\ Row.days_without_update r' = Row.days_without_update r
  /\ Row.overdue r' = Row.overdue r
  /\ Row.not_interesting r' = Row.not_interesting r
  /\ Row.customer_email r' = Row.customer_email r
  /\ Row.is_repeat r' = Row.is_repeat r
  /\ Row.repeat_hint r' = Row.repeat_hint r
  /\ Row.recommended_answer r' = Row.recommended_answer r
  /\ Row.match_score r' = Row.match_score r
  /\ Row.topic r' = Row.topic r
  /\ Row.priority r' = Row.priority r
  /\ Row.last_updated_at r' = Row.last_updated_at r
  /\ Row.last_updated_by r' = Row.last_updated_by r
  /\ Row.data_source r' = Row.data_source r
  /\ Row.comment r' = Row.comment r.

(** The assignments of the UPDATE the loop body of the sweep issues for the row [r] of the SELECT. *)
Definition sweep_update (cfg : AppConfig) (now : datetime) (r : Row.t)
    : Row.t -> Row.t :=
  let days := Z.max 0 (dt_day now - dt_day (Row.last_status_utc r)) in
  if bool_decide (sla.current_status r = sla.STATUS_WAITING_CUSTOMER)
  then sla.set_waiting days
  else sla.set_sweep days (int_of_bool (sla.overdue_flag cfg now r))
                 (sla.swept_status cfg now r) now.

(** A duration in microseconds, in hours. *)
Definition hours_of_us (us : Z) : Q := us # 3600000000.

(** [UNIQUE(stable_id)] *)
Definition unique_stable_id (rows : list Row.t) : Prop :=
  forall (r1 r2 : Row.t) (s : str),
    In r1 rows -> In r2 rows ->
    Row.stable_id r1 = Some s -> Row.stable_id r2 = Some s ->
    r1 = r2.

(** The constraints of the table [tickets] together. *)
Definition tickets_ok (rows : list Row.t) : Prop :=
  primary_key rows /\ unique_thread rows /\ unique_stable_id rows.

(** The constraints of the store. *)
Definition store_ok (c : Conn) : Prop :=
  tickets_ok (tickets c) /\ unique_item_entry_id (events c).

(** An UPDATE that assigns none of the constrained columns. *)
Definition keeps_keys (g : Row.t -> Row.t) : Prop :=
  forall t : Row.t,
    Row.id (g t) = Row.id t
    /\ Row.conv_id (g t) = Row.conv_id t
    /\ Row.thread_key (g t) = Row.thread_key t
    /\ Row.stable_id (g t) = Row.stable_id t.

(** The stores the operations of the core build from an empty one. *)
Inductive reachable : Conn -> Prop :=
| reach_empty : reachable empty_conn
| reach_upsert (c c' : Conn) (ticket : TicketRecord.t) (ticket_id : Z) :
    reachable c ->
    upsert_ticket c ticket = Some (c', ticket_id) ->
    reachable c'
| reach_log_event (c : Conn) (now : datetime) (ticket_id : Z)
    (event_type : str) (status_before status_after : option str)
    (source : str) (raw_response item_entry_id : option str) :
    reachable c ->
    reachable (log_event c now ticket_id event_type status_before
                         status_after source raw_response item_entry_id)
| reach_reminder (c : Conn) (now : datetime) (ticket_id : Z) :
    reachable c ->
    reachable (sla.mark_reminder_sent now ticket_id c)
| reach_recalc (c : Conn) (cfg : AppConfig)
    (advise : list Row.t -> Row.t -> option recommend.Advice)
    (now : datetime) :
    reachable c ->
    reachable (sla.recalc_open cfg advise now c).1
| reach_sync (c : Conn) (fromisoformat : str -> option datetime)
    (now : datetime) (sheet : option (list excel.SheetRow)) :
    reachable c ->
    reachable (excel.sync_from_excel fromisoformat now sheet c).1.

(** A row that holds the payload of [ticket] in every column the upsert
    may overwrite: all of them but [id], [first_received_utc] and
    [row_version]. *)
Definition takes_payload (ticket : TicketRecord.t) (r' : Row.t) : Prop :=
  Row.stable_id r' = TicketRecord.stable_id ticket
  /\ Row.conv_id r' = TicketRecord.conv_id ticket
  /\ Row.thread_key r' = TicketRecord.thread_key ticket
  /\ Row.entry_id r' = TicketRecord.entry_id ticket
  /\ Row.sender r' = TicketRecord.sender ticket
  /\ Row.subject r' = TicketRecord.subject ticket
  /\ Row.body r' = Some (TicketRecord.body ticket)
  /\ Row.first_forward_utc r' = TicketRecord.first_forward_utc ticket
  /\ Row.first_forward_to r' = TicketRecord.first_forward_to ticket
  /\ Row.first_reply_utc r' = TicketRecord.first_reply_utc ticket
  /\ Row.first_reply_body r' = TicketRecord.first_reply_body ticket
  /\ Row.responsible r' = TicketRecord.responsible ticket
  /\ Row.status r' = TicketRecord.status ticket
  /\ Row.last_status_utc r' = TicketRecord.last_status_utc ticket
  /\ Row.days_without_update r' = TicketRecord.days_without_update ticket
  /\ Row.overdue r' = (if TicketRecord.overdue ticket then 1 else 0)
  /\ Row.not_interesting r'
     = (if TicketRecord.not_interesting ticket then 1 else 0)
  /\ Row.customer_email r' = TicketRecord.customer_email ticket
  /\ Row.is_repeat r' = (if TicketRecord.is_repeat ticket then 1 else 0)
  /\ Row.repeat_hint r' = TicketRecord.repeat_hint ticket
  /\ Row.recommended_answer r' = TicketRecord.recommended_answer ticket
  /\ Row.match_score r' = TicketRecord.match_score ticket
  /\ Row.topic r' = TicketRecord.topic ticket
  /\ Row.last_reminder_utc r' = TicketRecord.last_reminder_utc ticket
  /\ Row.priority r' = TicketRecord.priority ticket
  /\ Row.last_updated_at r' = TicketRecord.last_updated_at ticket
  /\ Row.last_updated_by r' = TicketRecord.last_updated_by ticket
  /\ Row.data_source r' = TicketRecord.data_source ticket
  /\ Row.comment r' = TicketRecord.comment ticket.

End schema.

Import schema.

(** ** Sample data, after the records of the test suite *)

Module fixtures.

Definition t0 : datetime := datetime_of 2024 1 2 10 0 0.

(** The record of [test_unique_stable_id]. *)
Definition rec_c1 : TicketRecord.t :=
  {| TicketRecord.id := None;
     TicketRecord.conv_id := Some (u "c1");
     TicketRecord.thread_key := u "t1";
     TicketRecord.entry_id := Some (u "e1");
     TicketRecord.first_received_utc := t0;
     TicketRecord.sender := u "a@example.com";
     TicketRecord.subject := u "s1";
     TicketRecord.body := u "body";
     TicketRecord.first_forward_utc := None;
     TicketRecord.first_forward_to := None;
     TicketRecord.first_reply_utc := None;
     TicketRecord.first_reply_body := None;
     TicketRecord.responsible := None;
     TicketRecord.status := u "new";
     TicketRecord.last_status_utc := t0;
     TicketRecord.days_without_update := 0;
     TicketRecord.overdue := false;
     TicketRecord.not_interesting := false;
     TicketRecord.customer_email := None;
     TicketRecord.is_repeat := false;
     TicketRecord.repeat_hint := None;
     TicketRecord.recommended_answer := None;
     TicketRecord.match_score := None;
     TicketRecord.topic := None;
     TicketRecord.last_reminder_utc := None;
     TicketRecord.priority := None;
     TicketRecord.stable_id := Some (u "stable-1");
     TicketRecord.last_updated_at := Some t0;
     TicketRecord.last_updated_by := Some (u "test");
     TicketRecord.data_source := Some (u "test");
     TicketRecord.comment := None;
     TicketRecord.row_version := 1 |}.

(** [rec_c1] under another thread, status and stable id. *)
Definition rec_with (conv_id : option str) (thread_key status : str)
    (stable_id : option str) : TicketRecord.t :=
  {| TicketRecord.id := None;
     TicketRecord.conv_id := conv_id;
     TicketRecord.thread_key := thread_key;
     TicketRecord.entry_id := TicketRecord.entry_id rec_c1;
     TicketRecord.first_received_utc := t0;
     TicketRecord.sender := TicketRecord.sender rec_c1;
     TicketRecord.subject := TicketRecord.subject rec_c1;
     TicketRecord.body := TicketRecord.body rec_c1;
     TicketRecord.first_forward_utc := None;
     TicketRecord.first_forward_to := None;
     TicketRecord.first_reply_utc := None;
     TicketRecord.first_reply_body := None;
     TicketRecord.responsible := Some (u "resp@b.c");
     TicketRecord.status := status;
     TicketRecord.last_status_utc := t0;
     TicketRecord.days_without_update := 0;
     TicketRecord.overdue := false;
     TicketRecord.not_interesting := false;
     TicketRecord.customer_email := None;
     TicketRecord.is_repeat := false;
     TicketRecord.repeat_hint := None;
     TicketRecord.recommended_answer := None;
     TicketRecord.match_score := None;
     TicketRecord.topic := None;
     TicketRecord.last_reminder_utc := None;
     TicketRecord.priority := Some (u "p3");
     TicketRecord.stable_id := stable_id;
     TicketRecord.last_updated_at := Some t0;
     TicketRecord.last_updated_by := Some (u "test");
     TicketRecord.data_source := Some (u "test");
     TicketRecord.comment := None;
     TicketRecord.row_version := 1 |}.

(** The store after the upserts of [recs], from an empty store; an upsert
    that raises leaves the store as it was. *)
Definition store_of (recs : list TicketRecord.t) : Conn :=
  fold_left (fun c t => match upsert_ticket c t with
                        | Some (c', _) => c'
                        | None => c
                        end) recs empty_conn.

(** A store with the ticket of [rec_c1]. *)
Definition store_c1 : Conn := store_of [rec_c1].

(** A record without conversation id, and the store that holds it. *)
Definition rec_no_conv : TicketRecord.t :=
  rec_with None (u "hello") (u "assigned") None.

Definition store_no_conv : Conn := store_of [rec_no_conv].

(** Two tickets of two threads. *)
Definition rec_c2 : TicketRecord.t :=
  rec_with (Some (u "c2")) (u "t2") (u "responded") (Some (u "stable-2")).

Definition store_c1_c2 : Conn := store_of [rec_c1; rec_c2].

(** A record of the thread of [rec_c1] under the stable id of [rec_c2]. *)
Definition rec_c1_clash : TicketRecord.t :=
  rec_with (Some (u "c1")) (u "t1") (u "assigned") (Some (u "stable-2")).

(** The row the export writes for the ticket of [rec_c1], and the same row
    under a version the store does not hold, its last update read
    before and after the store's own. *)
Definition sheet_row (row_version : Z) (updated_at : string)
    : excel.SheetRow :=
  excel.mkSheetRow (Some 1) (Some row_version) (u "Закрыто")
                   (u "user1@example.com") (u "p2") (u "") (u updated_at).

Definition sheet_row_current : excel.SheetRow :=
  sheet_row 1 "2024-01-02 10:00:00".

Definition sheet_row_stale_late : excel.SheetRow :=
  sheet_row 999 "2024-01-02 12:00:00".


(** [datetime(2024, 1, day, hour, 0, 0)], the [dt] of
    [tests/test_business_hours.py]. *)
Definition dt (day hour : Z) : datetime := datetime_of 2024 1 day hour 0 0.

(** The configuration of [test_priority_sla_overdue_by_hours]. *)
Definition cfg_sla : AppConfig :=
  {| sender_filter := u "support@ru.naos.com";
     sender_filter_mode := u "off";
     sender_filter_value := None;
     overdue_days := 2;
     business_hours_start := 10;
     business_hours_end := 19;
     holidays := [];
     sla_by_priority :=
       dict [ (u "p1", mkSla (Some 4%Q) (Some 24%Q));
              (u "p3", mkSla (Some 16%Q) (Some 48%Q)) ] |}.

(** A new ticket of priority p3, received on Tuesday 2024-01-02 at 10:00,
    and the store that holds it; a week later 45 business hours have
    passed. *)
Definition rec_new : TicketRecord.t :=
  rec_with (Some (u "c1")) (u "t1") (u "new") (Some (u "test-stable")).

Definition store_new : Conn := store_of [rec_new].

Definition a_week_later : datetime := datetime_of 2024 1 9 10 0 0.

(** No enrichment: the scoring library is absent. *)
Definition no_advice (rows : list Row.t) (r : Row.t)
    : option recommend.Advice := None.


End fixtures.

(** ** [core/sla.py]: the reminder plan *)

Module reminders.

(** The options of [config.AppConfig] the reminder plan reads. *)
Record ReminderConfig := mkReminders {
  quiet_hours_start : Z;
  quiet_hours_end : Z;
  reminder_interval_hours : Z
}.

(** [now.hour] *)
Definition hour (now : datetime) : Z := dt_us now / US_PER_HOUR.

(** [is_quiet_hours]; [now] is the reading of the local clock. *)
Definition is_quiet_hours (cfg : ReminderConfig) (now : datetime) : bool :=
  let start := quiet_hours_start cfg in
  let end_ := quiet_hours_end cfg in
  let hour := hour now in
  if start <? end_ then (start <=? hour) && (hour <? end_)
  else (start <=? hour) || (hour <? end_).

(** [a - b] as a number of microseconds. *)
Definition us_between (a b : datetime) : Z :=
  (dt_day a - dt_day b) * US_PER_DAY + (dt_us a - dt_us b).

(** [(datetime.utcnow() - dt) < timedelta(hours=cfg.reminder_interval_hours)]
    on the last reminder of a ticket, when it has one. *)
Definition reminded_recently (cfg : ReminderConfig) (utcnow : datetime)
    (r : Row.t) : bool :=
  match Row.last_reminder_utc r with
  | Some dt => us_between utcnow dt <? reminder_interval_hours cfg * US_PER_HOUR
  | None => false
  end.

(** An entry of a bucket: the row as a dict, and its ["skip_reason"] when
    the key is set. *)
Record PlanEntry := mkEntry {
  pe_row : Row.t;
  pe_skip_reason : option str
}.

(** The dict [overdue_plan] returns. *)
Record Plan := mkPlan {
  send : list PlanEntry;
  skip_interval : list PlanEntry;
  skip_quiet : list PlanEntry;
  skip_no_responsible : list PlanEntry
}.

(** The WHERE clause of the plan: [status IN ('overdue', 'responded')] *)
Definition planned (r : Row.t) : bool :=
  bool_decide (Row.status r ∈ [sla.STATUS_OVERDUE; sla.STATUS_RESPONDED]).

(** The body of the [for row in rows] loop. *)
Definition plan_row (cfg : ReminderConfig) (quiet : bool) (utcnow : datetime)
    (plan : Plan) (row : Row.t) : Plan :=
  if negb (truthy_opt (Row.responsible row)) then
    mkPlan (send plan) (skip_interval plan) (skip_quiet plan)
           (skip_no_responsible plan
            ++ [mkEntry row (Some (u "no_responsible"))])
  else if reminded_recently cfg utcnow row then
    mkPlan (send plan)
           (skip_interval plan ++ [mkEntry row (Some (u "interval"))])
           (skip_quiet plan) (skip_no_responsible plan)
  else if quiet then
    mkPlan (send plan) (skip_interval plan)
           (skip_quiet plan ++ [mkEntry row (Some (u "quiet_hours"))])
           (skip_no_responsible plan)
  else
    mkPlan (send plan ++ [mkEntry row None]) (skip_interval plan)
           (skip_quiet plan) (skip_no_responsible plan).

(** [overdue_plan]; [now] is the reading of the local clock, [utcnow]
    that of the UTC clock. *)
Definition overdue_plan (cfg : ReminderConfig) (now utcnow : datetime)
    (conn : Conn) : Plan :=
  let rows := List.filter planned (tickets conn) in
  let quiet := is_quiet_hours cfg now in
  fold_left (plan_row cfg quiet utcnow) rows (mkPlan [] [] [] []).

(** [overdue_candidates] *)
Definition overdue_candidates (cfg : ReminderConfig) (now utcnow : datetime)
    (conn : Conn) : list PlanEntry :=
  send (overdue_plan cfg now utcnow conn).

End reminders.

(** ** [core/utils.py]: subjects *)

Module subjects.

(** A letter of the pattern under [re.IGNORECASE]: the letter [c] or its
    capital. *)
Definition letter (c x : N) : bool := ((x =? c) || (x =? c - 32))%N.

(** [(re:|fw:|fwd:)] at the head of [s]: what follows the match. *)
Definition match_prefix (s : str) : option str :=
  match s with
  | a :: b :: c :: rest =>
      if letter 114 a && letter 101 b && (c =? 58)%N then Some rest
      else if letter 102 a && letter 119 b && (c =? 58)%N then Some rest
      else
        match rest with
        | d :: rest' =>
            if letter 102 a && letter 119 b && letter 100 c && (d =? 58)%N
            then Some rest'
            else None
        | [] => None
        end
  | _ => None
  end.

(** The repeated group of the pattern, a prefix followed by any white
    space, from the head of [s]: what is left after the last turn of the
    group.  A turn consumes at least three characters,
    so that the length of the subject bounds their number. *)
Fixpoint match_prefixes (fuel : nat) (s : str) : str :=
  match fuel with
  | O => s
  | S fuel' =>
      match match_prefix s with
      | Some rest => match_prefixes fuel' (lstrip rest)
      | None => s
      end
  end.

(** [normalize_subject] *)
Definition normalize_subject (subject : str) : str :=
  if truthy subject
  then strip (match_prefixes (length subject) subject)
  else [].

End subjects.

(** ** [core/sla.py]: commands of a mail body, replies of a thread *)

Module commands.

(** The line boundaries of [str.splitlines]. *)
Definition is_linebreak (c : N) : bool :=
  ((10 <=? c) && (c <=? 13) || (28 <=? c) && (c <=? 30)
   || (c =? 133) || (c =? 8232) || (c =? 8233))%N.

(** [s.splitlines()], with the line begun in [cur]; a carriage return
    followed by a line feed is one boundary. *)
Fixpoint splitlines_from (cur : str) (s : str) : list str :=
  match s with
  | [] => match cur with [] => [] | _ :: _ => [cur] end
  | c :: rest =>
      if is_linebreak c then
        cur :: match rest with
               | d :: rest' =>
                   if ((c =? 13) && (d =? 10))%N
                   then splitlines_from [] rest'
                   else splitlines_from [] rest
               | [] => splitlines_from [] rest
               end
      else splitlines_from (cur ++ [c]) rest
  end.

Definition splitlines (s : str) : list str := splitlines_from [] s.

(** The longest head of [s] without white space, and what follows it. *)
Fixpoint word (s : str) : str * str :=
  match s with
  | c :: r =>
      if isspace c then ([], s)
      else let '(w, rest) := word r in (c :: w, rest)
  | [] => ([], [])
  end.

(** [s.split(maxsplit=1)] *)
Definition split1 (s : str) : list str :=
  match lstrip s with
  | [] => []
  | c :: r =>
      let '(w, rest) := word (c :: r) in
      match lstrip rest with
      | [] => [w]
      | d :: t => [w; d :: t]
      end
  end.

(** The test that ends the block at a quoted message. *)
Definition quoted (stripped : str) : bool :=
  let low := lower stripped in
  startswith stripped (u ">")
  || startswith low (u "from:")
  || startswith low (u "sent:")
  || startswith low (u "от:")
  || startswith low (u "дата:").

(** The [for line in body.splitlines()] loop. *)
Fixpoint parse_lines (lines : list str) (commands : gmap str str)
    : gmap str str :=
  match lines with
  | [] => commands
  | line :: rest =>
      let stripped := strip line in
      if negb (truthy stripped) then commands
      else if quoted stripped then commands
      else if negb (startswith stripped (u "/")) then parse_lines rest commands
      else
        match split1 (tl stripped) with
        | [] => parse_lines rest commands
        | cmd :: args =>
            let arg := match args with a :: _ => strip a | [] => [] end in
            parse_lines rest (<[lower cmd := arg]> commands)
        end
  end.

(** [_parse_command_block] *)
Definition _parse_command_block (body : str) : gmap str str :=
  if truthy body then parse_lines (splitlines body) ∅ else ∅.

Section FindFirstAfter.

(** [T] is the type of the time stamps Outlook hands over, [P] that of
    the payloads; [_to_naive] answers [None] for a stamp it cannot
    convert. *)
Context {T P : Type}.
Variable _to_naive : T -> option datetime.

(** The [for dt, payload in events] loop. *)
Fixpoint first_after (events : list (T * P)) (after : option datetime)
    : option datetime * option P :=
  match events with
  | [] => (None, None)
  | (dt, payload) :: rest =>
      match _to_naive dt, after with
      | Some ndt, Some a =>
          if leb a ndt then (Some ndt, Some payload)
          else first_after rest after
      | _, _ => first_after rest after
      end
  end.

(** [_find_first_after] *)
Definition _find_first_after (events : list (T * P)) (after_dt : T)
    : option datetime * option P :=
  first_after events (_to_naive after_dt).

End FindFirstAfter.

End commands.

(** ** Vocabulary of the further properties *)

Module vocabulary.

(** [STATUS_ORDER.get(s, -1)] *)
Definition rank (s : str) : Z := default (-1) (sla.STATUS_ORDER !! s).

(** The codes of the closed status set. *)
Definition closed_codes : list str := List.map fst sla.STATUS_MODEL.

(** The larger of two ranks over a list of candidates. *)
Definition max_rank (current : str) (candidates : list str) : Z :=
  fold_left (fun m c => Z.max m (rank c)) candidates (rank current).

(** The status texts the migration rewrites: the keys of
    [STATUS_MIGRATION] and the alias [in_table]. *)
Definition legacy_statuses : list str :=
  List.map fst STATUS_MIGRATION ++ [u "in_table"].

(** What the UPDATEs of [_migrate_statuses], in their order, make of a
    status. *)
Definition migrated_status (s : str) : str :=
  let s' := fold_left (fun x on => if bool_decide (x = on.1) then on.2 else x)
                      STATUS_MIGRATION s in
  if bool_decide (s' = u "in_table") then u "table" else s'.

(** Two rows that agree on what identifies a ticket and on what was
    received: the columns only the upsert writes. *)
Definition same_message (r r' : Row.t) : Prop :=
  Row.id r' = Row.id r
  /\ Row.stable_id r' = Row.stable_id r
  /\ Row.conv_id r' = Row.conv_id r
  /\ Row.thread_key r' = Row.thread_key r
  /\ Row.entry_id r' = Row.entry_id r
  /\ Row.first_received_utc r' = Row.first_received_utc r
  /\ Row.sender r' = Row.sender r
  /\ Row.subject r' = Row.subject r
  /\ Row.body r' = Row.body r
  /\ Row.first_forward_utc r' = Row.first_forward_utc r
  /\ Row.first_forward_to r' = Row.first_forward_to r
  /\ Row.first_reply_utc r' = Row.first_reply_utc r
  /\ Row.first_reply_body r' = Row.first_reply_body r
  /\ Row.customer_email r' = Row.customer_email r
  /\ Row.not_interesting r' = Row.not_interesting r.

(** Two rows that agree on what the operator edits and on the
    optimistic-concurrency token. *)
Definition same_edit (r r' : Row.t) : Prop :=
  Row.responsible r' = Row.responsible r
  /\ Row.priority r' = Row.priority r
  /\ Row.comment r' = Row.comment r
  /\ Row.last_reminder_utc r' = Row.last_reminder_utc r
  /\ Row.last_updated_at r' = Row.last_updated_at r
  /\ Row.last_updated_by r' = Row.last_updated_by r
  /\ Row.data_source r' = Row.data_source r
  /\ Row.row_version r' = Row.row_version r.

(** Two rows that agree on what the sweep computes. *)
Definition same_sla (r r' : Row.t) : Prop :=
  Row.status r' = Row.status r
  /\ Row.last_status_utc r' = Row.last_status_utc r
  /\ Row.days_without_update r' = Row.days_without_update r
  /\ Row.overdue r' = Row.overdue r.

(** Two rows that agree on what the enrichment writes. *)
Definition same_advice (r r' : Row.t) : Prop :=
  Row.is_repeat r' = Row.is_repeat r
  /\ Row.repeat_hint r' = Row.repeat_hint r
  /\ Row.recommended_answer r' = Row.recommended_answer r
  /\ Row.match_score r' = Row.match_score r
  /\ Row.topic r' = Row.topic r.

(** Two rows that agree on every column but [status]. *)
Definition same_but_status (r r' : Row.t) : Prop :=
  same_message r r' /\ same_edit r r' /\ same_advice r r'
  /\ Row.last_status_utc r' = Row.last_status_utc r
  /\ Row.days_without_update r' = Row.days_without_update r
  /\ Row.overdue r' = Row.overdue r.

(** Two rows that agree on every column the spreadsheet import leaves
    alone. *)
Definition same_but_sheet (r r' : Row.t) : Prop :=
  same_message r r' /\ same_advice r r'
  /\ Row.days_without_update r' = Row.days_without_update r
  /\ Row.last_reminder_utc r' = Row.last_reminder_utc r.

(** Two rows that agree on every column the sweep and the enrichment
    leave alone. *)
Definition same_but_sweep (r r' : Row.t) : Prop :=
  same_message r r' /\ same_edit r r'.

(** The tests of the loop of the plan, in their order: the ticket has a
    responsible, it was not reminded within the interval, the hour is not
    quiet. *)
Definition to_send (cfg : reminders.ReminderConfig) (now utcnow : datetime)
    (r : Row.t) : bool :=
  truthy_opt (Row.responsible r)
  && negb (reminders.reminded_recently cfg utcnow r)
  && negb (reminders.is_quiet_hours cfg now).

Definition to_skip_interval (cfg : reminders.ReminderConfig)
    (utcnow : datetime) (r : Row.t) : bool :=
  truthy_opt (Row.responsible r) && reminders.reminded_recently cfg utcnow r.

Definition to_skip_quiet (cfg : reminders.ReminderConfig)
    (now utcnow : datetime) (r : Row.t) : bool :=
  truthy_opt (Row.responsible r)
  && negb (reminders.reminded_recently cfg utcnow r)
  && reminders.is_quiet_hours cfg now.

(** The prefixes [normalize_subject] removes, and a character that is a
    character of the pattern up to the case of a letter. *)
Definition reply_prefixes : list str := [u "re:"; u "fw:"; u "fwd:"].

Definition same_letter (x c : N) : Prop :=
  x = c \/ ((97 <= c <= 122)%N /\ x = (c - 32)%N).

(** The lines that end a command block: a blank line, or the first line
    of a quoted message. *)
Definition ends_block (line : str) : bool :=
  negb (truthy (strip line)) || commands.quoted (strip line).

(** A sheet row the loop of the import can read: a numeric ticket id
    comes with a numeric version. *)
Definition readable (row : excel.SheetRow) : Prop :=
  is_Some (excel.sr_ticket_id row) -> is_Some (excel.sr_row_version row).


End vocabulary.

Import vocabulary.

(** * Properties *)

Import sla.

(** ** Status model *)

(** C8. [derive_base_status] reads its flags in the order uninteresting,
    requires_table, has_reply, has_forward: the first flag that is set
    decides, a reply gives [responded], a forward gives [assigned]; with no
    flag set the result is [assigned], which is not [new]. *)
Theorem derive_base_status_priority :
  forall has_forward has_reply requires_table : bool,
    derive_base_status has_forward has_reply requires_table true
      = STATUS_NOT_INTERESTING
    /\ derive_base_status has_forward has_reply true false = STATUS_TABLE
    /\ derive_base_status has_forward true false false = STATUS_RESPONDED
    /\ derive_base_status true false false false = STATUS_ASSIGNED
    /\ derive_base_status false false false false = STATUS_ASSIGNED
    /\ derive_base_status false false false false <> STATUS_NEW.
Proof.
  intros has_forward has_reply requires_table.
  repeat split; try reflexivity.
  vm_compute. discriminate.
Qed.

(** The codes of the fixed status set, in the order of [STATUS_MODEL]. *)
Lemma status_codes :
  List.map fst STATUS_MODEL
  = [STATUS_NEW; STATUS_ASSIGNED; STATUS_RESPONDED; STATUS_RESOLVED;
     STATUS_WAITING_CUSTOMER; STATUS_TABLE; STATUS_OTIP; STATUS_OVERDUE;
     STATUS_NOT_INTERESTING].
Proof. reflexivity. Qed.

(** C7. For every code of the fixed status set, translating the code to its
    label and the label back gives the code. *)
Theorem status_label_round_trip :
  forall code : str,
    In code (List.map fst STATUS_MODEL) ->
    status_text_to_code (status_code_to_label code) = Some code.
Proof.
  intros code Hin. rewrite status_codes in Hin.
  repeat (destruct Hin as [<- | Hin]; [vm_compute; reflexivity |]).
  destruct Hin.
Qed.

Lemma status_label_round_trip_witness :
  In STATUS_OVERDUE (List.map fst STATUS_MODEL)
  /\ status_text_to_code (status_code_to_label STATUS_OVERDUE)
     = Some STATUS_OVERDUE.
Proof.
  assert (Hin : In STATUS_OVERDUE (List.map fst STATUS_MODEL)).
  { vm_compute. tauto. }
  split; [exact Hin | exact (status_label_round_trip STATUS_OVERDUE Hin)].
Defined.

(** ** Sender filter *)

Section SenderFilter.

Lemma lstrip_nil (s : str) :
  lstrip s = [] -> forallb isspace s = true.
Proof.
  induction s as [|c s IH]; simpl; [reflexivity|].
  destruct (isspace c); [exact IH | discriminate].
Qed.

Lemma lstrip_all_space (s : str) :
  forallb isspace s = true -> lstrip s = [].
Proof.
  induction s as [|c s IH]; simpl; [reflexivity|].
  destruct (isspace c); simpl; [exact IH | discriminate].
Qed.

Lemma lstrip_head (s : str) :
  match lstrip s with
  | [] => True
  | c :: _ => isspace c = false
  end.
Proof.
  induction s as [|c s IH]; simpl; [exact I|].
  destruct (isspace c) eqn:E; [exact IH | exact E].
Qed.

Lemma forallb_rev {A} (p : A -> bool) (l : list A) :
  forallb p (rev l) = forallb p l.
Proof.
  induction l as [|a l IH]; simpl; [reflexivity|].
  rewrite forallb_app, IH. simpl. rewrite andb_true_r. apply andb_comm.
Qed.

(** A string that [strip()] empties holds white space only. *)
Lemma strip_nil (s : str) :
  strip s = [] -> forallb isspace s = true.
Proof.
  unfold strip, rstrip. intros H.
  assert (Hl : lstrip (rev (lstrip s)) = []).
  { rewrite <- (rev_involutive (lstrip (rev (lstrip s)))), H. reflexivity. }
  apply lstrip_nil in Hl. rewrite forallb_rev in Hl.
  pose proof (lstrip_head s) as Hh.
  destruct (lstrip s) as [|c r] eqn:E.
  - apply lstrip_nil. exact E.
  - simpl in Hl. rewrite Hh in Hl. discriminate.
Qed.

Lemma strip_all_space (s : str) :
  forallb isspace s = true -> strip s = [].
Proof.
  intros H. unfold strip. rewrite (lstrip_all_space s H). reflexivity.
Qed.

(** White space has no case. *)
Lemma isspace_range (c : N) :
  isspace c = true ->
  (c < 65 \/ (90 < c /\ c < 192) \/ 1071 < c)%N.
Proof.
  unfold isspace.
  rewrite !orb_true_iff, !andb_true_iff, !N.leb_le, !N.eqb_eq. lia.
Qed.

Lemma lower_cp_space (c : N) :
  isspace c = true -> lower_cp c = c.
Proof.
  intros H. apply isspace_range in H. unfold lower_cp.
  assert (E1 : ((65 <=? c) && (c <=? 90))%N = false).
  { rewrite andb_false_iff, !N.leb_gt. lia. }
  assert (E2 : ((192 <=? c) && (c <=? 222) && negb (c =? 215))%N = false).
  { rewrite !andb_false_iff, !N.leb_gt. lia. }
  assert (E3 : ((1024 <=? c) && (c <=? 1039))%N = false).
  { rewrite andb_false_iff, !N.leb_gt. lia. }
  assert (E4 : ((1040 <=? c) && (c <=? 1071))%N = false).
  { rewrite andb_false_iff, !N.leb_gt. lia. }
  rewrite E1, E2, E3, E4. reflexivity.
Qed.

Lemma lower_all_space (s : str) :
  forallb isspace s = true -> lower s = s.
Proof.
  unfold lower. induction s as [|c s IH]; simpl; [reflexivity|].
  intros H. apply andb_prop in H as [Hc Hs].
  rewrite (lower_cp_space c Hc), (IH Hs). reflexivity.
Qed.

(** The filter accepts every sender once the normalised value is empty. *)
Lemma passes_sender_filter_no_value (sender : option str) (cfg : AppConfig) :
  (utils._normalize_sender_filter cfg).2 = [] ->
  utils.passes_sender_filter sender cfg = true.
Proof.
  unfold utils.passes_sender_filter.
  destruct (utils._normalize_sender_filter cfg) as [mode value].
  cbn [snd]. intros ->. cbn [truthy negb].
  rewrite orb_true_r. reflexivity.
Qed.

(** C10. When the configured filter value is empty once trimmed, every
    sender passes the filter, whatever the configured mode: [contains],
    [equals] and [domain] accept as [off] does. *)
Theorem passes_sender_filter_empty_value :
  forall (sender : option str) (cfg : AppConfig),
    strip (utils.configured_value cfg) = [] ->
    utils.passes_sender_filter sender cfg = true.
Proof.
  intros sender cfg H. apply passes_sender_filter_no_value.
  pose proof (strip_nil _ H) as Hs.
  unfold utils._normalize_sender_filter.
  rewrite (lower_all_space _ Hs), H.
  rewrite andb_false_r. reflexivity.
Qed.

End SenderFilter.

Lemma passes_sender_filter_empty_value_witness :
  let cfg := mkCfg (u "support@ru.naos.com") (u "domain") (Some (u "   "))
                   2 10 19 [] ∅ in
  strip (utils.configured_value cfg) = []
  /\ utils.passes_sender_filter (Some (u "user@other.com")) cfg = true.
Proof.
  intros cfg.
  assert (H : strip (utils.configured_value cfg) = []) by reflexivity.
  split; [exact H |].
  exact (passes_sender_filter_empty_value (Some (u "user@other.com")) cfg H).
Defined.

(** ** Event log *)

Section EventLog.

Implicit Types (conn : Conn) (e : str) (evs : list Event.t).

Lemma entry_count_app e evs ev :
  entry_count e (evs ++ [ev])
  = (entry_count e evs
     + if bool_decide (Event.item_entry_id ev = Some e) then 1 else 0)%nat.
Proof.
  unfold entry_count. rewrite List.filter_app, length_app. simpl.
  destruct (bool_decide (Event.item_entry_id ev = Some e)); reflexivity.
Qed.

(** The test of [INSERT OR IGNORE]: some row holds the id exactly when the
    count is positive. *)
Lemma taken_iff_counted e evs :
  existsb (fun ev => bool_decide (Event.item_entry_id ev = Some e)) evs = true
  <-> (0 < entry_count e evs)%nat.
Proof.
  unfold entry_count. induction evs as [|ev evs IH]; simpl.
  - split; [discriminate | lia].
  - destruct (bool_decide (Event.item_entry_id ev = Some e)); simpl.
    + split; [lia | reflexivity].
    + exact IH.
Qed.

Lemma log_call_events e conn a :
  events (log_call e conn a) = events conn
  \/ (entry_count e (events conn) = 0%nat
      /\ exists ev, Event.item_entry_id ev = Some e
                    /\ events (log_call e conn a) = events conn ++ [ev]).
Proof.
  unfold log_call, log_event.
  destruct (existsb _ (events conn)) eqn:E.
  - left. reflexivity.
  - right. split.
    + destruct (entry_count e (events conn)) eqn:C; [reflexivity|].
      assert (H : (0 < entry_count e (events conn))%nat) by lia.
      apply taken_iff_counted in H. congruence.
    + eexists. split; [|reflexivity]. reflexivity.
Qed.



(** [log_event] keeps [UNIQUE(item_entry_id)]. *)
Lemma log_call_unique e conn a :
  unique_item_entry_id (events conn) ->
  unique_item_entry_id (events (log_call e conn a)).
Proof.
  intros Hu y.
  destruct (log_call_events e conn a) as [-> | (H0 & ev & Hid & ->)].
  - apply Hu.
  - rewrite entry_count_app, Hid. specialize (Hu y).
    destruct (bool_decide (Some e = Some y)) eqn:B; [|lia].
    apply bool_decide_eq_true_1 in B. injection B as <-. lia.
Qed.



End EventLog.


(** ** Reminders *)

Section Reminder.

(** What [UPDATE ... WHERE id=?] does to the row at a given place. *)
Lemma update_ticket_lookup (ticket_id : Z) (f : Row.t -> Row.t)
    (rows : list Row.t) (i : nat) :
  update_ticket ticket_id f rows !! i
  = (fun r => if Row.id r =? ticket_id then f r else r) <$> rows !! i.
Proof. unfold update_ticket. apply list_lookup_fmap. Qed.

Lemma set_reminder_frame (now : datetime) (r : Row.t) :
  same_but_reminder r (set_reminder now r).
Proof. unfold same_but_reminder. repeat split. Qed.

Lemma same_but_reminder_refl (r : Row.t) : same_but_reminder r r.
Proof. unfold same_but_reminder. repeat split. Qed.

(** C9. [mark_reminder_sent] keeps the place of every ticket and, on every
    ticket, every column but [last_reminder_utc] and [row_version]; the
    status in particular is unchanged.  On the ticket it names it stores
    the time of the call and adds one to [row_version]; any other ticket is
    left as it is. *)
Theorem mark_reminder_sent_frame :
  forall (now : datetime) (ticket_id : Z) (conn : Conn) (i : nat) (r : Row.t),
    tickets conn !! i = Some r ->
    exists r' : Row.t,
      tickets (mark_reminder_sent now ticket_id conn) !! i = Some r'
      /\ same_but_reminder r r'
      /\ Row.status r' = Row.status r
      /\ (Row.id r = ticket_id ->
          Row.last_reminder_utc r' = Some now
          /\ Row.row_version r' = Row.row_version r + 1)
      /\ (Row.id r <> ticket_id -> r' = r).
Proof.
  intros now ticket_id conn i r Hr.
  unfold mark_reminder_sent. cbn [tickets].
  rewrite update_ticket_lookup, Hr. cbn [fmap option_fmap option_map].
  destruct (Z.eqb_spec (Row.id r) ticket_id) as [Heq | Hne].
  - exists (set_reminder now r). repeat split; try reflexivity.
    contradiction.
  - exists r. split; [reflexivity|]. split; [apply same_but_reminder_refl|].
    split; [reflexivity|]. split; [contradiction | reflexivity].
Qed.

End Reminder.

Lemma mark_reminder_sent_frame_witness :
  let r := inserted_row 1 fixtures.rec_c1 in
  tickets fixtures.store_c1 !! 0%nat = Some r
  /\ exists r' : Row.t,
       tickets (mark_reminder_sent (datetime_of 2024 1 3 9 0 0) 1
                                   fixtures.store_c1) !! 0%nat = Some r'
       /\ same_but_reminder r r'
       /\ Row.status r' = Row.status r
       /\ (Row.id r = 1 ->
           Row.last_reminder_utc r' = Some (datetime_of 2024 1 3 9 0 0)
           /\ Row.row_version r' = Row.row_version r + 1)
       /\ (Row.id r <> 1 -> r' = r).
Proof.
  intros r.
  assert (H : tickets fixtures.store_c1 !! 0%nat = Some r) by reflexivity.
  split; [exact H |].
  exact (mark_reminder_sent_frame (datetime_of 2024 1 3 9 0 0) 1
                                  fixtures.store_c1 0%nat r H).
Defined.

(** ** Ticket store *)

Section Store.

Implicit Types (rows : list Row.t) (r : Row.t).

(** Under the primary key a ticket is the row its id selects. *)
Lemma select_ticket_in rows r :
  primary_key rows -> In r rows -> select_ticket (Row.id r) rows = Some r.
Proof.
  unfold primary_key, select_ticket.
  induction rows as [|a rows IH]; simpl; intros Hnd Hin; [contradiction|].
  apply NoDup_cons in Hnd as [Hna Hnd'].
  destruct Hin as [-> | Hin].
  - rewrite Z.eqb_refl. reflexivity.
  - destruct (Z.eqb_spec (Row.id a) (Row.id r)) as [E | _].
    + exfalso. apply Hna. rewrite E.
      apply list_elem_of_In. apply in_map. exact Hin.
    + apply IH; assumption.
Qed.

Lemma select_ticket_some rows k r :
  select_ticket k rows = Some r -> In r rows /\ Row.id r = k.
Proof.
  unfold select_ticket. intros H. apply find_some in H as [Hin Hk].
  split; [exact Hin | apply Z.eqb_eq; exact Hk].
Qed.

(** Selecting after an UPDATE whose assignments leave [id] alone. *)
Lemma select_ticket_map (g : Row.t -> Row.t) rows k :
  (forall t, Row.id (g t) = Row.id t) ->
  select_ticket k (List.map g rows) = g <$> select_ticket k rows.
Proof.
  intros Hid. unfold select_ticket.
  induction rows as [|a rows IH]; simpl; [reflexivity|].
  rewrite Hid. destruct (Row.id a =? k); [reflexivity | exact IH].
Qed.

Lemma map_ids_preserved (g : Row.t -> Row.t) rows :
  (forall t, Row.id (g t) = Row.id t) ->
  List.map Row.id (List.map g rows) = List.map Row.id rows.
Proof.
  intros Hid. rewrite List.map_map. apply List.map_ext. exact Hid.
Qed.

(** The row the conflict target finds is the ticket of the thread. *)
Lemma conflict_row_in rows r (c : str) :
  unique_thread rows -> In r rows -> Row.conv_id r = Some c ->
  conflict_row (Some c) (Row.thread_key r) rows = Some r.
Proof.
  intros Hu Hin Hc. unfold conflict_row.
  destruct (List.find _ rows) as [r0|] eqn:F.
  - apply find_some in F as [Hin0 Hp].
    apply andb_prop in Hp as [H1 H2].
    apply bool_decide_eq_true_1 in H1. apply bool_decide_eq_true_1 in H2.
    f_equal. apply (Hu r0 r c); assumption.
  - exfalso. pose proof (find_none _ _ F r Hin) as Hp. simpl in Hp.
    rewrite (bool_decide_eq_true_2 _ Hc) in Hp.
    rewrite bool_decide_eq_true_2 in Hp by reflexivity. discriminate.
Qed.

Lemma updated_row_payload r (ticket : TicketRecord.t) :
  takes_payload ticket (updated_row r ticket).
Proof.
  unfold takes_payload, updated_row, inserted_row, int_of_bool.
  cbn. repeat split.
Qed.

(** C1, as the code has it.  In a store that satisfies its constraints,
    for every ticket that is present under a (conv_id, thread_key) pair
    whose conv_id is not null, the upsert of a record with the same pair,
    whose stable id no other ticket holds, returns, inserts no row, writes
    the payload over every column but [id] and [first_received_utc], which
    keep their stored values, and adds exactly one to the stored
    [row_version], whatever the payload; the other tickets stay. *)
Theorem upsert_ticket_on_conflict :
  forall (conn : Conn) (ticket : TicketRecord.t) (r : Row.t) (c : str),
    primary_key (tickets conn) ->
    unique_thread (tickets conn) ->
    In r (tickets conn) ->
    Row.conv_id r = Some c ->
    TicketRecord.conv_id ticket = Some c ->
    TicketRecord.thread_key ticket = Row.thread_key r ->
    stable_id_taken (Some (Row.id r)) (TicketRecord.stable_id ticket)
                    (tickets conn) = false ->
    exists (conn' : Conn) (ticket_id : Z) (r' : Row.t),
      upsert_ticket conn ticket = Some (conn', ticket_id)
      /\ length (tickets conn') = length (tickets conn)
      /\ select_ticket (Row.id r) (tickets conn') = Some r'
      /\ takes_payload ticket r'
      /\ Row.id r' = Row.id r
      /\ Row.first_received_utc r' = Row.first_received_utc r
      /\ Row.row_version r' = Row.row_version r + 1
      /\ (forall r2, In r2 (tickets conn) -> Row.id r2 <> Row.id r ->
                     In r2 (tickets conn')).
Proof.
  intros conn ticket r c Hpk Hut Hin Hc Htc Htk Hfree.
  unfold upsert_ticket. cbn zeta.
  rewrite Htc, Htk, (conflict_row_in _ r c Hut Hin Hc), Hfree.
  eexists _, _, (updated_row r ticket).
  split; [reflexivity|]. cbn [tickets].
  split; [apply length_map|].
  split.
  { unfold update_ticket. rewrite select_ticket_map.
    - rewrite (select_ticket_in _ r Hpk Hin). cbn.
      rewrite Z.eqb_refl. reflexivity.
    - intros t. destruct (Row.id t =? Row.id r); reflexivity. }
  split; [apply updated_row_payload|].
  do 3 (split; [reflexivity|]).
  intros r2 Hin2 Hne. unfold update_ticket. apply in_map_iff.
  exists r2. split; [|exact Hin2].
  destruct (Z.eqb_spec (Row.id r2) (Row.id r)); [contradiction | reflexivity].
Qed.

End Store.

Lemma unique_thread_singleton (r : Row.t) : unique_thread [r].
Proof.
  intros r1 r2 c [<- | []] [<- | []] _ _ _. reflexivity.
Qed.

Lemma upsert_ticket_on_conflict_witness :
  let conn := fixtures.store_c1 in
  let r := inserted_row 1 fixtures.rec_c1 in
  In r (tickets conn)
  /\ exists (conn' : Conn) (ticket_id : Z) (r' : Row.t),
       upsert_ticket conn fixtures.rec_c1 = Some (conn', ticket_id)
       /\ length (tickets conn') = length (tickets conn)
       /\ select_ticket (Row.id r) (tickets conn') = Some r'
       /\ takes_payload fixtures.rec_c1 r'
       /\ Row.id r' = Row.id r
       /\ Row.first_received_utc r' = Row.first_received_utc r
       /\ Row.row_version r' = Row.row_version r + 1
       /\ (forall r2, In r2 (tickets conn) -> Row.id r2 <> Row.id r ->
                      In r2 (tickets conn')).
Proof.
  intros conn r.
  assert (Hin : In r (tickets conn)) by (left; reflexivity).
  split; [exact Hin |].
  refine (upsert_ticket_on_conflict conn fixtures.rec_c1 r (u "c1")
            _ _ Hin _ _ _ _).
  - unfold primary_key. simpl. repeat constructor. intros H.
    apply elem_of_nil in H. exact H.
  - apply unique_thread_singleton.
  - reflexivity.
  - reflexivity.
  - reflexivity.
  - vm_compute. reflexivity.
Defined.

(** C1 fails as it is stated, at two inputs.  A ticket stored without a
    conversation id is present under the pair (None, thread_key), and the
    upsert of the very record that created it inserts a second row: two
    NULLs never conflict in [UNIQUE(conv_id, thread_key)].  And a record of
    the thread of a stored ticket whose stable id another ticket holds makes
    the statement raise: nothing is updated. *)
Lemma upsert_ticket_same_pair_not_always_update :
  (In (inserted_row 1 fixtures.rec_no_conv) (tickets fixtures.store_no_conv)
   /\ Row.conv_id (inserted_row 1 fixtures.rec_no_conv)
      = TicketRecord.conv_id fixtures.rec_no_conv
   /\ Row.thread_key (inserted_row 1 fixtures.rec_no_conv)
      = TicketRecord.thread_key fixtures.rec_no_conv
   /\ length (tickets fixtures.store_no_conv) = 1%nat
   /\ (fun p => (length (tickets p.1), p.2))
        <$> upsert_ticket fixtures.store_no_conv fixtures.rec_no_conv
      = Some (2%nat, 2))
  /\ (In (inserted_row 1 fixtures.rec_c1) (tickets fixtures.store_c1_c2)
      /\ Row.conv_id (inserted_row 1 fixtures.rec_c1)
         = TicketRecord.conv_id fixtures.rec_c1_clash
      /\ Row.thread_key (inserted_row 1 fixtures.rec_c1)
         = TicketRecord.thread_key fixtures.rec_c1_clash
      /\ upsert_ticket fixtures.store_c1_c2 fixtures.rec_c1_clash = None).
Proof.
  split.
  - split; [left; reflexivity|]. repeat split; vm_compute; reflexivity.
  - split; [left; reflexivity|]. repeat split; vm_compute; reflexivity.
Qed.

(** ** Spreadsheet import *)

Section SheetImport.

Import excel.

Variable fromisoformat : str -> option datetime.

(** Logging an event leaves the table of tickets alone. *)
Lemma log_event_tickets (c : Conn) (now : datetime) (ticket_id : Z)
    (event_type : str) (status_before status_after : option str)
    (source : str) (raw_response item_entry_id : option str) :
  tickets (log_event c now ticket_id event_type status_before status_after
                     source raw_response item_entry_id)
  = tickets c.
Proof.
  unfold log_event.
  destruct item_entry_id as [e|]; [destruct (existsb _ (events c))|];
    reflexivity.
Qed.



End SheetImport.




(** ** Business hours *)

Section BusinessHours.

Lemma not_holiday (d : Z) (holidays : list str) :
  ~ In (date_isoformat d) holidays ->
  bool_decide (date_isoformat d ∈ (list_to_set holidays : gset str)) = false.
Proof.
  intros H. apply bool_decide_eq_false_2. rewrite elem_of_list_to_set.
  rewrite list_elem_of_In. exact H.
Qed.

(** What one business day adds, for an end hour that [time(hour=...)]
    accepts. *)
Lemma day_hours_business_day (start end_ : datetime)
    (start_hour end_hour : Z) (hs : gset str) :
  0 <= start_hour <= 23 ->
  end_hour <= 23 ->
  dt_day end_ = dt_day start ->
  weekday (dt_day start) < 5 ->
  bool_decide (date_isoformat (dt_day start) ∈ hs) = false ->
  day_hours start end_ start_hour end_hour hs
  == hours_of_us
       (Z.max 0 (Z.min (dt_us end_) (time_hour end_hour)
                 - Z.max (dt_us start) (time_hour start_hour))).
Proof.
  intros Hsh Heh Hday Hwd Hhol.
  unfold day_hours. rewrite Hhol.
  destruct (Z.leb_spec 5 (weekday (dt_day start))) as [?|_]; [lia|].
  cbn [negb andb].
  destruct (Z.leb_spec 24 end_hour) as [?|_]; [lia|].
  replace (Z.max 0 (Z.min 23 start_hour)) with start_hour by lia.
  unfold dt_max, dt_min, ltb, combine, hours_between, hours_of_us,
    time_hour, US_PER_HOUR.
  destruct start as [d s], end_ as [d' e]. cbn [dt_day dt_us] in *. subst d'.
  rewrite !Z.ltb_irrefl, !Z.eqb_refl. cbn [orb andb].
  destruct (Z.ltb_spec s (start_hour * 3600000000));
    destruct (Z.ltb_spec (start_hour `max` end_hour * 3600000000) e);
    cbn [dt_day dt_us]; rewrite Z.ltb_irrefl, Z.eqb_refl; cbn [orb andb];
    match goal with |- context [(?a <? ?b)] => destruct (Z.ltb_spec a b) end;
    unfold Qeq; cbn [Qnum Qden]; unfold US_PER_DAY; lia.
Qed.

(** The same day under an end hour of 24 or more: the code closes the day
    at 23:59:59. *)
Lemma day_hours_until_midnight (start end_ : datetime)
    (start_hour end_hour : Z) (hs : gset str) :
  0 <= start_hour <= 23 ->
  24 <= end_hour ->
  dt_day end_ = dt_day start ->
  weekday (dt_day start) < 5 ->
  bool_decide (date_isoformat (dt_day start) ∈ hs) = false ->
  day_hours start end_ start_hour end_hour hs
  == hours_of_us
       (Z.max 0 (Z.min (dt_us end_) (time_hms 23 59 59)
                 - Z.max (dt_us start) (time_hour start_hour))).
Proof.
  intros Hsh Heh Hday Hwd Hhol.
  unfold day_hours. rewrite Hhol.
  destruct (Z.leb_spec 5 (weekday (dt_day start))) as [?|_]; [lia|].
  cbn [negb andb].
  destruct (Z.leb_spec 24 end_hour) as [_|?]; [|lia].
  replace (Z.max 0 (Z.min 23 start_hour)) with start_hour by lia.
  unfold dt_max, dt_min, ltb, combine, hours_between, hours_of_us,
    time_hour, US_PER_HOUR.
  change (time_hms 23 59 59) with 86399000000.
  destruct start as [d s], end_ as [d' e]. cbn [dt_day dt_us] in *. subst d'.
  rewrite !Z.ltb_irrefl, !Z.eqb_refl. cbn [orb andb].
  destruct (Z.ltb_spec s (start_hour * 3600000000));
    destruct (Z.ltb_spec 86399000000 e);
    cbn [dt_day dt_us]; rewrite Z.ltb_irrefl, Z.eqb_refl; cbn [orb andb];
    match goal with |- context [(?a <? ?b)] => destruct (Z.ltb_spec a b) end;
    unfold Qeq; cbn [Qnum Qden]; unfold US_PER_DAY; lia.
Qed.

(** An interval inside one day turns the loop once. *)
Lemma business_hours_one_day (start end_ : datetime)
    (start_hour end_hour : Z) (holidays : list str) (h : Q) :
  dt_day end_ = dt_day start ->
  (0 <= h)%Q ->
  (ltb start end_ = false -> h == 0) ->
  day_hours start end_ start_hour end_hour (list_to_set holidays) == h ->
  business_hours_between start end_ start_hour end_hour holidays == h.
Proof.
  intros Hday Hpos Hzero Hh. unfold business_hours_between, leb.
  destruct (ltb start end_) eqn:L; cbn [negb].
  - rewrite Hday, Z.sub_diag.
    change (Z.to_nat (0 + 1)) with 1%nat. cbn [hours_loop].
    rewrite Hday, Z.leb_refl.
    assert (Hx : (0 + day_hours start end_ start_hour end_hour
                        (list_to_set holidays) == h)%Q).
    { rewrite Qplus_0_l. exact Hh. }
    destruct (Qle_bool 0 _) eqn:B; [exact Hx|].
    exfalso.
    assert (Hle : (0 <= 0 + day_hours start end_ start_hour end_hour
                                      (list_to_set holidays))%Q).
    { rewrite Hx. exact Hpos. }
    apply Qle_bool_iff in Hle. congruence.
  - symmetry. apply Hzero. reflexivity.
Qed.


(** Inside the business window the formula is the length of the
    interval. *)
Lemma business_hours_between_in_window (start end_ : datetime)
    (start_hour end_hour : Z) (holidays : list str) :
  0 <= start_hour <= 23 ->
  0 <= end_hour <= 23 ->
  dt_day end_ = dt_day start ->
  weekday (dt_day start) < 5 ->
  ~ In (date_isoformat (dt_day start)) holidays ->
  time_hour start_hour <= dt_us start ->
  dt_us end_ <= time_hour end_hour ->
  business_hours_between start end_ start_hour end_hour holidays
  == hours_of_us (Z.max 0 (dt_us end_ - dt_us start)).
Proof.
  intros Hsh Heh Hday Hwd Hhol Hs He.
  apply business_hours_one_day.
  - exact Hday.
  - unfold hours_of_us, Qle. cbn [Qnum Qden]. lia.
  - unfold ltb. rewrite Hday, Z.ltb_irrefl, Z.eqb_refl. cbn [orb andb].
    intros L. apply Z.ltb_ge in L.
    unfold hours_of_us, Qeq. cbn [Qnum Qden]. lia.
  - rewrite day_hours_business_day; try assumption;
      [|lia|apply not_holiday; exact Hhol].
    unfold hours_of_us, Qeq. cbn [Qnum Qden]. lia.
Qed.

End BusinessHours.


(** ** SLA sweep *)

Section Sweep.

Implicit Types (rows sel : list Row.t) (r t : Row.t).

Lemma primary_key_filter (p : Row.t -> bool) rows :
  primary_key rows -> primary_key (List.filter p rows).
Proof.
  unfold primary_key. induction rows as [|a rows IH]; simpl; intros H.
  - exact H.
  - apply NoDup_cons in H as [Ha Hnd]. destruct (p a); simpl.
    + apply NoDup_cons. split; [|apply IH; exact Hnd].
      intros Hin. apply Ha. apply list_elem_of_In in Hin.
      apply list_elem_of_In. apply in_map_iff in Hin as (x & Hx & Hin).
      apply in_map_iff. exists x. split; [exact Hx|].
      apply filter_In in Hin. tauto.
    + apply IH. exact Hnd.
Qed.

Lemma primary_key_map (g : Row.t -> Row.t) rows :
  (forall t, Row.id (g t) = Row.id t) ->
  primary_key rows -> primary_key (List.map g rows).
Proof.
  intros Hid. unfold primary_key. rewrite (map_ids_preserved g rows Hid).
  tauto.
Qed.

Lemma update_status_where_id (new old : str) rows :
  List.map Row.id (update_status_where new old rows) = List.map Row.id rows.
Proof.
  unfold update_status_where. apply map_ids_preserved.
  intros t. destruct (bool_decide _); reflexivity.
Qed.

(** The status migration keeps the primary key. *)
Lemma primary_key_migrate rows :
  primary_key rows -> primary_key (_migrate_statuses rows).
Proof.
  unfold _migrate_statuses, primary_key. rewrite update_status_where_id.
  generalize STATUS_MIGRATION. intros l. revert rows.
  induction l as [|on l IH]; simpl; intros rows H; [exact H|].
  apply IH. rewrite update_status_where_id. exact H.
Qed.

Lemma select_ticket_none_not_in sel k :
  ~ In k (List.map Row.id sel) -> select_ticket k sel = None.
Proof.
  unfold select_ticket. induction sel as [|a sel IH]; simpl; intros H.
  - reflexivity.
  - destruct (Z.eqb_spec (Row.id a) k) as [E|_]; [tauto|].
    apply IH. tauto.
Qed.

(** A loop of UPDATEs by id over the rows of a SELECT: under the primary
    key, the ticket [k] ends as the one UPDATE issued for it left it. *)
Lemma fold_update_select (g : Row.t -> Row.t -> Row.t) sel :
  (forall r t, Row.id (g r t) = Row.id t) ->
  primary_key sel ->
  forall rows k,
    select_ticket k
      (fold_left (fun rs r => update_ticket (Row.id r) (g r) rs) sel rows)
    = (fun t => match select_ticket k sel with
                | Some r => g r t
                | None => t
                end) <$> select_ticket k rows.
Proof.
  intros Hid. induction sel as [|r sel IH]; intros Hpk rows k.
  - simpl. destruct (select_ticket k rows); reflexivity.
  - apply NoDup_cons in Hpk as [Hr Hpk]. cbn [fold_left].
    rewrite (IH Hpk). unfold update_ticket at 1.
    rewrite select_ticket_map
      by (intros t; destruct (Row.id t =? Row.id r); [apply Hid | reflexivity]).
    destruct (select_ticket k rows) as [t|] eqn:S; [|reflexivity].
    apply select_ticket_some in S as [_ Hk]. cbn [fmap option_fmap option_map].
    f_equal. unfold select_ticket at 2. cbn [List.find].
    destruct (Z.eqb_spec (Row.id r) k) as [E | E].
    + rewrite Hk, <- E, Z.eqb_refl.
      rewrite select_ticket_none_not_in; [reflexivity|].
      rewrite E. intros Hin. apply Hr. rewrite E.
      apply list_elem_of_In. exact Hin.
    + destruct (Z.eqb_spec (Row.id t) (Row.id r)) as [E' | _];
        [congruence | reflexivity].
Qed.



Lemma recalc_row_update (cfg : AppConfig) (now : datetime) r rows :
  recalc_row cfg now r rows
  = update_ticket (Row.id r) (sweep_update cfg now r) rows.
Proof.
  unfold recalc_row, sweep_update.
  destruct (bool_decide (current_status r = STATUS_WAITING_CUSTOMER));
    reflexivity.
Qed.

Lemma sweep_update_id (cfg : AppConfig) (now : datetime) r t :
  Row.id (sweep_update cfg now r t) = Row.id t.
Proof.
  unfold sweep_update.
  destruct (bool_decide (current_status r = STATUS_WAITING_CUSTOMER));
    reflexivity.
Qed.

Lemma fold_left_pointwise {A B} (f g : A -> B -> A) (l : list B) (a : A) :
  (forall x y, f x y = g x y) -> fold_left f l a = fold_left g l a.
Proof.
  intros H. revert a. induction l as [|b l IH]; intros a; simpl.
  - reflexivity.
  - rewrite H. apply IH.
Qed.

(** After the sweep, a swept ticket is as its own UPDATE left it. *)
Lemma sweep_select (cfg : AppConfig) (now : datetime) rows r :
  primary_key rows -> In r rows -> swept r = true ->
  select_ticket (Row.id r)
    (fold_left (fun rs x => recalc_row cfg now x rs)
               (List.filter swept rows) rows)
  = Some (sweep_update cfg now r r).
Proof.
  intros Hpk Hin Hsw.
  rewrite (fold_left_pointwise
             (fun rs x => recalc_row cfg now x rs)
             (fun rs x => update_ticket (Row.id x) (sweep_update cfg now x) rs))
    by (intros; apply recalc_row_update).
  rewrite (fold_update_select (sweep_update cfg now) (List.filter swept rows)
             (sweep_update_id cfg now) (primary_key_filter swept rows Hpk)).
  rewrite (select_ticket_in rows r Hpk Hin).
  rewrite (select_ticket_in (List.filter swept rows) r
             (primary_key_filter swept rows Hpk)).
  - reflexivity.
  - apply filter_In. split; assumption.
Qed.


End Sweep.


(** ** Further facts about the model *)

Section LoopBound.

(** Once [current] is past the day of [end_], the loop is over. *)
Lemma hours_loop_done (days : nat) (current end_ : datetime)
    (start_hour end_hour : Z) (hs : gset str) (total : Q) :
  dt_day end_ < dt_day current ->
  hours_loop days current end_ start_hour end_hour hs total = total.
Proof.
  intros H. destruct days as [|days]; simpl; [reflexivity|].
  destruct (Z.leb_spec (dt_day current) (dt_day end_)); [lia | reflexivity].
Qed.

(** The bound [business_hours_between] gives the loop is the number of
    turns the [while] takes: a larger bound changes nothing. *)
Lemma hours_loop_bound (days extra : nat) (current end_ : datetime)
    (start_hour end_hour : Z) (hs : gset str) (total : Q) :
  (Z.to_nat (dt_day end_ - dt_day current + 1) <= days)%nat ->
  hours_loop (days + extra) current end_ start_hour end_hour hs total
  = hours_loop days current end_ start_hour end_hour hs total.
Proof.
  revert current total.
  induction days as [|days IH]; intros current total Hn.
  - assert (dt_day end_ < dt_day current) by lia.
    rewrite !hours_loop_done by assumption. reflexivity.
  - cbn [Nat.add hours_loop].
    destruct (Z.leb_spec (dt_day current) (dt_day end_)); [|reflexivity].
    apply IH. cbn [next_midnight dt_day]. lia.
Qed.

End LoopBound.

Section IdenticalPayload.

(** Under [UNIQUE(stable_id)], the stable id of a stored ticket is held
    by no other ticket: a payload that repeats it does not make the upsert
    raise. *)
Lemma stable_id_own_not_taken (rows : list Row.t) (r : Row.t) :
  unique_stable_id rows -> In r rows ->
  stable_id_taken (Some (Row.id r)) (Row.stable_id r) rows = false.
Proof.
  intros Hu Hin. unfold stable_id_taken.
  destruct (Row.stable_id r) as [s|] eqn:Hs; [|reflexivity].
  destruct (existsb _ rows) eqn:E; [|reflexivity].
  apply existsb_exists in E as (x & Hx & Hp).
  apply andb_prop in Hp as [Hid Hsx].
  apply bool_decide_eq_true_1 in Hsx.
  rewrite (Hu x r s Hx Hin Hsx Hs) in Hid.
  rewrite bool_decide_eq_true_2 in Hid by reflexivity. discriminate.
Qed.

End IdenticalPayload.

(** ** The assertions of the test suite, on the model *)

Section TestSuite.

Import fixtures.

(** [tests/test_business_hours.py] *)
Example test_business_hours_simple_daytime :
  business_hours_between (dt 1 10) (dt 1 18) 9 18 [] == 8.
Proof. vm_compute. reflexivity. Qed.

Example test_business_hours_weekend_skip :
  business_hours_between (dt 6 10) (dt 7 18) 10 19 [] == 0.
Proof. vm_compute. reflexivity. Qed.

Example test_business_hours_holiday :
  business_hours_between (dt 2 9) (dt 2 18) 10 19 [u "2024-01-02"] == 0.
Proof. vm_compute. reflexivity. Qed.

Example test_business_hours_cross_midnight :
  business_hours_between (dt 1 18) (dt 2 11) 9 18 [] == 2.
Proof. vm_compute. reflexivity. Qed.

(** [tests/test_sla.py] *)
Example test_business_hours_between_basic :
  business_hours_between (dt 2 10) (dt 2 18) 10 19 [] == 8.
Proof. vm_compute. reflexivity. Qed.

Example test_map_status_text_understands_waiting :
  status_text_to_code (u "waiting") = Some STATUS_WAITING_CUSTOMER
  /\ status_text_to_code (u "нужно время") = Some STATUS_WAITING_CUSTOMER.
Proof. split; vm_compute; reflexivity. Qed.

(** [tests/test_status_mapping.py] and
    [tests/test_status_text_extended.py] *)
Example test_status_mapping_ru :
  Forall (fun cl => status_text_to_code cl.2 = Some cl.1
                    /\ status_code_to_label cl.1 = cl.2) STATUS_MODEL.
Proof.
  unfold STATUS_MODEL.
  repeat (apply List.Forall_cons; [split; vm_compute; reflexivity|]).
  apply List.Forall_nil.
Qed.

Example test_status_text_variants_ru_en :
  List.map status_text_to_code
    [u "OK"; u "ОК"; u "Закрыть"; u "closed"; u "Нужно время";
     u "waiting customer"; u "ожидаем клиента"; u "просрочка";
     u "неинтересно/спам"]
  = List.map Some
      [STATUS_RESPONDED; STATUS_RESPONDED; STATUS_RESOLVED; STATUS_RESOLVED;
       STATUS_WAITING_CUSTOMER; STATUS_WAITING_CUSTOMER;
       STATUS_WAITING_CUSTOMER; STATUS_OVERDUE; STATUS_NOT_INTERESTING].
Proof. vm_compute. reflexivity. Qed.

(** [tests/test_sender_filter.py] *)
Example test_sender_filter_domain :
  let cfg := mkCfg (u "") (u "domain") (Some (u "example.com")) 2 10 19 [] ∅ in
  utils.passes_sender_filter (Some (u "user@example.com")) cfg = true
  /\ utils.passes_sender_filter (Some (u "user@mail.example.com")) cfg = true
  /\ utils.passes_sender_filter (Some (u "user@other.com")) cfg = false
  /\ utils.passes_sender_filter (Some (u "user@otherexample.com")) cfg = false.
Proof. repeat split; vm_compute; reflexivity. Qed.

(** [tests/test_db_constraints.py] *)
Example test_unique_stable_id :
  Row.row_version <$> select_ticket 1 (tickets (store_of [rec_c1]))
  = Some 1
  /\ Row.row_version <$> select_ticket 1 (tickets (store_of [rec_c1; rec_c1]))
     = Some 2
  /\ length (tickets (store_of [rec_c1; rec_c1])) = 1%nat.
Proof. repeat split; vm_compute; reflexivity. Qed.

Example test_event_idempotency :
  let conn1 :=
    log_event store_c1 t0 1 (u "mail_response") None (Some (u "resolved"))
              (u "mail") None (Some (u "x1")) in
  let conn2 :=
    log_event conn1 t0 1 (u "mail_response") None (Some (u "resolved"))
              (u "mail") None (Some (u "x1")) in
  entry_count (u "x1") (events conn2) = 1%nat.
Proof. vm_compute. reflexivity. Qed.

(** [tests/test_sla.py], [test_priority_sla_overdue_by_hours]: a new
    ticket of priority p1, three days and two hours old. *)
Example test_priority_sla_overdue_by_hours :
  let conn :=
    store_of [rec_with (Some (u "c2")) (u "t2") (u "new")
                       (Some (u "stable-t2"))] in
  (fun r => (Row.status r, Row.overdue r))
    <$> select_ticket 1
          (tickets (recalc_open cfg_sla no_advice
                                (datetime_of 2024 1 5 12 0 0) conn).1)
  = Some (STATUS_OVERDUE, 1).
Proof. vm_compute. reflexivity. Qed.

(** [tests/test_excel_features.py],
    [test_sync_from_excel_conflict_row_version] *)
Example test_sync_from_excel_conflict_row_version :
  (fun s => (excel.sum_updated s, excel.sum_conflicts s, excel.sum_missing s))
    <$> (excel.sync_from_excel excel.iso_seconds t0
           (Some [sheet_row_stale_late]) store_c1).2
  = Some (0, 1, 0).
Proof. vm_compute. reflexivity. Qed.

(** [tests/test_status_mapping.py], [test_sync_accepts_ru_labels] *)
Example test_sync_accepts_ru_labels :
  (fun r => (Row.status r, Row.row_version r))
    <$> select_ticket 1
          (tickets (excel.sync_from_excel excel.iso_seconds t0
                      (Some [sheet_row_current]) store_c1).1)
  = Some (STATUS_RESOLVED, 2).
Proof. vm_compute. reflexivity. Qed.

End TestSuite.

(** ** The constraints of the schema hold in every store the core builds *)

Section Invariants.

Implicit Types (rows : list Row.t) (g : Row.t -> Row.t).

Lemma tickets_ok_map g rows :
  keeps_keys g -> tickets_ok rows -> tickets_ok (List.map g rows).
Proof.
  intros Hg (Hpk & Hut & Hus). split; [|split].
  - apply primary_key_map; [|exact Hpk]. intros t. apply Hg.
  - intros r1 r2 c H1 H2 Hc1 Hc2 Hk.
    apply in_map_iff in H1 as (x1 & <- & H1).
    apply in_map_iff in H2 as (x2 & <- & H2).
    destruct (Hg x1) as (_ & Ec1 & Ek1 & _).
    destruct (Hg x2) as (_ & Ec2 & Ek2 & _).
    rewrite Ec1 in Hc1. rewrite Ec2 in Hc2. rewrite Ek1, Ek2 in Hk.
    rewrite (Hut x1 x2 c H1 H2 Hc1 Hc2 Hk). reflexivity.
  - intros r1 r2 s H1 H2 Hs1 Hs2.
    apply in_map_iff in H1 as (x1 & <- & H1).
    apply in_map_iff in H2 as (x2 & <- & H2).
    destruct (Hg x1) as (_ & _ & _ & Es1).
    destruct (Hg x2) as (_ & _ & _ & Es2).
    rewrite Es1 in Hs1. rewrite Es2 in Hs2.
    rewrite (Hus x1 x2 s H1 H2 Hs1 Hs2). reflexivity.
Qed.

Lemma keeps_keys_when (p : Row.t -> bool) g :
  keeps_keys g -> keeps_keys (fun r => if p r then g r else r).
Proof.
  intros Hg t. destruct (p t); [apply Hg | repeat split].
Qed.

Lemma tickets_ok_update (ticket_id : Z) g rows :
  keeps_keys g -> tickets_ok rows ->
  tickets_ok (update_ticket ticket_id g rows).
Proof.
  intros Hg. unfold update_ticket. apply tickets_ok_map.
  apply (keeps_keys_when (fun r => Row.id r =? ticket_id) g Hg).
Qed.

Lemma tickets_ok_fold {B} (step : list Row.t -> B -> list Row.t)
    (l : list B) rows :
  (forall rs b, tickets_ok rs -> tickets_ok (step rs b)) ->
  tickets_ok rows -> tickets_ok (fold_left step l rows).
Proof.
  intros Hstep. revert rows.
  induction l as [|b l IH]; simpl; intros rows H; [exact H|].
  apply IH. apply Hstep. exact H.
Qed.

Lemma tickets_ok_migrate rows :
  tickets_ok rows -> tickets_ok (_migrate_statuses rows).
Proof.
  assert (Hone : forall new old rs,
             tickets_ok rs -> tickets_ok (update_status_where new old rs)).
  { intros new old rs. unfold update_status_where.
    apply tickets_ok_map.
    intros t. destruct (bool_decide _); repeat split. }
  intros H. unfold _migrate_statuses. apply Hone.
  apply tickets_ok_fold; [|exact H].
  intros rs on. apply Hone.
Qed.

Lemma tickets_ok_recalc (cfg : AppConfig)
    (advise : list Row.t -> Row.t -> option recommend.Advice)
    (now : datetime) (c : Conn) :
  tickets_ok (tickets c) ->
  tickets_ok (tickets (recalc_open cfg advise now c).1).
Proof.
  intros H. unfold recalc_open, recommend.update_recommendations.
  cbn [fst tickets].
  apply tickets_ok_fold.
  { intros rs r Hrs. destruct (advise _ r) as [a|]; [|exact Hrs].
    apply tickets_ok_update; [|exact Hrs]. intros t. repeat split. }
  apply tickets_ok_fold.
  { intros rs r Hrs. rewrite recalc_row_update.
    apply tickets_ok_update; [|exact Hrs].
    intros t. unfold sweep_update.
    destruct (bool_decide _); repeat split. }
  apply tickets_ok_migrate. exact H.
Qed.

(** [log_event] keeps [UNIQUE(item_entry_id)], with or without an id. *)
Lemma log_event_unique (c : Conn) (now : datetime) (ticket_id : Z)
    (event_type : str) (status_before status_after : option str)
    (source : str) (raw_response item_entry_id : option str) :
  unique_item_entry_id (events c) ->
  unique_item_entry_id
    (events (log_event c now ticket_id event_type status_before status_after
                       source raw_response item_entry_id)).
Proof.
  intros Hu. destruct item_entry_id as [e|].
  - apply (log_call_unique e c
             (mkLogCall now ticket_id event_type status_before status_after
                        source raw_response) Hu).
  - intros y. unfold log_event. cbn [events].
    rewrite entry_count_app. cbn [Event.item_entry_id].
    rewrite bool_decide_eq_false_2 by discriminate.
    specialize (Hu y). lia.
Qed.

Lemma store_ok_log_event (c : Conn) (now : datetime) (ticket_id : Z)
    (event_type : str) (status_before status_after : option str)
    (source : str) (raw_response item_entry_id : option str) :
  store_ok c ->
  store_ok (log_event c now ticket_id event_type status_before status_after
                      source raw_response item_entry_id).
Proof.
  intros [Ht He]. split.
  - rewrite log_event_tickets. exact Ht.
  - apply log_event_unique. exact He.
Qed.

Lemma store_ok_sync_row (fromisoformat : str -> option datetime)
    (now : datetime) (row : excel.SheetRow) (st st' : excel.SyncState) :
  store_ok (excel.conn st) ->
  excel.sync_row fromisoformat now row st = Some st' ->
  store_ok (excel.conn st').
Proof.
  intros Hok. unfold excel.sync_row.
  destruct (excel.sr_ticket_id row) as [ticket_id|];
    [|intros [= <-]; exact Hok].
  destruct (excel.sr_row_version row) as [excel_rv|]; [|discriminate].
  destruct (select_ticket ticket_id _) as [current|];
    [|intros [= <-]; exact Hok].
  destruct (excel.db_newer _ _);
    [intros [= <-]; apply store_ok_log_event; exact Hok|].
  destruct (negb _);
    intros [= <-]; apply store_ok_log_event; [exact Hok|].
  destruct Hok as [Ht He]. split; [|exact He]. cbn [tickets].
  apply tickets_ok_map; [|exact Ht].
  apply (keeps_keys_when
           (fun r => (Row.id r =? ticket_id) && (Row.row_version r =? excel_rv))).
  intros t. repeat split.
Qed.

Lemma store_ok_sync_rows (fromisoformat : str -> option datetime)
    (now : datetime) (rows : list excel.SheetRow) (st : excel.SyncState) :
  store_ok (excel.conn st) ->
  store_ok (excel.conn (excel.sync_rows fromisoformat now rows st).1).
Proof.
  revert st. induction rows as [|row rows IH]; intros st Hok; simpl.
  - exact Hok.
  - destruct (excel.sync_row fromisoformat now row st) as [st'|] eqn:E.
    + apply IH. apply (store_ok_sync_row _ _ _ _ _ Hok E).
    + exact Hok.
Qed.

Lemma next_rowid_fresh (seq : Z) (ids : list Z) :
  ~ In (next_rowid seq ids) ids.
Proof.
  unfold next_rowid.
  assert (H : forall x, In x ids -> x <= fold_right Z.max seq ids).
  { induction ids as [|a ids IH]; simpl; [contradiction|].
    intros x [<- | Hx]; [lia|]. specialize (IH x Hx). lia. }
  intros Hin. specialize (H _ Hin). lia.
Qed.

Lemma conflict_row_some (conv_id : option str) (thread_key : str) rows
    (old : Row.t) :
  conflict_row conv_id thread_key rows = Some old ->
  In old rows /\ Row.conv_id old = conv_id /\ Row.thread_key old = thread_key.
Proof.
  unfold conflict_row. destruct conv_id as [c|]; [|discriminate].
  intros H. apply find_some in H as [Hin Hp].
  apply andb_prop in Hp as [H1 H2].
  apply bool_decide_eq_true_1 in H1. apply bool_decide_eq_true_1 in H2.
  auto.
Qed.

(** The upsert keeps the three constraints of [tickets]. *)
Lemma tickets_ok_upsert (c c' : Conn) (ticket : TicketRecord.t)
    (ticket_id : Z) :
  tickets_ok (tickets c) ->
  upsert_ticket c ticket = Some (c', ticket_id) ->
  tickets_ok (tickets c').
Proof.
  intros (Hpk & Hut & Hus). unfold upsert_ticket. cbn zeta.
  destruct (conflict_row _ _ (tickets c)) as [old|] eqn:Hcr.
  - (* DO UPDATE *)
    apply conflict_row_some in Hcr as (Hold & Hconv & Hkey).
    destruct (stable_id_taken _ _ _) eqn:Hfree; [discriminate|].
    intros [= <- _]. cbn [tickets]. unfold update_ticket.
    assert (Hsame : forall t, In t (tickets c) ->
                      Row.id t = Row.id old -> t = old).
    { intros t Ht E. pose proof (select_ticket_in _ t Hpk Ht) as S1.
      rewrite E, (select_ticket_in _ old Hpk Hold) in S1. congruence. }
    split; [|split].
    + apply primary_key_map; [|exact Hpk].
      intros t. destruct (Row.id t =? Row.id old); reflexivity.
    + intros r1 r2 k H1 H2 Hc1 Hc2 Hk.
      apply in_map_iff in H1 as (x1 & <- & H1).
      apply in_map_iff in H2 as (x2 & <- & H2).
      assert (Hx : forall x, In x (tickets c) ->
                Row.conv_id (if Row.id x =? Row.id old
                             then updated_row x ticket else x)
                = Row.conv_id x
                /\ Row.thread_key (if Row.id x =? Row.id old
                                   then updated_row x ticket else x)
                   = Row.thread_key x).
      { intros x Hin. destruct (Z.eqb_spec (Row.id x) (Row.id old)) as [E|_];
          [|split; reflexivity].
        rewrite (Hsame x Hin E). cbn. rewrite Hconv, Hkey. split; reflexivity. }
      destruct (Hx x1 H1) as [E1 K1]. destruct (Hx x2 H2) as [E2 K2].
      rewrite E1 in Hc1. rewrite E2 in Hc2. rewrite K1, K2 in Hk.
      rewrite (Hut x1 x2 k H1 H2 Hc1 Hc2 Hk). reflexivity.
    + intros r1 r2 s H1 H2 Hs1 Hs2.
      apply in_map_iff in H1 as (x1 & <- & H1).
      apply in_map_iff in H2 as (x2 & <- & H2).
      assert (Hclash : forall x, In x (tickets c) ->
                Row.id x <> Row.id old -> Row.stable_id x = Some s ->
                TicketRecord.stable_id ticket = Some s -> False).
      { intros x Hin Hne Hsx Hst. rewrite Hst in Hfree. cbn in Hfree.
        apply not_true_iff_false in Hfree. apply Hfree.
        apply existsb_exists. exists x. split; [exact Hin|].
        rewrite bool_decide_eq_false_2 by congruence.
        rewrite (bool_decide_eq_true_2 _ Hsx). reflexivity. }
      destruct (Z.eqb_spec (Row.id x1) (Row.id old)) as [E1|N1];
        destruct (Z.eqb_spec (Row.id x2) (Row.id old)) as [E2|N2].
      * rewrite (Hsame x1 H1 E1), (Hsame x2 H2 E2). reflexivity.
      * exfalso. apply (Hclash x2 H2 N2 Hs2). exact Hs1.
      * exfalso. apply (Hclash x1 H1 N1 Hs1). exact Hs2.
      * apply (Hus x1 x2 s H1 H2 Hs1 Hs2).
  - (* INSERT *)
    destruct (stable_id_taken _ _ _) eqn:Hfree; [discriminate|].
    intros [= <- _]. cbn [tickets].
    set (new := inserted_row _ ticket).
    assert (Hnew : forall x, In x (tickets c) -> x <> new).
    { intros x Hin ->.
      apply (next_rowid_fresh (tickets_seq c) (List.map Row.id (tickets c))).
      apply in_map_iff. exists new. split; [reflexivity | exact Hin]. }
    split; [|split].
    + unfold primary_key. rewrite List.map_app. cbn [List.map].
      apply NoDup_app. split; [exact Hpk|]. split.
      * intros x Hx Hx'. apply list_elem_of_singleton in Hx'. subst x.
        apply list_elem_of_In in Hx.
        apply (next_rowid_fresh (tickets_seq c) (List.map Row.id (tickets c))).
        exact Hx.
      * apply NoDup_singleton.
    + intros r1 r2 k H1 H2 Hc1 Hc2 Hk.
      apply in_app_iff in H1 as [H1 | [<- | []]];
        apply in_app_iff in H2 as [H2 | [<- | []]].
      * apply (Hut r1 r2 k H1 H2 Hc1 Hc2 Hk).
      * exfalso. cbn in Hc2, Hk. rewrite Hc2 in Hcr. cbn in Hcr.
        pose proof (find_none _ _ Hcr r1 H1) as Hp. cbn in Hp.
        rewrite (bool_decide_eq_true_2 _ Hc1) in Hp.
        rewrite (bool_decide_eq_true_2 _ Hk) in Hp. discriminate.
      * exfalso. cbn in Hc1, Hk. rewrite Hc1 in Hcr. cbn in Hcr.
        pose proof (find_none _ _ Hcr r2 H2) as Hp. cbn in Hp.
        rewrite (bool_decide_eq_true_2 _ Hc2) in Hp.
        rewrite (bool_decide_eq_true_2 _ (eq_sym Hk)) in Hp. discriminate.
      * reflexivity.
    + assert (Hclash : forall x s, In x (tickets c) ->
                Row.stable_id x = Some s ->
                TicketRecord.stable_id ticket = Some s -> False).
      { intros x s Hin Hsx Hst. rewrite Hst in Hfree. cbn in Hfree.
        apply not_true_iff_false in Hfree. apply Hfree.
        apply existsb_exists. exists x. split; [exact Hin|].
        rewrite bool_decide_eq_false_2 by discriminate.
        rewrite (bool_decide_eq_true_2 _ Hsx). reflexivity. }
      intros r1 r2 s H1 H2 Hs1 Hs2.
      apply in_app_iff in H1 as [H1 | [<- | []]];
        apply in_app_iff in H2 as [H2 | [<- | []]].
      * apply (Hus r1 r2 s H1 H2 Hs1 Hs2).
      * exfalso. apply (Hclash r1 s H1 Hs1). exact Hs2.
      * exfalso. apply (Hclash r2 s H2 Hs2). exact Hs1.
      * reflexivity.
Qed.

(** X12. Every store the core builds from an empty one, by upserts, event
    logging, reminders, sweeps and spreadsheet imports in any order,
    satisfies the constraints of its schema: ticket ids are distinct, no
    two tickets share a non-null (conv_id, thread_key) pair or a non-null
    stable id, and no two events share a non-null external message id.
    The hypotheses of the theorems on the store are thus met wherever the
    operations are used. *)
Theorem reachable_store_ok (c : Conn) : reachable c -> store_ok c.
Proof.
  induction 1 as [ | c c' ticket ticket_id _ IH Hup
                   | c now ticket_id event_type sb sa source raw e _ IH
                   | c now ticket_id _ IH
                   | c cfg advise now _ IH
                   | c fromisoformat now sheet _ IH ].
  - split; [split; [|split]|].
    + apply NoDup_nil_2.
    + intros r1 r2 k [].
    + intros r1 r2 s [].
    + intros e. unfold entry_count. simpl. lia.
  - destruct IH as [Ht He]. split.
    + apply (tickets_ok_upsert c c' ticket ticket_id Ht Hup).
    + unfold upsert_ticket in Hup. cbn zeta in Hup.
      destruct (conflict_row _ _ (tickets c));
        destruct (stable_id_taken _ _ _); try discriminate;
        injection Hup as <- _; exact He.
  - apply store_ok_log_event. exact IH.
  - destruct IH as [Ht He]. split; [|exact He].
    unfold mark_reminder_sent. cbn [tickets].
    apply tickets_ok_update; [|exact Ht]. intros t. repeat split.
  - destruct IH as [Ht He]. split.
    + apply tickets_ok_recalc. exact Ht.
    + exact He.
  - unfold excel.sync_from_excel.
    assert (Hm : store_ok (ensure_schema c)).
    { destruct IH as [Ht He]. split; [|exact He].
      apply tickets_ok_migrate. exact Ht. }
    destruct sheet as [rows|]; [|exact Hm].
    pose proof (store_ok_sync_rows fromisoformat now rows
                  (excel.mkSync (ensure_schema c) 0 0 0 []) Hm) as H.
    destruct (excel.sync_rows _ _ _ _) as [st finished]. exact H.
Qed.

End Invariants.

Lemma reachable_store_ok_witness :
  let c := sla.mark_reminder_sent fixtures.a_week_later 1
             (log_event fixtures.store_c1_c2 fixtures.t0 1 (u "mail_response")
                        None (Some (u "resolved")) (u "mail") None
                        (Some (u "x1"))) in
  reachable c /\ store_ok c.
Proof.
  intros c.
  assert (Hreach : reachable c).
  { apply reach_reminder. apply reach_log_event.
    apply (reach_upsert (fixtures.store_of [fixtures.rec_c1])
                        fixtures.store_c1_c2 fixtures.rec_c2 2).
    - apply (reach_upsert empty_conn (fixtures.store_of [fixtures.rec_c1])
                          fixtures.rec_c1 1).
      + apply reach_empty.
      + vm_compute. reflexivity.
    - vm_compute. reflexivity. }
  split; [exact Hreach|].
  apply (reachable_store_ok c Hreach).
Defined.

(** * Further properties of the code *)

(** ** Status vocabulary *)

Section StatusVocabulary.

Lemma raise_status_rank (current candidate : str) :
  rank (raise_status current candidate)
  = Z.max (rank current) (rank candidate).
Proof.
  unfold raise_status. fold (rank current). fold (rank candidate).
  destruct (Z.ltb_spec (rank current) (rank candidate)); lia.
Qed.

Lemma raise_status_fold_rank (candidates : list str) (current : str) :
  rank (fold_left raise_status candidates current)
  = max_rank current candidates.
Proof.
  unfold max_rank. revert current.
  induction candidates as [|c l IH]; intros current; simpl; [reflexivity|].
  rewrite IH, raise_status_rank. reflexivity.
Qed.

Lemma max_rank_bounds (candidates : list str) (m : Z) :
  m <= fold_left (fun m c => Z.max m (rank c)) candidates m
  /\ forall c, In c candidates ->
       rank c <= fold_left (fun m c => Z.max m (rank c)) candidates m.
Proof.
  revert m. induction candidates as [|c l IH]; intros m; simpl.
  - split; [lia | contradiction].
  - destruct (IH (Z.max m (rank c))) as [H1 H2]. split; [lia|].
    intros x [<- | Hx]; [lia | apply H2; exact Hx].
Qed.

Lemma raise_status_fold_in (candidates : list str) (current : str) :
  In (fold_left raise_status candidates current) (current :: candidates).
Proof.
  revert current.
  induction candidates as [|c l IH]; intros current; cbn [fold_left].
  - left. reflexivity.
  - destruct (IH (raise_status current c)) as [E | Hin].
    + rewrite <- E. unfold raise_status.
      destruct (_ <? _); [right; left | left]; reflexivity.
    + right. right. exact Hin.
Qed.

(** X1. Escalation never regresses: after [raise_status] has been applied
    to any sequence of candidate statuses, the rank of the status held is
    at least the rank it started from and at least the rank of every
    candidate seen, and the status held is the starting one or one of the
    candidates. *)
Theorem raise_status_monotone :
  forall (current : str) (candidates : list str),
    let final := fold_left raise_status candidates current in
    rank current <= rank final
    /\ (forall c, In c candidates -> rank c <= rank final)
    /\ In final (current :: candidates).
Proof.
  intros current candidates final. unfold final.
  rewrite raise_status_fold_rank. unfold max_rank.
  destruct (max_rank_bounds candidates (rank current)) as [H1 H2].
  split; [exact H1|]. split; [exact H2|].
  apply raise_status_fold_in.
Qed.

End StatusVocabulary.

(** ** Strings: [strip] and [lower] *)

Section StripLower.

Lemma lstrip_fixed (s : str) :
  match s with [] => True | c :: _ => isspace c = false end ->
  lstrip s = s.
Proof.
  destruct s as [|c r]; simpl; [reflexivity|]. intros ->. reflexivity.
Qed.

Lemma lstrip_idem (s : str) : lstrip (lstrip s) = lstrip s.
Proof. apply lstrip_fixed. apply lstrip_head. Qed.

Lemma lstrip_snoc (l : str) (c : N) :
  isspace c = false -> lstrip (l ++ [c]) = lstrip l ++ [c].
Proof.
  intros Hc. induction l as [|a l IH]; simpl.
  - rewrite Hc. reflexivity.
  - destruct (isspace a); [exact IH | reflexivity].
Qed.

Lemma rstrip_cons (c : N) (r : str) :
  isspace c = false -> rstrip (c :: r) = c :: rstrip r.
Proof.
  intros Hc. unfold rstrip. simpl.
  rewrite (lstrip_snoc _ c Hc), rev_app_distr. reflexivity.
Qed.

Lemma rstrip_idem (s : str) : rstrip (rstrip s) = rstrip s.
Proof.
  unfold rstrip. rewrite rev_involutive, lstrip_idem. reflexivity.
Qed.

(** [strip()] is idempotent. *)
Lemma strip_idem (s : str) : strip (strip s) = strip s.
Proof.
  unfold strip.
  assert (H : lstrip (rstrip (lstrip s)) = rstrip (lstrip s)).
  { pose proof (lstrip_head s) as Hh.
    destruct (lstrip s) as [|c r]; [reflexivity|].
    rewrite (rstrip_cons c r Hh). simpl. rewrite Hh. reflexivity. }
  rewrite H. apply rstrip_idem.
Qed.

Lemma lower_cp_range (c : N) :
  (lower_cp c = c
   /\ ~ (65 <= c <= 90) /\ ~ (192 <= c <= 222 /\ c <> 215)
   /\ ~ (1024 <= c <= 1071))%N
  \/ (97 <= lower_cp c <= 122)%N
  \/ (224 <= lower_cp c <= 254)%N
  \/ (1072 <= lower_cp c <= 1119)%N.
Proof.
  unfold lower_cp.
  destruct (N.leb_spec 65 c); destruct (N.leb_spec c 90); cbn [andb];
    try (right; left; lia);
  destruct (N.leb_spec 192 c); destruct (N.leb_spec c 222);
    destruct (N.eqb_spec c 215); cbn [andb negb];
    try (right; right; left; lia);
  destruct (N.leb_spec 1024 c); destruct (N.leb_spec c 1039); cbn [andb];
    try (right; right; right; lia);
  destruct (N.leb_spec 1040 c); destruct (N.leb_spec c 1071); cbn [andb];
    try (right; right; right; lia);
  left; repeat split; lia.
Qed.

Lemma lower_cp_fixed (c : N) :
  (~ (65 <= c <= 90) /\ ~ (192 <= c <= 222 /\ c <> 215)
   /\ ~ (1024 <= c <= 1071))%N ->
  lower_cp c = c.
Proof.
  intros (H1 & H2 & H3). unfold lower_cp.
  assert (E1 : ((65 <=? c) && (c <=? 90))%N = false).
  { rewrite andb_false_iff, !N.leb_gt. lia. }
  assert (E2 : ((192 <=? c) && (c <=? 222) && negb (c =? 215))%N = false).
  { rewrite !andb_false_iff, !N.leb_gt, negb_false_iff, N.eqb_eq. lia. }
  assert (E3 : ((1024 <=? c) && (c <=? 1039))%N = false).
  { rewrite andb_false_iff, !N.leb_gt. lia. }
  assert (E4 : ((1040 <=? c) && (c <=? 1071))%N = false).
  { rewrite andb_false_iff, !N.leb_gt. lia. }
  rewrite E1, E2, E3, E4. reflexivity.
Qed.

Lemma lower_cp_idem (c : N) : lower_cp (lower_cp c) = lower_cp c.
Proof.
  destruct (lower_cp_range c) as [(E & H) | H].
  - rewrite E. exact E.
  - apply lower_cp_fixed. lia.
Qed.

Lemma isspace_false_range (c : N) :
  (33 <= c <= 132 \/ 161 <= c <= 5759)%N -> isspace c = false.
Proof.
  intros H. unfold isspace.
  rewrite !orb_false_iff, !andb_false_iff, !N.leb_gt, !N.eqb_neq. lia.
Qed.

Lemma isspace_lower_cp (c : N) : isspace (lower_cp c) = isspace c.
Proof.
  destruct (isspace c) eqn:S.
  - rewrite (lower_cp_space c S). exact S.
  - destruct (lower_cp_range c) as [(E & _) | H].
    + rewrite E. exact S.
    + apply isspace_false_range. lia.
Qed.

Lemma lower_idem (s : str) : lower (lower s) = lower s.
Proof.
  unfold lower. rewrite List.map_map. apply List.map_ext. apply lower_cp_idem.
Qed.

Lemma lstrip_lower (s : str) : lstrip (lower s) = lower (lstrip s).
Proof.
  unfold lower. induction s as [|c r IH]; simpl; [reflexivity|].
  rewrite isspace_lower_cp. destruct (isspace c); [exact IH | reflexivity].
Qed.

(** [lower()] and [strip()] commute. *)
Lemma strip_lower (s : str) : strip (lower s) = lower (strip s).
Proof.
  unfold strip, rstrip. rewrite lstrip_lower.
  unfold lower at 1. rewrite <- List.map_rev. fold (lower (rev (lstrip s))).
  rewrite lstrip_lower. unfold lower. rewrite List.map_rev. reflexivity.
Qed.

(** The text the status functions look up is a fixed point of their
    normalisation. *)
Lemma lower_strip_idem (s : str) :
  lower (strip (lower (strip s))) = lower (strip s).
Proof. rewrite strip_lower, strip_idem, lower_idem. reflexivity. Qed.

End StripLower.

(** ** Status translation *)

Section StatusTranslation.

Lemma text_map_values :
  map_Forall (fun _ v => v ∈ closed_codes) STATUS_TEXT_MAP.
Proof. refine (bool_decide_unpack _ _). vm_compute. exact I. Qed.

Lemma labels_keys :
  map_Forall (fun k _ => k ∈ closed_codes) STATUS_LABELS_RU.
Proof. refine (bool_decide_unpack _ _). vm_compute. exact I. Qed.

Lemma aliases_values :
  map_Forall (fun _ v => v ∈ closed_codes) STATUS_ALIASES.
Proof. refine (bool_decide_unpack _ _). vm_compute. exact I. Qed.

Lemma text_map_lookup (k v : str) :
  STATUS_TEXT_MAP !! k = Some v -> In v closed_codes.
Proof.
  intros H. apply list_elem_of_In. exact (text_map_values k v H).
Qed.

(** X2. Whatever the text, [status_text_to_code] answers [None] or a code
    of the closed status set: never an alias, never the text itself. *)
Theorem status_text_to_code_closed :
  forall (text code : str),
    status_text_to_code text = Some code ->
    In code (List.map fst STATUS_MODEL).
Proof.
  intros text code. unfold status_text_to_code.
  destruct (negb (truthy text)); [discriminate|].
  destruct (STATUS_TEXT_MAP !! lower (strip text)) as [v|] eqn:E1.
  - cbn [truthy_opt]. destruct (truthy v).
    + intros [= <-]. apply (text_map_lookup _ _ E1).
    + destruct (bool_decide (is_Some (STATUS_LABELS_RU !! lower (strip text))))
        eqn:B.
      * apply bool_decide_eq_true_1 in B as [l Hl].
        intros [= <-]. apply list_elem_of_In. exact (labels_keys _ _ Hl).
      * destruct (STATUS_ALIASES !! lower (strip text)) as [a|] eqn:A.
        { intros [= <-]. apply list_elem_of_In. exact (aliases_values _ _ A). }
        destruct (STATUS_TEXT_MAP !! strip (List.filter status_clean_keeps
                                              (lower (strip text))))
          as [w|] eqn:E2; cbn [truthy_opt].
        { destruct (truthy w).
          - intros [= <-]. apply (text_map_lookup _ _ E2).
          - intros H. apply (text_map_lookup _ _ H). }
        intros H. apply (text_map_lookup _ _ H).
  - cbn [truthy_opt].
    destruct (bool_decide (is_Some (STATUS_LABELS_RU !! lower (strip text))))
      eqn:B.
    + apply bool_decide_eq_true_1 in B as [l Hl].
      intros [= <-]. apply list_elem_of_In. exact (labels_keys _ _ Hl).
    + destruct (STATUS_ALIASES !! lower (strip text)) as [a|] eqn:A.
      { intros [= <-]. apply list_elem_of_In. exact (aliases_values _ _ A). }
      destruct (STATUS_TEXT_MAP !! strip (List.filter status_clean_keeps
                                            (lower (strip text))))
        as [w|] eqn:E2; cbn [truthy_opt].
      { destruct (truthy w).
        - intros [= <-]. apply (text_map_lookup _ _ E2).
        - intros H. apply (text_map_lookup _ _ H). }
      intros H. apply (text_map_lookup _ _ H).
Qed.

Lemma status_text_to_code_closed_witness :
  status_text_to_code (u " Need more TIME ") = Some STATUS_WAITING_CUSTOMER
  /\ In STATUS_WAITING_CUSTOMER (List.map fst STATUS_MODEL).
Proof.
  assert (H : status_text_to_code (u " Need more TIME ")
              = Some STATUS_WAITING_CUSTOMER) by (vm_compute; reflexivity).
  split; [exact H|].
  exact (status_text_to_code_closed _ _ H).
Defined.

(** X3. [status_text_to_code] does not see the case of the letters nor the
    white space around the text: a text and its trimmed, lower-cased form
    have the same answer. *)
Theorem status_text_to_code_insensitive :
  forall text : str,
    status_text_to_code text = status_text_to_code (lower (strip text)).
Proof.
  intros text. unfold status_text_to_code at 1 2.
  rewrite lower_strip_idem.
  destruct text as [|c r]; [reflexivity|]. cbn [truthy negb].
  destruct (lower (strip (c :: r))) as [|c' r'] eqn:E;
    [vm_compute; reflexivity | reflexivity].
Qed.

(** X4. [normalize_status_code] is idempotent and never answers the
    historical alias [in_table]: a code, once normalised, stays as it
    is. *)
Theorem normalize_status_code_idempotent :
  forall code : option str,
    normalize_status_code (normalize_status_code code)
    = normalize_status_code code
    /\ normalize_status_code code <> Some STATUS_IN_TABLE.
Proof.
  intros [code|]; [|split; [reflexivity | discriminate]].
  assert (Hform : forall s : str,
            normalize_status_code (Some s)
            = Some (if bool_decide (lower (strip s) = STATUS_IN_TABLE)
                    then STATUS_TABLE else lower (strip s))).
  { intros s. unfold normalize_status_code. f_equal.
    destruct (bool_decide (lower (strip s) = STATUS_IN_TABLE)) eqn:B.
    - apply bool_decide_eq_true_1 in B. rewrite B. vm_compute. reflexivity.
    - apply bool_decide_eq_false_1 in B.
      assert (L : STATUS_ALIASES !! lower (strip s) = None).
      { change STATUS_ALIASES
          with (<[STATUS_IN_TABLE := STATUS_TABLE]> (∅ : gmap str str)).
        rewrite lookup_insert_ne by congruence. apply lookup_empty. }
      rewrite L. cbn [default]. destruct (bool_decide _); reflexivity. }
  rewrite !Hform. split.
  - f_equal.
    destruct (bool_decide (lower (strip code) = STATUS_IN_TABLE)) eqn:B.
    + vm_compute. reflexivity.
    + rewrite lower_strip_idem, B. reflexivity.
  - destruct (bool_decide (lower (strip code) = STATUS_IN_TABLE)) eqn:B.
    + vm_compute. discriminate.
    + apply bool_decide_eq_false_1 in B. congruence.
Qed.

(** X5. What the export shows is read back as what was stored: for every
    text that [status_text_to_code] recognises as a code, the label of
    that code is recognised as the same code. *)
Theorem status_label_stable :
  forall (text code : str),
    status_text_to_code text = Some code ->
    status_text_to_code (status_code_to_label code) = Some code.
Proof.
  intros text code H.
  assert (Hin : In code closed_codes).
  { apply list_elem_of_In.
    destruct (negb (truthy text)) eqn:T;
      unfold status_text_to_code in H; rewrite T in H; [discriminate|].
    destruct (STATUS_TEXT_MAP !! lower (strip text)) as [v|] eqn:E1;
      cbn [truthy_opt] in H;
      [destruct (truthy v);
       [injection H as <-; exact (text_map_values _ _ E1)|]|];
      (destruct (bool_decide (is_Some (STATUS_LABELS_RU !! lower (strip text))))
         eqn:B;
       [apply bool_decide_eq_true_1 in B as [l Hl]; injection H as <-;
        exact (labels_keys _ _ Hl)|];
       destruct (STATUS_ALIASES !! lower (strip text)) as [a|] eqn:A;
       [injection H as <-; exact (aliases_values _ _ A)|];
       destruct (STATUS_TEXT_MAP !! strip (List.filter status_clean_keeps
                                             (lower (strip text))))
         as [w|] eqn:E2; cbn [truthy_opt] in H;
       [destruct (truthy w);
        [injection H as <-; exact (text_map_values _ _ E2)
        |exact (text_map_values _ _ H)]
       |exact (text_map_values _ _ H)]). }
  clear H. unfold closed_codes in Hin.
  change (List.map fst STATUS_MODEL)
    with [STATUS_NEW; STATUS_ASSIGNED; STATUS_RESPONDED; STATUS_RESOLVED;
          STATUS_WAITING_CUSTOMER; STATUS_TABLE; STATUS_OTIP; STATUS_OVERDUE;
          STATUS_NOT_INTERESTING] in Hin.
  repeat (destruct Hin as [<- | Hin]; [vm_compute; reflexivity |]).
  destruct Hin.
Qed.

Lemma status_label_stable_witness :
  status_text_to_code (u "closed") = Some STATUS_RESOLVED
  /\ status_text_to_code (status_code_to_label STATUS_RESOLVED)
     = Some STATUS_RESOLVED.
Proof.
  assert (H : status_text_to_code (u "closed") = Some STATUS_RESOLVED)
    by (vm_compute; reflexivity).
  split; [exact H|].
  exact (status_label_stable _ _ H).
Defined.

End StatusTranslation.

(** ** Sender filter, further *)

Section SenderFilterModes.

(** X6. A filter mode that is none of [off], [contains], [equals] and
    [domain] filters nothing: every sender passes, whatever the value. *)
Theorem passes_sender_filter_unknown_mode :
  forall (sender : option str) (cfg : AppConfig),
    ~ In (utils._normalize_sender_filter cfg).1
         [u "contains"; u "equals"; u "domain"] ->
    utils.passes_sender_filter sender cfg = true.
Proof.
  intros sender cfg H. unfold utils.passes_sender_filter.
  destruct (utils._normalize_sender_filter cfg) as [mode value].
  cbn [fst] in H. unfold Py.eqb.
  destruct (bool_decide (mode = u "off") || negb (truthy value));
    [reflexivity|].
  rewrite (bool_decide_eq_false_2 (mode = u "contains"))
    by (intros E; apply H; left; symmetry; exact E).
  rewrite (bool_decide_eq_false_2 (mode = u "equals"))
    by (intros E; apply H; right; left; symmetry; exact E).
  rewrite (bool_decide_eq_false_2 (mode = u "domain"))
    by (intros E; apply H; right; right; left; symmetry; exact E).
  reflexivity.
Qed.

Lemma passes_sender_filter_unknown_mode_witness :
  let cfg := mkCfg (u "") (u " Regex ") (Some (u "naos")) 2 10 19 [] ∅ in
  utils.passes_sender_filter (Some (u "user@other.com")) cfg = true.
Proof.
  intros cfg.
  refine (passes_sender_filter_unknown_mode _ cfg _).
  vm_compute. intros [H | [H | [H | []]]]; discriminate H.
Defined.

(** X7. The filter does not see the case of the sender: an address and
    its lower-cased form pass or fail together, in every mode. *)
Theorem passes_sender_filter_sender_case :
  forall (sender : str) (cfg : AppConfig),
    utils.passes_sender_filter (Some sender) cfg
    = utils.passes_sender_filter (Some (lower sender)) cfg.
Proof.
  intros sender cfg. unfold utils.passes_sender_filter.
  assert (E : lower (or_str (lower sender) []) = lower (or_str sender [])).
  { assert (Hor : forall s : str, or_str s [] = s)
      by (intros [|c r]; reflexivity).
    rewrite !Hor. apply lower_idem. }
  rewrite E. reflexivity.
Qed.

End SenderFilterModes.

(** ** Business hours, further *)

Section BusinessHoursBounds.

(** A day of rest: a Saturday, a Sunday or a listed holiday. *)
Lemma day_hours_rest_day (current end_ : datetime) (start_hour end_hour : Z)
    (hs : gset str) :
  5 <= weekday (dt_day current) \/ date_isoformat (dt_day current) ∈ hs ->
  day_hours current end_ start_hour end_hour hs = 0%Q.
Proof.
  intros H. unfold day_hours.
  destruct (Z.leb_spec 5 (weekday (dt_day current))) as [_|Hw];
    [reflexivity|].
  destruct H as [H | H]; [lia|].
  rewrite (bool_decide_eq_true_2 _ H). reflexivity.
Qed.

Lemma hours_loop_rest (days : nat) (current end_ : datetime)
    (start_hour end_hour : Z) (hs : gset str) (total : Q) :
  (forall d, dt_day current <= d <= dt_day end_ ->
             5 <= weekday d \/ date_isoformat d ∈ hs) ->
  hours_loop days current end_ start_hour end_hour hs total == total.
Proof.
  revert current total.
  induction days as [|days IH]; intros current total H; cbn [hours_loop].
  - reflexivity.
  - destruct (Z.leb_spec (dt_day current) (dt_day end_)) as [Hle|_];
      [|reflexivity].
    rewrite IH.
    + rewrite day_hours_rest_day by (apply H; lia). apply Qplus_0_r.
    + intros d Hd. cbn [next_midnight dt_day] in Hd. apply H. lia.
Qed.

(** X8. An interval that touches only days of rest (Saturdays, Sundays
    and listed holidays) counts for nothing, however long it is and
    whatever the business hours are. *)
Theorem business_hours_between_rest_days :
  forall (start end_ : datetime) (start_hour end_hour : Z)
         (holidays : list str),
    (forall d, dt_day start <= d <= dt_day end_ ->
               5 <= weekday d \/ In (date_isoformat d) holidays) ->
    business_hours_between start end_ start_hour end_hour holidays == 0.
Proof.
  intros start end_ start_hour end_hour holidays H.
  unfold business_hours_between.
  destruct (leb end_ start); [reflexivity|].
  assert (E : hours_loop (Z.to_nat (dt_day end_ - dt_day start + 1)) start end_
                start_hour end_hour (list_to_set holidays) 0 == 0).
  { apply hours_loop_rest. intros d Hd.
    destruct (H d Hd) as [Hw | Hh]; [left; exact Hw|].
    right. apply elem_of_list_to_set. apply list_elem_of_In. exact Hh. }
  destruct (Qle_bool 0 _); [exact E | reflexivity].
Qed.

Lemma business_hours_between_rest_days_witness :
  business_hours_between (datetime_of 2024 1 6 10 0 0)
                         (datetime_of 2024 1 7 18 0 0) 0 24 [] == 0.
Proof.
  refine (business_hours_between_rest_days _ _ 0 24 [] _).
  intros d Hd. left.
  change (dt_day (datetime_of 2024 1 6 10 0 0)) with 738891 in Hd.
  change (dt_day (datetime_of 2024 1 7 18 0 0)) with 738892 in Hd.
  assert (Hc : d = 738891 \/ d = 738892) by lia.
  destruct Hc as [-> | ->]; vm_compute; discriminate.
Defined.

End BusinessHoursBounds.

Section BusinessHoursElapsed.

(** What a day adds is a whole number of microseconds, none when negative,
    at most what is left of the day, or of the interval on its last day. *)
Lemma day_hours_bound (current end_ : datetime) (start_hour end_hour : Z)
    (hs : gset str) :
  0 <= dt_us current <= US_PER_DAY ->
  exists k : Z,
    day_hours current end_ start_hour end_hour hs == hours_of_us k
    /\ 0 <= k
    /\ (dt_day current = dt_day end_ ->
        k <= Z.max 0 (dt_us end_ - dt_us current))
    /\ (dt_day current < dt_day end_ -> k <= US_PER_DAY - dt_us current).
Proof.
  intros Hc. unfold day_hours.
  destruct (negb _ && negb _);
    [|exists 0; split; [reflexivity|]; unfold US_PER_DAY in *; lia].
  set (sh := Z.max 0 (Z.min 23 start_hour)).
  assert (Hsh : 0 <= sh <= 23) by (unfold sh; lia).
  set (day_end := if 24 <=? end_hour
                  then combine (dt_day current) (time_hms 23 59 59)
                  else combine (dt_day current)
                               (time_hour (Z.max sh end_hour))).
  assert (Hde : dt_day day_end = dt_day current
                /\ dt_us day_end <= 86399000000).
  { unfold day_end, combine.
    destruct (Z.leb_spec 24 end_hour); cbn [dt_day dt_us].
    - split; [reflexivity|]. change (time_hms 23 59 59) with 86399000000. lia.
    - split; [reflexivity|]. unfold time_hour, US_PER_HOUR. lia. }
  destruct day_end as [dd ud]. cbn [dt_day dt_us] in Hde.
  destruct Hde as [-> Hud].
  destruct current as [dc uc], end_ as [de ue].
  cbn [dt_day dt_us] in *.
  unfold dt_max, dt_min, ltb, combine, hours_between, hours_of_us,
    time_hour, US_PER_HOUR, US_PER_DAY in *.
  cbn [dt_day dt_us].
  rewrite !Z.ltb_irrefl, !Z.eqb_refl. cbn [orb andb].
  destruct (Z.ltb_spec uc (sh * 3600000000));
    destruct (Z.ltb_spec dc de); destruct (Z.eqb_spec dc de);
    destruct (Z.ltb_spec ud ue); cbn [orb andb dt_day dt_us];
    repeat match goal with
           | |- context [(?a <? ?b)] => destruct (Z.ltb_spec a b)
           | |- context [(?a =? ?b)] => destruct (Z.eqb_spec a b)
           end; cbn [orb andb];
    try (exists 0; split; [reflexivity|]; lia);
    (eexists; split; [reflexivity|]; lia).
Qed.

Lemma hours_of_us_0 : hours_of_us 0 == 0.
Proof. reflexivity. Qed.

Lemma hours_of_us_plus (a b : Z) :
  hours_of_us a + hours_of_us b == hours_of_us (a + b).
Proof. unfold hours_of_us, Qeq, Qplus. cbn [Qnum Qden]. lia. Qed.

(** The loop adds a whole number of microseconds, none when negative, and
    no more than the time from [current] to [end_]. *)
Lemma hours_loop_elapsed (days : nat) (current end_ : datetime)
    (start_hour end_hour : Z) (hs : gset str) (total : Q) :
  0 <= dt_us current <= US_PER_DAY ->
  0 <= dt_us end_ < US_PER_DAY ->
  exists k : Z,
    hours_loop days current end_ start_hour end_hour hs total
    == total + hours_of_us k
    /\ 0 <= k
    /\ k <= Z.max 0 ((dt_day end_ - dt_day current) * US_PER_DAY
                     + (dt_us end_ - dt_us current)).
Proof.
  revert current total.
  induction days as [|days IH]; intros current total Hc He; cbn [hours_loop].
  - exists 0. split; [|lia]. rewrite hours_of_us_0, Qplus_0_r.
    reflexivity.
  - destruct (Z.leb_spec (dt_day current) (dt_day end_)) as [Hle|Hgt].
    + destruct (day_hours_bound current end_ start_hour end_hour hs Hc)
        as (k1 & E1 & P1 & Hsame & Hbefore).
      assert (Hn : 0 <= dt_us (next_midnight (dt_day current)) <= US_PER_DAY)
        by (cbn; unfold US_PER_DAY; lia).
      destruct (IH (next_midnight (dt_day current))
                   (total + day_hours current end_ start_hour end_hour hs)%Q
                   Hn He) as (k2 & E2 & P2 & B2).
      cbn [next_midnight dt_day dt_us] in B2.
      exists (k1 + k2). split; [|split; [lia|]].
      * rewrite E2, E1, <- Qplus_assoc, hours_of_us_plus. reflexivity.
      * unfold US_PER_DAY in *.
        destruct (Z.eq_dec (dt_day current) (dt_day end_)) as [E | N].
        -- specialize (Hsame E). nia.
        -- assert (Hlt : dt_day current < dt_day end_) by lia.
           specialize (Hbefore Hlt). nia.
    + exists 0. split; [|lia]. rewrite hours_of_us_0, Qplus_0_r.
      reflexivity.
Qed.

(** X9. Business hours are never negative and never exceed the time that
    passed: for timestamps within their day, [business_hours_between] is
    at least 0 and at most the length of the interval in hours (0 when the
    end is not after the start), whatever the hours, the weekdays and the
    holidays. *)
Theorem business_hours_between_elapsed :
  forall (start end_ : datetime) (start_hour end_hour : Z)
         (holidays : list str),
    0 <= dt_us start < US_PER_DAY ->
    0 <= dt_us end_ < US_PER_DAY ->
    (0 <= business_hours_between start end_ start_hour end_hour holidays)%Q
    /\ (business_hours_between start end_ start_hour end_hour holidays
        <= hours_of_us
             (Z.max 0 ((dt_day end_ - dt_day start) * US_PER_DAY
                       + (dt_us end_ - dt_us start))))%Q.
Proof.
  intros start end_ start_hour end_hour holidays Hs He.
  assert (Hnn : forall z, (0 <= hours_of_us (Z.max 0 z))%Q).
  { intros z. unfold hours_of_us, Qle. cbn [Qnum Qden]. lia. }
  unfold business_hours_between.
  destruct (leb end_ start).
  - split; [apply Qle_refl | apply Hnn].
  - destruct (hours_loop_elapsed
                (Z.to_nat (dt_day end_ - dt_day start + 1)) start end_
                start_hour end_hour (list_to_set holidays) 0)
      as (k & E & P & B); [lia | exact He |].
    rewrite Qplus_0_l in E.
    destruct (Qle_bool 0 _) eqn:Q0.
    + split; [apply Qle_bool_iff; exact Q0|].
      rewrite E. unfold hours_of_us, Qle. cbn [Qnum Qden]. lia.
    + split; [apply Qle_refl | apply Hnn].
Qed.

Lemma business_hours_between_elapsed_witness :
  let start := datetime_of 2024 1 1 18 0 0 in
  let end_ := datetime_of 2024 1 2 11 0 0 in
  (0 <= business_hours_between start end_ 9 18 [])%Q
  /\ (business_hours_between start end_ 9 18 [] <= 17)%Q.
Proof.
  intros start end_.
  assert (Hs : 0 <= dt_us start < US_PER_DAY) by (vm_compute; split; congruence).
  assert (He : 0 <= dt_us end_ < US_PER_DAY) by (vm_compute; split; congruence).
  destruct (business_hours_between_elapsed start end_ 9 18 [] Hs He)
    as [H0 H1].
  split; [exact H0|].
  eapply Qle_trans; [exact H1|]. vm_compute. discriminate.
Defined.

End BusinessHoursElapsed.

Section BusinessHoursMidnight.

(** X10. With an end hour of 24 or more the business day closes at
    23:59:59, not at midnight: on one business day the count runs from
    the later of the start and the opening hour to the earlier of the
    end and 23:59:59, so the last second of the day is never counted. *)
Theorem business_hours_between_until_midnight :
  forall (start end_ : datetime) (start_hour end_hour : Z)
         (holidays : list str),
    0 <= start_hour <= 23 ->
    24 <= end_hour ->
    dt_day end_ = dt_day start ->
    weekday (dt_day start) < 5 ->
    ~ In (date_isoformat (dt_day start)) holidays ->
    business_hours_between start end_ start_hour end_hour holidays
    == hours_of_us
         (Z.max 0 (Z.min (dt_us end_) (time_hms 23 59 59)
                   - Z.max (dt_us start) (time_hour start_hour))).
Proof.
  intros start end_ start_hour end_hour holidays Hsh Heh Hday Hwd Hhol.
  apply business_hours_one_day.
  - exact Hday.
  - unfold hours_of_us, Qle. cbn [Qnum Qden]. lia.
  - unfold ltb. rewrite Hday, Z.ltb_irrefl, Z.eqb_refl. cbn [orb andb].
    intros L. apply Z.ltb_ge in L.
    unfold hours_of_us, Qeq. cbn [Qnum Qden]. lia.
  - apply day_hours_until_midnight; try assumption.
    apply not_holiday. exact Hhol.
Qed.

Lemma business_hours_between_until_midnight_witness :
  let start := mkdt (ymd2ord 2024 1 2) (time_hms 23 59 59) in
  let end_ := mkdt (ymd2ord 2024 1 2) (time_hms 23 59 59 + 500000) in
  ltb start end_ = true
  /\ business_hours_between start end_ 0 24 [] == 0.
Proof.
  intros start end_.
  split; [vm_compute; reflexivity|].
  assert (H1 : 0 <= 0 <= 23) by lia.
  assert (H2 : 24 <= 24) by lia.
  assert (H3 : weekday (dt_day start) < 5) by (vm_compute; reflexivity).
  assert (H4 : ~ In (date_isoformat (dt_day start)) []) by (intros []).
  rewrite (business_hours_between_until_midnight start end_ 0 24 []
             H1 H2 eq_refl H3 H4).
  vm_compute. reflexivity.
Defined.

End BusinessHoursMidnight.

(** ** Status migration *)

Section Migration.

Lemma same_but_status_refl (r : Row.t) : same_but_status r r.
Proof.
  unfold same_but_status, same_message, same_edit, same_advice.
  repeat split.
Qed.

Lemma same_but_status_trans (r1 r2 r3 : Row.t) :
  same_but_status r1 r2 -> same_but_status r2 r3 -> same_but_status r1 r3.
Proof.
  unfold same_but_status, same_message, same_edit, same_advice.
  intros H12 H23.
  repeat match goal with H : _ /\ _ |- _ => destruct H end.
  repeat split; etransitivity; eassumption.
Qed.

(** One UPDATE of the migration, row by row. *)
Lemma update_status_where_rel (new old : str) (rows : list Row.t) :
  In old legacy_statuses ->
  Forall2 (fun r r' =>
             Row.status r'
             = (if bool_decide (Row.status r = old) then new else Row.status r)
             /\ same_but_status r r'
             /\ (~ In (Row.status r) legacy_statuses -> r' = r))
          rows (update_status_where new old rows).
Proof.
  intros Hold. unfold update_status_where.
  induction rows as [|r rows IH]; cbn [List.map]; constructor; [|exact IH].
  destruct (bool_decide (Row.status r = old)) eqn:B.
  - apply bool_decide_eq_true_1 in B.
    split; [reflexivity|]. split.
    + unfold same_but_status, same_message, same_edit, same_advice.
      repeat split.
    + intros H. exfalso. apply H. rewrite B. exact Hold.
  - split; [reflexivity|]. split; [apply same_but_status_refl | reflexivity].
Qed.

Lemma migration_fold_rel (l : list (str * str)) (rows : list Row.t) :
  (forall on, In on l -> In on.1 legacy_statuses) ->
  Forall2 (fun r r' =>
             Row.status r'
             = fold_left (fun x on => if bool_decide (x = on.1) then on.2 else x)
                         l (Row.status r)
             /\ same_but_status r r'
             /\ (~ In (Row.status r) legacy_statuses -> r' = r))
          rows
          (fold_left (fun rs on => update_status_where on.2 on.1 rs) l rows).
Proof.
  revert rows. induction l as [|on l IH]; intros rows Hl; cbn [fold_left].
  - apply Forall2_same_length_lookup_2; [reflexivity|].
    intros i x y Hx Hy. rewrite Hx in Hy. injection Hy as <-.
    split; [reflexivity|]. split; [apply same_but_status_refl | reflexivity].
  - eapply Forall2_trans;
      [|apply (update_status_where_rel on.2 on.1 rows); apply Hl; left;
        reflexivity
       |apply IH; intros on' Hin; apply Hl; right; exact Hin].
    cbn beta. intros r1 r2 r3 (E12 & F12 & K12) (E23 & F23 & K23).
    split; [|split].
    + rewrite E23, E12. reflexivity.
    + apply (same_but_status_trans r1 r2 r3); assumption.
    + intros H. specialize (K12 H). subst r2. apply K23. exact H.
Qed.

(** Row by row, what [_migrate_statuses] does. *)
Lemma migrate_statuses_rel (rows : list Row.t) :
  Forall2 (fun r r' => Row.status r' = migrated_status (Row.status r)
                       /\ same_but_status r r'
                       /\ (~ In (Row.status r) legacy_statuses -> r' = r))
          rows (_migrate_statuses rows).
Proof.
  unfold _migrate_statuses, migrated_status.
  eapply Forall2_trans;
    [|apply (migration_fold_rel STATUS_MIGRATION rows)
     |apply (update_status_where_rel (u "table") (u "in_table"))].
  - cbn beta. intros r1 r2 r3 (E12 & F12 & K12) (E23 & F23 & K23).
    split; [|split].
    + rewrite E23, E12. reflexivity.
    + apply (same_but_status_trans r1 r2 r3); assumption.
    + intros H. specialize (K12 H). subst r2. apply K23. exact H.
  - intros on Hin. unfold legacy_statuses. apply in_or_app. left.
    apply in_map. exact Hin.
  - unfold legacy_statuses. apply in_or_app. right. left. reflexivity.
Qed.






End Migration.

(** ** The upsert, off the conflict path, and what it returns *)

Section UpsertInsert.

Implicit Types (rows : list Row.t) (ticket : TicketRecord.t).

Lemma conflict_row_none (conv_id : option str) (thread_key : str) rows :
  (forall r c, In r rows -> conv_id = Some c -> Row.conv_id r = Some c ->
               Row.thread_key r <> thread_key) ->
  conflict_row conv_id thread_key rows = None.
Proof.
  intros H. unfold conflict_row. destruct conv_id as [c|]; [|reflexivity].
  destruct (List.find _ rows) as [r|] eqn:E; [|reflexivity].
  apply find_some in E as [Hin Hp]. apply andb_prop in Hp as [H1 H2].
  apply bool_decide_eq_true_1 in H1. apply bool_decide_eq_true_1 in H2.
  exfalso. apply (H r c Hin eq_refl H1 H2).
Qed.

Lemma stable_id_free (self : option Z) (sid : option str) rows :
  (forall r s, In r rows -> sid = Some s -> Row.stable_id r <> Some s) ->
  stable_id_taken self sid rows = false.
Proof.
  intros H. unfold stable_id_taken. destruct sid as [s|]; [|reflexivity].
  apply not_true_iff_false. intros E.
  apply existsb_exists in E as (r & Hin & Hp).
  apply andb_prop in Hp as [_ H2]. apply bool_decide_eq_true_1 in H2.
  apply (H r s Hin eq_refl H2).
Qed.

Lemma select_ticket_app rows (new : Row.t) (k : Z) :
  ~ In (Row.id new) (List.map Row.id rows) ->
  select_ticket k (rows ++ [new])
  = if k =? Row.id new then Some new else select_ticket k rows.
Proof.
  intros Hfresh. unfold select_ticket.
  induction rows as [|r rows IH]; cbn [app List.find].
  - rewrite (Z.eqb_sym (Row.id new) k). destruct (k =? Row.id new); reflexivity.
  - destruct (Z.eqb_spec (Row.id r) k) as [E|N].
    + destruct (Z.eqb_spec k (Row.id new)) as [E'|_]; [|reflexivity].
      exfalso. apply Hfresh. left. congruence.
    + apply IH. intros Hin. apply Hfresh. right. exact Hin.
Qed.

Lemma conflict_row_app (c : str) (thread_key : str) rows (new : Row.t) :
  conflict_row (Some c) thread_key rows = None ->
  Row.conv_id new = Some c -> Row.thread_key new = thread_key ->
  conflict_row (Some c) thread_key (rows ++ [new]) = Some new.
Proof.
  unfold conflict_row. intros Hnone Hc Hk.
  induction rows as [|r rows IH]; cbn [app List.find] in *.
  - rewrite (bool_decide_eq_true_2 _ Hc), (bool_decide_eq_true_2 _ Hk).
    reflexivity.
  - destruct (bool_decide (Row.conv_id r = Some c)
              && bool_decide (Row.thread_key r = thread_key));
      [discriminate | apply IH; exact Hnone].
Qed.

(** X13. The upsert of a record whose (conv_id, thread_key) pair no
    ticket holds (a record without conversation id is always one) and
    whose stable id no ticket holds returns and adds one ticket: the new
    ticket gets an id no ticket had, can be selected by it and holds the
    payload; every other id selects what it selected before; no event is
    written.  The id returned is the new one when the record carries no id
    or carries a conversation id; a record that carries an id and no
    conversation id gets its own id back. *)
Theorem upsert_ticket_insert :
  forall (conn : Conn) ticket,
    (forall r c, In r (tickets conn) -> TicketRecord.conv_id ticket = Some c ->
                 Row.conv_id r = Some c ->
                 Row.thread_key r <> TicketRecord.thread_key ticket) ->
    (forall r s, In r (tickets conn) -> TicketRecord.stable_id ticket = Some s ->
                 Row.stable_id r <> Some s) ->
    exists (conn' : Conn) (ticket_id new_id : Z),
      upsert_ticket conn ticket = Some (conn', ticket_id)
      /\ ~ In new_id (List.map Row.id (tickets conn))
      /\ length (tickets conn') = S (length (tickets conn))
      /\ select_ticket new_id (tickets conn')
         = Some (inserted_row new_id ticket)
      /\ takes_payload ticket (inserted_row new_id ticket)
      /\ (forall k, k <> new_id ->
                    select_ticket k (tickets conn')
                    = select_ticket k (tickets conn))
      /\ events conn' = events conn
      /\ (TicketRecord.id ticket = None
          \/ is_Some (TicketRecord.conv_id ticket) -> ticket_id = new_id)
      /\ (forall given, TicketRecord.id ticket = Some given ->
                        TicketRecord.conv_id ticket = None ->
                        ticket_id = given).
Proof.
  intros conn ticket Hpair Hsid.
  pose proof (conflict_row_none _ _ _ Hpair) as Hcr.
  pose proof (stable_id_free None _ _ Hsid) as Hfree.
  set (new_id := next_rowid (tickets_seq conn)
                            (List.map Row.id (tickets conn))).
  assert (Hfresh : ~ In new_id (List.map Row.id (tickets conn)))
    by apply next_rowid_fresh.
  unfold upsert_ticket. cbn zeta. rewrite Hcr, Hfree. fold new_id.
  eexists _, _, new_id. split; [reflexivity|].
  cbn [tickets last_insert_rowid events].
  split; [exact Hfresh|].
  split; [rewrite length_app; cbn [length]; lia|].
  split.
  { rewrite select_ticket_app by exact Hfresh.
    cbn [Row.id inserted_row]. rewrite Z.eqb_refl. reflexivity. }
  split.
  { unfold takes_payload, inserted_row, int_of_bool. cbn. repeat split. }
  split.
  { intros k Hk. rewrite select_ticket_app by exact Hfresh.
    cbn [Row.id inserted_row].
    apply Z.eqb_neq in Hk. rewrite Hk. reflexivity. }
  split; [reflexivity|].
  split.
  - intros [Hnone | [c Hc]].
    + rewrite Hnone. reflexivity.
    + destruct (TicketRecord.id ticket) as [given|]; [|reflexivity].
      rewrite Hc in Hcr |- *.
      rewrite (conflict_row_app c _ _ (inserted_row new_id ticket) Hcr);
        [reflexivity | exact Hc | reflexivity].
  - intros given Hid Hc. rewrite Hid, Hc. reflexivity.
Qed.

End UpsertInsert.

Lemma upsert_ticket_insert_witness :
  (forall r c, In r (tickets fixtures.store_c1) ->
               TicketRecord.conv_id fixtures.rec_c2 = Some c ->
               Row.conv_id r = Some c ->
               Row.thread_key r <> TicketRecord.thread_key fixtures.rec_c2)
  /\ (forall r s, In r (tickets fixtures.store_c1) ->
                  TicketRecord.stable_id fixtures.rec_c2 = Some s ->
                  Row.stable_id r <> Some s)
  /\ exists (conn' : Conn) (ticket_id new_id : Z),
       upsert_ticket fixtures.store_c1 fixtures.rec_c2
       = Some (conn', ticket_id)
       /\ ~ In new_id (List.map Row.id (tickets fixtures.store_c1))
       /\ length (tickets conn') = S (length (tickets fixtures.store_c1))
       /\ select_ticket new_id (tickets conn')
          = Some (inserted_row new_id fixtures.rec_c2)
       /\ takes_payload fixtures.rec_c2 (inserted_row new_id fixtures.rec_c2)
       /\ (forall k, k <> new_id ->
                     select_ticket k (tickets conn')
                     = select_ticket k (tickets fixtures.store_c1))
       /\ events conn' = events fixtures.store_c1
       /\ (TicketRecord.id fixtures.rec_c2 = None
           \/ is_Some (TicketRecord.conv_id fixtures.rec_c2) ->
           ticket_id = new_id)
       /\ (forall given, TicketRecord.id fixtures.rec_c2 = Some given ->
                         TicketRecord.conv_id fixtures.rec_c2 = None ->
                         ticket_id = given).
Proof.
  assert (H1 : forall r c, In r (tickets fixtures.store_c1) ->
                 TicketRecord.conv_id fixtures.rec_c2 = Some c ->
                 Row.conv_id r = Some c ->
                 Row.thread_key r <> TicketRecord.thread_key fixtures.rec_c2).
  { intros r c [<- | []] _ _. vm_compute. discriminate. }
  assert (H2 : forall r s, In r (tickets fixtures.store_c1) ->
                 TicketRecord.stable_id fixtures.rec_c2 = Some s ->
                 Row.stable_id r <> Some s).
  { intros r s [<- | []] [= <-]. vm_compute. discriminate. }
  split; [exact H1|]. split; [exact H2|].
  apply (upsert_ticket_insert fixtures.store_c1 fixtures.rec_c2 H1 H2).
Defined.

Section UpsertReturn.

Implicit Types (rows : list Row.t) (ticket : TicketRecord.t).

Lemma conflict_row_map (g : Row.t -> Row.t) (c key : str) rows :
  (forall t, In t rows ->
             Row.conv_id (g t) = Row.conv_id t
             /\ Row.thread_key (g t) = Row.thread_key t) ->
  conflict_row (Some c) key (List.map g rows)
  = g <$> conflict_row (Some c) key rows.
Proof.
  unfold conflict_row. induction rows as [|t rows IH]; intros Hg;
    cbn [List.map List.find]; [reflexivity|].
  destruct (Hg t (or_introl eq_refl)) as [-> ->].
  destruct (bool_decide (Row.conv_id t = Some c)
            && bool_decide (Row.thread_key t = key)); [reflexivity|].
  apply IH. intros x Hx. apply Hg. right. exact Hx.
Qed.

(** X14. What the upsert returns when it updates.  In a store that
    satisfies its constraints, the upsert of a record of the thread of a
    stored ticket writes no event and inserts nothing, so the rowid of the
    last insert of the connection stays; it returns the id of the updated
    ticket when the record carries an id, and the rowid of the last insert
    of the connection, whatever ticket that was, when the record carries
    none. *)
Theorem upsert_ticket_update_returns :
  forall (conn : Conn) ticket (r : Row.t) (c : str),
    primary_key (tickets conn) ->
    unique_thread (tickets conn) ->
    In r (tickets conn) ->
    Row.conv_id r = Some c ->
    TicketRecord.conv_id ticket = Some c ->
    TicketRecord.thread_key ticket = Row.thread_key r ->
    stable_id_taken (Some (Row.id r)) (TicketRecord.stable_id ticket)
                    (tickets conn) = false ->
    exists conn' : Conn,
      upsert_ticket conn ticket
      = Some (conn', match TicketRecord.id ticket with
                     | None => last_insert_rowid conn
                     | Some _ => Row.id r
                     end)
      /\ last_insert_rowid conn' = last_insert_rowid conn
      /\ events conn' = events conn.
Proof.
  intros conn ticket r c Hpk Hut Hin Hc Htc Htk Hfree.
  unfold upsert_ticket. cbn zeta.
  rewrite Htc, Htk, (conflict_row_in _ r c Hut Hin Hc), Hfree.
  cbn [tickets last_insert_rowid].
  exists (mkConn (update_ticket (Row.id r) (fun t => updated_row t ticket)
                                (tickets conn))
                 (tickets_seq conn) (events conn) (events_seq conn)
                 (last_insert_rowid conn)).
  split; [|split; reflexivity].
  destruct (TicketRecord.id ticket) as [given|]; [|reflexivity].
  unfold update_ticket. rewrite conflict_row_map.
  - rewrite (conflict_row_in _ r c Hut Hin Hc).
    cbn [fmap option_fmap option_map]. rewrite Z.eqb_refl. reflexivity.
  - intros t Ht. destruct (Z.eqb_spec (Row.id t) (Row.id r)) as [E|_];
      [|split; reflexivity].
    assert (t = r) as ->.
    { pose proof (select_ticket_in _ t Hpk Ht) as S1.
      rewrite E, (select_ticket_in _ r Hpk Hin) in S1. congruence. }
    cbn [updated_row inserted_row Row.conv_id Row.thread_key].
    rewrite Htc, Htk, Hc. split; reflexivity.
Qed.

End UpsertReturn.

Lemma upsert_ticket_update_returns_witness :
  let conn := fixtures.store_c1_c2 in
  let r := inserted_row 1 fixtures.rec_c1 in
  In r (tickets conn)
  /\ Row.id r = 1
  /\ exists conn' : Conn,
       upsert_ticket conn fixtures.rec_c1 = Some (conn', 2)
       /\ last_insert_rowid conn' = last_insert_rowid conn
       /\ events conn' = events conn.
Proof.
  intros conn r.
  assert (Hin : In r (tickets conn)) by (left; reflexivity).
  split; [exact Hin|]. split; [reflexivity|].
  refine (upsert_ticket_update_returns conn fixtures.rec_c1 r (u "c1")
            _ _ Hin _ _ _ _).
  - unfold primary_key. vm_compute. repeat constructor.
    + intros H. apply list_elem_of_singleton in H. discriminate.
    + intros H. apply elem_of_nil in H. exact H.
  - intros r1 r2 k [<- | [<- | []]] [<- | [<- | []]] H1 H2 Hk;
      try reflexivity; exfalso; vm_compute in H1, H2; congruence.
  - reflexivity.
  - reflexivity.
  - reflexivity.
  - vm_compute. reflexivity.
Defined.

(** ** The event log is append-only *)

Section EventLogAppend.

(** [id INTEGER PRIMARY KEY] of [events] *)
Lemma events_key_log_event (c : Conn) (now : datetime) (ticket_id : Z)
    (event_type : str) (status_before status_after : option str)
    (source : str) (raw_response item_entry_id : option str) :
  NoDup (List.map Event.id (events c)) ->
  NoDup (List.map Event.id
           (events (log_event c now ticket_id event_type status_before
                              status_after source raw_response
                              item_entry_id))).
Proof.
  intros Hnd. unfold log_event.
  destruct (match item_entry_id with Some _ => _ | None => _ end);
    [exact Hnd|].
  cbn [events]. rewrite List.map_app. cbn [List.map Event.id].
  apply NoDup_app. split; [exact Hnd|]. split; [|apply NoDup_singleton].
  intros x Hx Hx'. apply list_elem_of_singleton in Hx'. subst x.
  apply list_elem_of_In in Hx.
  apply (next_rowid_fresh (events_seq c) (List.map Event.id (events c))).
  exact Hx.
Qed.

(** X15. [log_event] only ever appends: the tickets stay, the events
    logged before stay as they are and in their place, at most one event
    is added, and the ids of the events stay distinct.  A call without an
    external message id always adds its event, which records the ticket,
    the type, both statuses, the source, the time of the call and the raw
    response under an id no event had. *)
Theorem log_event_appends :
  forall (c : Conn) (now : datetime) (ticket_id : Z) (event_type : str)
         (status_before status_after : option str) (source : str)
         (raw_response item_entry_id : option str),
    NoDup (List.map Event.id (events c)) ->
    let c' := log_event c now ticket_id event_type status_before
                        status_after source raw_response item_entry_id in
    tickets c' = tickets c
    /\ NoDup (List.map Event.id (events c'))
    /\ (events c' = events c
        \/ exists new_id : Z,
             ~ In new_id (List.map Event.id (events c))
             /\ events c'
                = events c
                  ++ [Event.mk new_id ticket_id event_type status_before
                               status_after (Some source) (Some now)
                               raw_response item_entry_id])
    /\ (item_entry_id = None -> length (events c') = S (length (events c))).
Proof.
  intros c now ticket_id event_type sb sa source raw e Hnd c'.
  split; [apply log_event_tickets|].
  split; [apply events_key_log_event; exact Hnd|].
  subst c'. unfold log_event. split.
  - destruct (match e with Some _ => _ | None => _ end);
      [left; reflexivity|].
    right. eexists. split; [|reflexivity]. apply next_rowid_fresh.
  - intros ->. cbn [events]. rewrite length_app. cbn [length]. lia.
Qed.

End EventLogAppend.

Lemma log_event_appends_witness :
  let c := log_event fixtures.store_c1 fixtures.t0 1 (u "seed_test_ticket")
                     None (Some (u "new")) (u "test-all") None None in
  NoDup (List.map Event.id (events c))
  /\ length (events (log_event c fixtures.t0 1 (u "comment") None None
                               (u "mail") (Some (u "hello")) None))
     = 2%nat.
Proof.
  intros c.
  assert (Hnd : NoDup (List.map Event.id (events c))).
  { vm_compute. repeat constructor. intros H. apply elem_of_nil in H.
    exact H. }
  split; [exact Hnd|].
  apply (log_event_appends c fixtures.t0 1 (u "comment") None None
           (u "mail") (Some (u "hello")) None Hnd).
  reflexivity.
Defined.

(** ** The spreadsheet import as a whole *)

Section SheetImportWhole.

Import excel.

Variable fromisoformat : str -> option datetime.

Implicit Types (st : SyncState) (row : SheetRow) (rows : list SheetRow).


(** A readable row never raises. *)
Lemma sync_row_readable (now : datetime) row st :
  readable row -> is_Some (sync_row fromisoformat now row st).
Proof.
  intros Hr. unfold sync_row.
  destruct (sr_ticket_id row) as [ticket_id|] eqn:Hid; [|eexists; reflexivity].
  destruct (Hr (ex_intro _ ticket_id Hid)) as [excel_rv ->].
  destruct (select_ticket _ _); [|eexists; reflexivity].
  destruct (db_newer _ _); [eexists; reflexivity|].
  destruct (negb _); eexists; reflexivity.
Qed.





End SheetImportWhole.


Section SheetImportFrame.

Import excel.

Variable fromisoformat : str -> option datetime.

Implicit Types (st : SyncState) (row : SheetRow) (rows : list SheetRow).

Lemma same_but_sheet_refl (r : Row.t) : same_but_sheet r r.
Proof.
  unfold same_but_sheet, same_message, same_advice. repeat split.
Qed.

Lemma same_but_sheet_trans (r1 r2 r3 : Row.t) :
  same_but_sheet r1 r2 -> same_but_sheet r2 r3 -> same_but_sheet r1 r3.
Proof.
  unfold same_but_sheet, same_message, same_advice.
  intros H12 H23. repeat split; try (etransitivity; [apply H23 | apply H12]).
Qed.

Lemma Forall2_map_related {A} (R : A -> A -> Prop) (g : A -> A)
    (l : list A) :
  (forall x, R x (g x)) -> Forall2 R l (List.map g l).
Proof.
  intros H. induction l as [|x l IH]; cbn [List.map]; constructor;
    [apply H | exact IH].
Qed.

Lemma sync_row_frame (now : datetime) row st st' :
  sync_row fromisoformat now row st = Some st' ->
  Forall2 same_but_sheet (tickets (conn st)) (tickets (conn st')).
Proof.
  assert (Hrefl : forall l, Forall2 same_but_sheet l l).
  { intros l. induction l; constructor;
      [apply same_but_sheet_refl | assumption]. }
  unfold sync_row.
  destruct (sr_ticket_id row) as [ticket_id|];
    [|intros [= <-]; apply Hrefl].
  destruct (sr_row_version row) as [excel_rv|]; [|discriminate].
  destruct (select_ticket _ _) as [current|];
    [|intros [= <-]; apply Hrefl].
  destruct (db_newer _ _);
    [intros [= <-]; cbn [conn]; rewrite log_event_tickets; apply Hrefl|].
  destruct (negb _);
    intros [= <-]; cbn [conn]; rewrite log_event_tickets;
    [apply Hrefl|].
  cbn [tickets].
  apply (Forall2_map_related same_but_sheet).
  intros r. destruct (_ && _); [|apply same_but_sheet_refl].
  unfold same_but_sheet, same_message, same_advice. repeat split.
Qed.

Lemma sync_rows_frame (now : datetime) rows st :
  Forall2 same_but_sheet (tickets (conn st))
          (tickets (conn (sync_rows fromisoformat now rows st).1)).
Proof.
  assert (Hrefl : forall l, Forall2 same_but_sheet l l).
  { intros l. induction l; constructor;
      [apply same_but_sheet_refl | assumption]. }
  revert st. induction rows as [|row rows IH]; intros st; cbn [sync_rows].
  - apply Hrefl.
  - destruct (sync_row fromisoformat now row st) as [st'|] eqn:E;
      [|apply Hrefl].
    eapply Forall2_trans;
      [exact same_but_sheet_trans | apply (sync_row_frame now row st st' E)
       | apply IH].
Qed.

(** X17. The import writes only what the sheet can hold.  Whatever the
    sheet, and whether the loop runs to its end or raises, the store
    [sync_from_excel] leaves has the tickets of the store it found, in
    their places, and on every ticket the columns that identify it and
    carry the message, the advice columns, [days_without_update] and
    [last_reminder_utc] are as they were. *)
Theorem sync_from_excel_frame :
  forall (now : datetime) (sheet : option (list SheetRow)) (c : Conn),
    Forall2 same_but_sheet
            (tickets c)
            (tickets (sync_from_excel fromisoformat now sheet c).1).
Proof.
  intros now sheet c.
  assert (Hmig : Forall2 same_but_sheet (tickets c)
                         (tickets (ensure_schema c))).
  { cbn [ensure_schema tickets].
    eapply Forall2_impl; [apply migrate_statuses_rel|].
    cbn beta. unfold same_but_status, same_but_sheet, same_edit.
    intros r r' (_ & (Hm & He & Ha & _ & Hd & _) & _).
    split; [exact Hm|]. split; [exact Ha|]. split; [exact Hd|]. apply He. }
  unfold sync_from_excel. destruct sheet as [rows|]; [|exact Hmig].
  pose proof (sync_rows_frame now rows (mkSync (ensure_schema c) 0 0 0 []))
    as Hrows.
  destruct (sync_rows fromisoformat now rows _) as [st finished].
  cbn [fst conn] in *.
  eapply Forall2_trans; [exact same_but_sheet_trans | exact Hmig | exact Hrows].
Qed.



(** X19. A version cell that holds no number stops the import.  The rows
    before it, when the loop could read them, are applied and stay
    applied; the row itself and the rows after it change nothing, and no
    summary is returned. *)
Theorem sync_from_excel_bad_version :
  forall (now : datetime) (pre post : list SheetRow) row (c : Conn),
    Forall readable pre ->
    is_Some (sr_ticket_id row) ->
    sr_row_version row = None ->
    sync_from_excel fromisoformat now (Some (pre ++ row :: post)) c
    = ((sync_from_excel fromisoformat now (Some pre) c).1, None).
Proof.
  intros now pre post row c Hpre [ticket_id Hid] Hrv.
  unfold sync_from_excel.
  assert (Hgen : forall st,
             sync_rows fromisoformat now (pre ++ row :: post) st
             = ((sync_rows fromisoformat now pre st).1, false)).
  { induction Hpre as [|x pre Hx _ IH]; intros st; cbn [app sync_rows].
    - unfold sync_row. rewrite Hid, Hrv. reflexivity.
    - destruct (sync_row_readable fromisoformat now x st Hx) as [st' ->].
      apply IH. }
  rewrite Hgen.
  destruct (sync_rows fromisoformat now pre _) as [st finished].
  reflexivity.
Qed.

End SheetImportFrame.


Lemma sync_from_excel_bad_version_witness :
  let pre := [fixtures.sheet_row_current] in
  let row := excel.mkSheetRow (Some 1) None (u "new") [] [] [] [] in
  let post := [fixtures.sheet_row_stale_late] in
  Forall readable pre
  /\ excel.sync_from_excel excel.iso_seconds fixtures.a_week_later
                           (Some (pre ++ row :: post)) fixtures.store_c1
     = ((excel.sync_from_excel excel.iso_seconds fixtures.a_week_later
                               (Some pre) fixtures.store_c1).1, None).
Proof.
  intros pre row post.
  assert (Hpre : Forall readable pre).
  { apply List.Forall_cons; [intros _; eexists; reflexivity|].
    apply List.Forall_nil. }
  split; [exact Hpre|].
  apply (sync_from_excel_bad_version excel.iso_seconds fixtures.a_week_later
           pre post row fixtures.store_c1 Hpre).
  - eexists. reflexivity.
  - reflexivity.
Defined.

(** ** The sweep: what it leaves alone, and its clock *)

Section SweepFrame.

Implicit Types (rows : list Row.t).

Lemma same_but_sweep_refl (r : Row.t) : same_but_sweep r r.
Proof.
  unfold same_but_sweep, same_message, same_edit. repeat split.
Qed.

Lemma same_but_sweep_trans (r1 r2 r3 : Row.t) :
  same_but_sweep r1 r2 -> same_but_sweep r2 r3 -> same_but_sweep r1 r3.
Proof.
  unfold same_but_sweep, same_message, same_edit.
  intros H12 H23. repeat split; try (etransitivity; [apply H23 | apply H12]).
Qed.

Lemma same_sla_refl (r : Row.t) : same_sla r r.
Proof. unfold same_sla. repeat split. Qed.

Lemma same_sla_trans (r1 r2 r3 : Row.t) :
  same_sla r1 r2 -> same_sla r2 r3 -> same_sla r1 r3.
Proof.
  unfold same_sla.
  intros H12 H23. repeat split; try (etransitivity; [apply H23 | apply H12]).
Qed.

Lemma Forall2_related_refl {A} (R : A -> A -> Prop) (l : list A) :
  (forall x, R x x) -> Forall2 R l l.
Proof.
  intros H. induction l; constructor; [apply H | assumption].
Qed.

Lemma Forall2_fold_related {A B} (R : A -> A -> Prop)
    (step : list A -> B -> list A) (l : list B) (rows : list A) :
  (forall x, R x x) ->
  (forall x y z, R x y -> R y z -> R x z) ->
  (forall rs b, Forall2 R rs (step rs b)) ->
  Forall2 R rows (fold_left step l rows).
Proof.
  intros Hrefl Htrans Hstep. revert rows.
  induction l as [|b l IH]; intros rows; cbn [fold_left].
  - apply Forall2_related_refl. exact Hrefl.
  - eapply Forall2_trans; [exact Htrans | apply Hstep | apply IH].
Qed.

Lemma update_ticket_related (R : Row.t -> Row.t -> Prop) (k : Z)
    (g : Row.t -> Row.t) rows :
  (forall x, R x x) -> (forall x, R x (g x)) ->
  Forall2 R rows (update_ticket k g rows).
Proof.
  intros Hrefl Hg. unfold update_ticket.
  induction rows as [|x rows IH]; cbn [List.map]; constructor; [|exact IH].
  destruct (Row.id x =? k); [apply Hg | apply Hrefl].
Qed.

(** X20. The sweep and the enrichment that follows it touch neither the
    message nor what the operator edits: [recalc_open] leaves the tickets
    in their places, and on every ticket the identifying and message
    columns, responsible, priority, comment, [last_reminder_utc], the
    last-update stamp and source, and [row_version] are as they were; the
    version token in particular does not move.  The number returned is
    the number of tickets whose status, after the migration, is none of
    resolved, not_interesting, table and in_table; it is at most the
    number of tickets. *)
Theorem recalc_open_frame :
  forall (cfg : AppConfig)
         (advise : list Row.t -> Row.t -> option recommend.Advice)
         (now : datetime) (conn : Conn),
    Forall2 same_but_sweep (tickets conn)
            (tickets (recalc_open cfg advise now conn).1)
    /\ (recalc_open cfg advise now conn).2
       = Z.of_nat (length (List.filter swept (_migrate_statuses (tickets conn))))
    /\ 0 <= (recalc_open cfg advise now conn).2
         <= Z.of_nat (length (tickets conn)).
Proof.
  intros cfg advise now conn. split; [|split].
  - unfold recalc_open, recommend.update_recommendations.
    cbn [fst tickets ensure_schema].
    eapply Forall2_trans; [exact same_but_sweep_trans | |].
    + eapply Forall2_impl; [apply (migrate_statuses_rel (tickets conn))|].
      cbn beta. unfold same_but_status, same_but_sweep.
      intros r r' (_ & (Hm & He & _) & _). split; assumption.
    + eapply Forall2_trans; [exact same_but_sweep_trans | |].
      * apply (Forall2_fold_related same_but_sweep
                 (fun rs r => recalc_row cfg now r rs));
          [exact same_but_sweep_refl | exact same_but_sweep_trans |].
        intros rs r. rewrite recalc_row_update.
        apply update_ticket_related; [exact same_but_sweep_refl|].
        intros x. unfold sweep_update.
        destruct (bool_decide _);
          unfold same_but_sweep, same_message, same_edit; repeat split.
      * apply Forall2_fold_related;
          [exact same_but_sweep_refl | exact same_but_sweep_trans |].
        intros rs r. destruct (advise _ r) as [a|];
          [|apply Forall2_related_refl; exact same_but_sweep_refl].
        apply update_ticket_related; [exact same_but_sweep_refl|].
        intros x. unfold same_but_sweep, same_message, same_edit.
        repeat split.
  - reflexivity.
  - unfold recalc_open. cbn [snd ensure_schema tickets].
    pose proof (filter_length_le swept (_migrate_statuses (tickets conn)))
      as Hle.
    pose proof (Forall2_length _ _ _ (migrate_statuses_rel (tickets conn)))
      as Hlen.
    lia.
Qed.

(** What the enrichment leaves of a ticket: everything but the advice. *)
Lemma advice_fold_keeps (adv : Row.t -> option recommend.Advice)
    (sel : list Row.t) :
  forall rows k t,
    select_ticket k rows = Some t ->
    exists t',
      select_ticket k
        (fold_left
           (fun rs r => match adv r with
                        | Some a =>
                            update_ticket (Row.id r) (recommend.set_advice a) rs
                        | None => rs
                        end) sel rows)
      = Some t'
      /\ same_sla t t' /\ same_but_sweep t t'.
Proof.
  induction sel as [|r sel IH]; intros rows k t H; cbn [fold_left].
  - exists t. split; [exact H|].
    split; [apply same_sla_refl | apply same_but_sweep_refl].
  - destruct (adv r) as [a|]; [|apply IH; exact H].
    destruct (IH (update_ticket (Row.id r) (recommend.set_advice a) rows) k
                 (if Row.id t =? Row.id r then recommend.set_advice a t else t))
      as (t' & Hsel & Hsla & Hfr).
    { unfold update_ticket. rewrite select_ticket_map, H; [reflexivity|].
      intros x. destruct (Row.id x =? Row.id r); reflexivity. }
    exists t'. split; [exact Hsel|].
    assert (Hstep : same_sla t (if Row.id t =? Row.id r
                                then recommend.set_advice a t else t)
                    /\ same_but_sweep t (if Row.id t =? Row.id r
                                         then recommend.set_advice a t else t)).
    { destruct (Row.id t =? Row.id r);
        unfold same_sla, same_but_sweep, same_message, same_edit;
        repeat split. }
    split.
    + apply (same_sla_trans _ _ _ (proj1 Hstep) Hsla).
    + apply (same_but_sweep_trans _ _ _ (proj2 Hstep) Hfr).
Qed.

Lemma migrate_statuses_keeps_in rows (r : Row.t) :
  In r rows -> ~ In (Row.status r) legacy_statuses ->
  In r (_migrate_statuses rows).
Proof.
  intros Hin Hleg. apply list_elem_of_In in Hin.
  apply list_elem_of_lookup in Hin as [i Hi].
  destruct (Forall2_lookup_l _ _ _ _ _ (migrate_statuses_rel rows) Hi)
    as (r' & Hi' & _ & _ & K).
  rewrite (K Hleg) in Hi'.
  apply list_elem_of_In. apply list_elem_of_lookup. exists i. exact Hi'.
Qed.

(** X21. Closed tickets are not swept.  In a store with distinct ticket
    ids, a ticket stored as resolved, not_interesting or table comes out
    of [recalc_open] with its status, [last_status_utc],
    [days_without_update] and [overdue] as they were, and with every
    column the sweep never writes; however long ago it was received, it is
    never marked overdue. *)
Theorem recalc_open_skips_closed :
  forall (cfg : AppConfig)
         (advise : list Row.t -> Row.t -> option recommend.Advice)
         (now : datetime) (conn : Conn) (r : Row.t),
    primary_key (tickets conn) ->
    In r (tickets conn) ->
    In (Row.status r) [STATUS_RESOLVED; STATUS_NOT_INTERESTING; STATUS_TABLE] ->
    exists r' : Row.t,
      select_ticket (Row.id r) (tickets (recalc_open cfg advise now conn).1)
      = Some r'
      /\ same_sla r r'
      /\ same_but_sweep r r'.
Proof.
  intros cfg advise now conn r Hpk Hin Hst.
  assert (Hleg : ~ In (Row.status r) legacy_statuses).
  { intros Hl. apply list_elem_of_In in Hl. revert Hl.
    destruct Hst as [<- | [<- | [<- | []]]];
      apply (bool_decide_eq_false_1 _); vm_compute; reflexivity. }
  assert (Hsw : swept r = false).
  { unfold swept. apply negb_false_iff. apply bool_decide_eq_true_2.
    apply list_elem_of_In.
    destruct Hst as [<- | [<- | [<- | []]]]; cbn; tauto. }
  pose proof (migrate_statuses_keeps_in _ r Hin Hleg) as Hin'.
  assert (Hpk' : primary_key (_migrate_statuses (tickets conn)))
    by (apply primary_key_migrate; exact Hpk).
  unfold recalc_open, recommend.update_recommendations.
  cbn [fst tickets ensure_schema].
  apply advice_fold_keeps.
  rewrite (fold_left_pointwise
             (fun rs x => recalc_row cfg now x rs)
             (fun rs x => update_ticket (Row.id x) (sweep_update cfg now x) rs))
    by (intros; apply recalc_row_update).
  rewrite (fold_update_select (sweep_update cfg now)
             (List.filter swept (_migrate_statuses (tickets conn)))
             (sweep_update_id cfg now)
             (primary_key_filter swept _ Hpk')).
  rewrite (select_ticket_in _ r Hpk' Hin').
  cbn [fmap option_fmap option_map]. f_equal.
  destruct (select_ticket (Row.id r) (List.filter swept _)) as [x|] eqn:E;
    [|reflexivity].
  exfalso. apply select_ticket_some in E as [Hx Hid].
  apply filter_In in Hx as [Hx Hswx].
  assert (x = r) as ->.
  { pose proof (select_ticket_in _ x Hpk' Hx) as S1.
    rewrite Hid, (select_ticket_in _ r Hpk' Hin') in S1. congruence. }
  congruence.
Qed.

(** X22. Every sweep restarts the clock.  In a store with distinct ticket
    ids, a ticket the sweep selects comes out with [days_without_update]
    set to the whole days from its [last_status_utc] to the sweep, never
    negative, and with a status that is its current status or overdue.
    Unless it waits for the customer, its [last_status_utc] becomes the
    time of the sweep, whether or not its status changed; a ticket that
    waits for the customer keeps its [last_status_utc] and its status. *)
Theorem recalc_open_clock :
  forall (cfg : AppConfig)
         (advise : list Row.t -> Row.t -> option recommend.Advice)
         (now : datetime) (conn : Conn) (r : Row.t),
    primary_key (tickets conn) ->
    In r (tickets (ensure_schema conn)) ->
    swept r = true ->
    exists r' : Row.t,
      select_ticket (Row.id r) (tickets (recalc_open cfg advise now conn).1)
      = Some r'
      /\ Row.days_without_update r'
         = Z.max 0 (dt_day now - dt_day (Row.last_status_utc r))
      /\ 0 <= Row.days_without_update r'
      /\ (current_status r <> STATUS_WAITING_CUSTOMER ->
          Row.last_status_utc r' = now
          /\ In (Row.status r') [current_status r; STATUS_OVERDUE])
      /\ (current_status r = STATUS_WAITING_CUSTOMER ->
          Row.last_status_utc r' = Row.last_status_utc r
          /\ Row.status r' = Row.status r).
Proof.
  intros cfg advise now conn r Hpk Hin Hsw.
  assert (Hpk' : primary_key (tickets (ensure_schema conn))).
  { apply primary_key_migrate. exact Hpk. }
  pose proof (sweep_select cfg now _ r Hpk' Hin Hsw) as Hsel.
  unfold recalc_open, recommend.update_recommendations. cbn [fst tickets].
  set (L := fold_left (fun rs x => recalc_row cfg now x rs)
                      (List.filter swept (tickets (ensure_schema conn)))
                      (tickets (ensure_schema conn))) in *.
  destruct (advice_fold_keeps (advise L) L L (Row.id r) _ Hsel)
    as (r' & Hr' & (Hst & Hls & Hd & _) & _).
  exists r'. split; [exact Hr'|]. rewrite Hst, Hls, Hd.
  clear Hr' Hst Hls Hd Hsel.
  unfold sweep_update.
  destruct (bool_decide (current_status r = STATUS_WAITING_CUSTOMER)) eqn:W.
  - apply bool_decide_eq_true_1 in W.
    cbn [set_waiting set_sweep Row.days_without_update Row.last_status_utc
         Row.status].
    split; [reflexivity|]. split; [lia|].
    split; [intros H; contradiction | intros _; split; reflexivity].
  - apply bool_decide_eq_false_1 in W.
    cbn [set_sweep Row.days_without_update Row.last_status_utc Row.status].
    split; [reflexivity|]. split; [lia|].
    split; [|intros H; contradiction].
    intros _. split; [reflexivity|].
    unfold swept_status. clear W.
    generalize (current_status r) as cs. intros cs.
    destruct (overdue_flag cfg now r && _);
      destruct (bool_decide _ && Qle_bool _ _);
      first [left; reflexivity | right; left; reflexivity].
Qed.

End SweepFrame.

Lemma recalc_open_skips_closed_witness :
  let conn := fixtures.store_of
                [fixtures.rec_with (Some (u "c1")) (u "t1") (u "resolved")
                                   (Some (u "stable-1"))] in
  let r := inserted_row 1 (fixtures.rec_with (Some (u "c1")) (u "t1")
                                             (u "resolved")
                                             (Some (u "stable-1"))) in
  In r (tickets conn)
  /\ exists r' : Row.t,
       select_ticket (Row.id r)
         (tickets (recalc_open fixtures.cfg_sla fixtures.no_advice
                               fixtures.a_week_later conn).1)
       = Some r'
       /\ same_sla r r'
       /\ same_but_sweep r r'.
Proof.
  intros conn r.
  assert (Hin : In r (tickets conn)) by (left; reflexivity).
  split; [exact Hin|].
  refine (recalc_open_skips_closed fixtures.cfg_sla fixtures.no_advice
            fixtures.a_week_later conn r _ Hin _).
  - unfold primary_key. simpl. repeat constructor. intros H.
    apply elem_of_nil in H. exact H.
  - left. reflexivity.
Defined.

Lemma recalc_open_clock_witness :
  let r := inserted_row 1 fixtures.rec_new in
  In r (tickets (ensure_schema fixtures.store_new))
  /\ swept r = true
  /\ exists r' : Row.t,
       select_ticket (Row.id r)
         (tickets (recalc_open fixtures.cfg_sla fixtures.no_advice
                               fixtures.a_week_later fixtures.store_new).1)
       = Some r'
       /\ Row.days_without_update r'
          = Z.max 0 (dt_day fixtures.a_week_later
                     - dt_day (Row.last_status_utc r))
       /\ 0 <= Row.days_without_update r'
       /\ (current_status r <> STATUS_WAITING_CUSTOMER ->
           Row.last_status_utc r' = fixtures.a_week_later
           /\ In (Row.status r') [current_status r; STATUS_OVERDUE])
       /\ (current_status r = STATUS_WAITING_CUSTOMER ->
           Row.last_status_utc r' = Row.last_status_utc r
           /\ Row.status r' = Row.status r).
Proof.
  intros r.
  assert (Hpk : primary_key (tickets fixtures.store_new)).
  { unfold primary_key. simpl. repeat constructor. intros H.
    apply elem_of_nil in H. exact H. }
  assert (Hin : In r (tickets (ensure_schema fixtures.store_new))).
  { vm_compute. left. reflexivity. }
  assert (Hsw : swept r = true) by (vm_compute; reflexivity).
  split; [exact Hin|]. split; [exact Hsw|].
  apply (recalc_open_clock fixtures.cfg_sla fixtures.no_advice
           fixtures.a_week_later fixtures.store_new r Hpk Hin Hsw).
Defined.

(** ** The reminder plan *)

Section ReminderPlan.

Import reminders.

Implicit Types (cfg : ReminderConfig) (rows : list Row.t) (plan : Plan).

(** The loop of the plan, from any plan it starts with: every bucket
    grows by the rows that pass its tests, in their order. *)
Lemma plan_rows cfg (quiet : bool) (utcnow : datetime) rows plan :
  let p := fold_left (plan_row cfg quiet utcnow) rows plan in
  send p
  = send plan
    ++ List.map (fun r => mkEntry r None)
         (List.filter (fun r => truthy_opt (Row.responsible r)
                                && negb (reminded_recently cfg utcnow r)
                                && negb quiet) rows)
  /\ skip_interval p
     = skip_interval plan
       ++ List.map (fun r => mkEntry r (Some (u "interval")))
            (List.filter (to_skip_interval cfg utcnow) rows)
  /\ skip_quiet p
     = skip_quiet plan
       ++ List.map (fun r => mkEntry r (Some (u "quiet_hours")))
            (List.filter (fun r => truthy_opt (Row.responsible r)
                                   && negb (reminded_recently cfg utcnow r)
                                   && quiet) rows)
  /\ skip_no_responsible p
     = skip_no_responsible plan
       ++ List.map (fun r => mkEntry r (Some (u "no_responsible")))
            (List.filter (fun r => negb (truthy_opt (Row.responsible r))) rows).
Proof.
  revert plan. induction rows as [|r rows IH]; intros plan; cbn zeta.
  - cbn [fold_left List.filter List.map]. rewrite !app_nil_r.
    repeat split.
  - cbn [fold_left List.filter].
    destruct (IH (plan_row cfg quiet utcnow plan r)) as (H1 & H2 & H3 & H4).
    rewrite H1, H2, H3, H4. clear IH H1 H2 H3 H4.
    unfold plan_row, to_skip_interval.
    destruct (truthy_opt (Row.responsible r)); cbn [negb andb].
    + destruct (reminded_recently cfg utcnow r); cbn [negb andb].
      * cbn [send skip_interval skip_quiet skip_no_responsible List.map].
        rewrite <- !app_assoc. repeat split.
      * destruct quiet; cbn [negb];
          cbn [send skip_interval skip_quiet skip_no_responsible List.map];
          rewrite <- !app_assoc; repeat split.
    + cbn [send skip_interval skip_quiet skip_no_responsible List.map].
      rewrite <- !app_assoc. repeat split.
Qed.

Lemma filter_split4 {A} (p1 p2 p3 p4 : A -> bool) (l : list A) :
  (forall x, (if p1 x then 1 else 0) + (if p2 x then 1 else 0)
             + (if p3 x then 1 else 0) + (if p4 x then 1 else 0) = 1) ->
  (length (List.filter p1 l) + length (List.filter p2 l)
   + length (List.filter p3 l) + length (List.filter p4 l))%nat
  = length l.
Proof.
  intros H. induction l as [|x l IH]; cbn [List.filter length];
    [reflexivity|].
  specialize (H x).
  destruct (p1 x), (p2 x), (p3 x), (p4 x); cbn [length]; lia.
Qed.

(** X23. The plan sorts every ticket whose status is overdue or
    responded into exactly one bucket, keeping the order of the table, by
    three tests in a fixed order: a ticket without a responsible goes to
    [skip_no_responsible], whatever the hour; otherwise a ticket reminded
    within the interval goes to [skip_interval]; otherwise the ticket
    goes to [skip_quiet] in quiet hours and to [send] outside them.  An
    entry of [send] carries no skip reason, the others carry the reason
    of their bucket. *)
Theorem overdue_plan_buckets :
  forall cfg (now utcnow : datetime) (conn : Conn),
    let rows := List.filter planned (tickets conn) in
    let p := overdue_plan cfg now utcnow conn in
    send p
    = List.map (fun r => mkEntry r None)
               (List.filter (to_send cfg now utcnow) rows)
    /\ skip_interval p
       = List.map (fun r => mkEntry r (Some (u "interval")))
                  (List.filter (to_skip_interval cfg utcnow) rows)
    /\ skip_quiet p
       = List.map (fun r => mkEntry r (Some (u "quiet_hours")))
                  (List.filter (to_skip_quiet cfg now utcnow) rows)
    /\ skip_no_responsible p
       = List.map (fun r => mkEntry r (Some (u "no_responsible")))
                  (List.filter
                     (fun r => negb (truthy_opt (Row.responsible r))) rows)
    /\ (length (send p) + length (skip_interval p) + length (skip_quiet p)
        + length (skip_no_responsible p))%nat
       = length rows.
Proof.
  intros cfg now utcnow conn rows p.
  destruct (plan_rows cfg (is_quiet_hours cfg now) utcnow rows
                      (mkPlan [] [] [] []))
    as (H1 & H2 & H3 & H4).
  cbn [send skip_interval skip_quiet skip_no_responsible app] in H1, H2, H3, H4.
  change (fold_left (plan_row cfg (is_quiet_hours cfg now) utcnow) rows
                    (mkPlan [] [] [] []))
    with p in H1, H2, H3, H4.
  split; [exact H1|]. split; [exact H2|]. split; [exact H3|].
  split; [exact H4|].
  rewrite H1, H2, H3, H4, !length_map.
  apply filter_split4. intros r. unfold to_skip_interval.
  destruct (truthy_opt (Row.responsible r)),
           (reminded_recently cfg utcnow r),
           (is_quiet_hours cfg now); reflexivity.
Qed.

Lemma overdue_candidates_rows cfg (now utcnow : datetime) (conn : Conn) :
  overdue_candidates cfg now utcnow conn
  = List.map (fun r => mkEntry r None)
      (List.filter (to_send cfg now utcnow)
                   (List.filter planned (tickets conn))).
Proof.
  unfold overdue_candidates.
  destruct (plan_rows cfg (is_quiet_hours cfg now) utcnow
                      (List.filter planned (tickets conn))
                      (mkPlan [] [] [] [])) as (H1 & _).
  exact H1.
Qed.

(** X24. A reminder is not planned twice within the interval.  After
    [mark_reminder_sent] on a ticket, as long as the time elapsed since
    the call is below [reminder_interval_hours], no entry of
    [overdue_candidates] is that ticket; the entries of the other tickets
    are the ones planned without the call. *)
Theorem mark_reminder_sent_suppresses :
  forall cfg (now utcnow sent_at : datetime) (ticket_id : Z) (conn : Conn),
    us_between utcnow sent_at < reminder_interval_hours cfg * US_PER_HOUR ->
    forall e : PlanEntry,
      In e (overdue_candidates cfg now utcnow
              (mark_reminder_sent sent_at ticket_id conn))
      <-> In e (overdue_candidates cfg now utcnow conn)
          /\ Row.id (pe_row e) <> ticket_id.
Proof.
  intros cfg now utcnow sent_at ticket_id conn Hrecent e.
  rewrite !overdue_candidates_rows. unfold mark_reminder_sent, update_ticket.
  cbn [tickets]. rewrite !in_map_iff. split.
  - intros (r' & <- & Hr'). cbn [pe_row].
    apply filter_In in Hr' as [Hr' Hsend].
    apply filter_In in Hr' as [Hr' Hplanned].
    apply in_map_iff in Hr' as (r & <- & Hr).
    destruct (Z.eqb_spec (Row.id r) ticket_id) as [E|N].
    + exfalso. unfold to_send, reminded_recently in Hsend.
      cbn [set_reminder Row.last_reminder_utc Row.responsible] in Hsend.
      apply Z.ltb_lt in Hrecent. rewrite Hrecent in Hsend.
      rewrite andb_false_r in Hsend. discriminate.
    + split; [|exact N]. exists r. split; [reflexivity|].
      apply filter_In. split; [|exact Hsend].
      apply filter_In. split; assumption.
  - intros [(r & <- & Hr) Hne]. cbn [pe_row] in Hne.
    apply filter_In in Hr as [Hr Hsend].
    apply filter_In in Hr as [Hr Hplanned].
    exists r. split; [reflexivity|].
    apply filter_In. split; [|exact Hsend].
    apply filter_In. split; [|exact Hplanned].
    apply in_map_iff. exists r. split; [|exact Hr].
    apply Z.eqb_neq in Hne. rewrite Hne. reflexivity.
Qed.

(** X25. The bounds of the quiet hours.  With equal bounds every hour is
    quiet, so that [overdue_candidates] is empty at any time, for any
    store; with different bounds, exchanging them exchanges the quiet
    hours and the others. *)
Theorem is_quiet_hours_bounds :
  forall cfg (now : datetime),
    (quiet_hours_start cfg = quiet_hours_end cfg ->
     is_quiet_hours cfg now = true
     /\ forall (utcnow : datetime) (conn : Conn),
          overdue_candidates cfg now utcnow conn = [])
    /\ (quiet_hours_start cfg <> quiet_hours_end cfg ->
        is_quiet_hours (mkReminders (quiet_hours_end cfg)
                                    (quiet_hours_start cfg)
                                    (reminder_interval_hours cfg)) now
        = negb (is_quiet_hours cfg now)).
Proof.
  intros cfg now. split.
  - intros Heq.
    assert (Hq : is_quiet_hours cfg now = true).
    { unfold is_quiet_hours. rewrite Heq, Z.ltb_irrefl.
      destruct (Z.leb_spec (quiet_hours_end cfg) (hour now)) as [_|Hlt];
        [reflexivity|].
      apply Z.ltb_lt in Hlt. rewrite Hlt. reflexivity. }
    split; [exact Hq|].
    intros utcnow conn. rewrite overdue_candidates_rows.
    assert (Hnone : forall l, List.filter (to_send cfg now utcnow) l = []).
    { intros l. induction l as [|r l IH]; cbn [List.filter]; [reflexivity|].
      unfold to_send at 1. rewrite Hq, andb_false_r. exact IH. }
    rewrite Hnone. reflexivity.
  - intros Hne. unfold is_quiet_hours.
    cbn [quiet_hours_start quiet_hours_end].
    destruct (Z.ltb_spec (quiet_hours_end cfg) (quiet_hours_start cfg));
      destruct (Z.ltb_spec (quiet_hours_start cfg) (quiet_hours_end cfg));
      try lia;
      destruct (Z.leb_spec (quiet_hours_end cfg) (hour now));
      destruct (Z.leb_spec (quiet_hours_start cfg) (hour now));
      destruct (Z.ltb_spec (hour now) (quiet_hours_start cfg));
      destruct (Z.ltb_spec (hour now) (quiet_hours_end cfg));
      try lia; reflexivity.
Qed.

End ReminderPlan.

Lemma mark_reminder_sent_suppresses_witness :
  let cfg := reminders.mkReminders 25 0 24 in
  let conn := fixtures.store_of
                [fixtures.rec_with (Some (u "c1")) (u "t1") (u "overdue")
                                   (Some (u "stable-1"))] in
  let now := fixtures.dt 2 11 in
  reminders.us_between now fixtures.t0
  < reminders.reminder_interval_hours cfg * US_PER_HOUR
  /\ List.map (fun e => Row.id (reminders.pe_row e))
              (reminders.overdue_candidates cfg now now conn) = [1]
  /\ reminders.overdue_candidates cfg now now
       (mark_reminder_sent fixtures.t0 1 conn) = [].
Proof.
  intros cfg conn now.
  assert (Hrecent : reminders.us_between now fixtures.t0
                    < reminders.reminder_interval_hours cfg * US_PER_HOUR)
    by (vm_compute; reflexivity).
  assert (Hbefore : List.map (fun e => Row.id (reminders.pe_row e))
                      (reminders.overdue_candidates cfg now now conn) = [1])
    by (vm_compute; reflexivity).
  split; [exact Hrecent|]. split; [exact Hbefore|].
  destruct (reminders.overdue_candidates cfg now now
              (mark_reminder_sent fixtures.t0 1 conn)) as [|e l] eqn:E;
    [reflexivity|].
  exfalso.
  destruct (proj1 (mark_reminder_sent_suppresses cfg now now fixtures.t0 1
                     conn Hrecent e)) as [Hin Hne].
  { rewrite E. left. reflexivity. }
  apply Hne.
  apply (in_map (fun e => Row.id (reminders.pe_row e))) in Hin.
  rewrite Hbefore in Hin. destruct Hin as [<- | []]. reflexivity.
Defined.

Lemma is_quiet_hours_bounds_witness :
  let cfg := reminders.mkReminders 8 8 24 in
  let conn := fixtures.store_of
                [fixtures.rec_with (Some (u "c1")) (u "t1") (u "overdue")
                                   (Some (u "stable-1"))] in
  reminders.quiet_hours_start cfg = reminders.quiet_hours_end cfg
  /\ reminders.is_quiet_hours cfg (fixtures.dt 2 12) = true
  /\ reminders.overdue_candidates cfg (fixtures.dt 2 12) (fixtures.dt 2 9) conn
     = [].
Proof.
  intros cfg conn.
  assert (Heq : reminders.quiet_hours_start cfg = reminders.quiet_hours_end cfg)
    by reflexivity.
  split; [exact Heq|].
  destruct (proj1 (is_quiet_hours_bounds cfg (fixtures.dt 2 12)) Heq)
    as [Hq Hnone].
  split; [exact Hq | apply Hnone].
Defined.

(** ** Subjects *)

Section Subjects.

Import subjects.

Lemma lstrip_length (s : str) : (length (lstrip s) <= length s)%nat.
Proof.
  induction s as [|c s IH]; cbn [lstrip length]; [lia|].
  destruct (isspace c); cbn [length]; lia.
Qed.

Lemma lstrip_app_space (ws s : str) :
  forallb isspace ws = true -> lstrip (ws ++ s) = lstrip s.
Proof.
  induction ws as [|c ws IH]; cbn [forallb app lstrip]; [reflexivity|].
  intros H. apply andb_prop in H as [Hc Hws]. rewrite Hc. apply IH. exact Hws.
Qed.

Lemma match_prefix_length (s rest : str) :
  match_prefix s = Some rest -> (length rest + 3 <= length s)%nat.
Proof.
  unfold match_prefix.
  destruct s as [|a [|b [|c rest0]]]; try discriminate.
  destruct (letter 114 a && letter 101 b && (c =? 58)%N);
    [intros [= <-]; cbn [length]; lia|].
  destruct (letter 102 a && letter 119 b && (c =? 58)%N);
    [intros [= <-]; cbn [length]; lia|].
  destruct rest0 as [|d rest']; [discriminate|].
  destruct (letter 102 a && letter 119 b && letter 100 c && (d =? 58)%N);
    [intros [= <-]; cbn [length]; lia | discriminate].
Qed.

(** The match reads the head of the subject only. *)
Lemma match_prefix_app (s rest t : str) :
  match_prefix s = Some rest -> match_prefix (s ++ t) = Some (rest ++ t).
Proof.
  unfold match_prefix.
  destruct s as [|a [|b [|c rest0]]]; try discriminate. cbn [app].
  destruct (letter 114 a && letter 101 b && (c =? 58)%N);
    [intros [= <-]; reflexivity|].
  destruct (letter 102 a && letter 119 b && (c =? 58)%N);
    [intros [= <-]; reflexivity|].
  destruct rest0 as [|d rest']; [discriminate|]. cbn [app].
  destruct (letter 102 a && letter 119 b && letter 100 c && (d =? 58)%N);
    [intros [= <-]; reflexivity | discriminate].
Qed.

(** The length of the subject is fuel enough. *)
Lemma match_prefixes_fuel (n m : nat) (s : str) :
  (length s <= n)%nat -> (length s <= m)%nat ->
  match_prefixes n s = match_prefixes m s.
Proof.
  revert m s. induction n as [|n IH]; intros m s Hn Hm.
  - destruct s; [|cbn [length] in Hn; lia].
    destruct m; reflexivity.
  - destruct m as [|m].
    + destruct s; [reflexivity | cbn [length] in Hm; lia].
    + cbn [match_prefixes].
      destruct (match_prefix s) as [rest|] eqn:E; [|reflexivity].
      apply match_prefix_length in E.
      pose proof (lstrip_length rest).
      apply IH; lia.
Qed.

(** What the loop leaves does not begin with a prefix, and does not begin
    with white space unless the subject did. *)
Lemma match_prefixes_done (n : nat) (s : str) :
  (length s <= n)%nat ->
  lstrip s = s ->
  match_prefix (match_prefixes n s) = None
  /\ lstrip (match_prefixes n s) = match_prefixes n s.
Proof.
  revert s. induction n as [|n IH]; intros s Hn Hs.
  - destruct s; [|cbn [length] in Hn; lia]. split; reflexivity.
  - cbn [match_prefixes].
    destruct (match_prefix s) as [rest|] eqn:E; [|split; assumption].
    apply match_prefix_length in E.
    pose proof (lstrip_length rest).
    apply IH; [lia | apply lstrip_idem].
Qed.

Lemma rstrip_prefix (s : str) : exists ws : str, s = rstrip s ++ ws.
Proof.
  assert (H : forall x : str, exists w, x = w ++ lstrip x).
  { induction x as [|c x [w IH]]; [exists []; reflexivity|].
    cbn [lstrip]. destruct (isspace c).
    - exists (c :: w). cbn [app]. f_equal. exact IH.
    - exists []. reflexivity. }
  destruct (H (rev s)) as [w Hw]. exists (rev w). unfold rstrip.
  rewrite <- rev_app_distr, <- Hw, rev_involutive. reflexivity.
Qed.

Lemma match_prefix_rstrip (s : str) :
  match_prefix s = None -> match_prefix (rstrip s) = None.
Proof.
  intros H. destruct (match_prefix (rstrip s)) as [rest|] eqn:E;
    [|reflexivity].
  destruct (rstrip_prefix s) as [ws Hws].
  apply (match_prefix_app _ _ ws) in E. rewrite <- Hws in E. congruence.
Qed.

(** X26. On a subject that does not begin with white space,
    [normalize_subject] is idempotent: its result begins with none of the
    prefixes re:, fw:, fwd: in any case of the letters, has no white
    space at either end, and is its own normal form. *)
Theorem normalize_subject_idempotent :
  forall subject : str,
    lstrip subject = subject ->
    match_prefix (normalize_subject subject) = None
    /\ strip (normalize_subject subject) = normalize_subject subject
    /\ normalize_subject (normalize_subject subject)
       = normalize_subject subject.
Proof.
  intros s Hs.
  destruct s as [|c0 s0] eqn:Es; [repeat split|]. rewrite <- Es in *.
  assert (Hn : normalize_subject s = strip (match_prefixes (length s) s)).
  { unfold normalize_subject. rewrite Es. reflexivity. }
  clear Es c0 s0. rewrite Hn.
  destruct (match_prefixes_done (length s) s (le_n _) Hs) as [Hnone Hfix].
  set (t := match_prefixes (length s) s) in *.
  assert (Hstrip : strip t = rstrip t)
    by (unfold strip; rewrite Hfix; reflexivity).
  assert (Hm : match_prefix (strip t) = None).
  { rewrite Hstrip. apply match_prefix_rstrip. exact Hnone. }
  split; [exact Hm|]. split; [apply strip_idem|].
  unfold normalize_subject.
  destruct (strip t) as [|c r] eqn:E; [reflexivity|].
  cbn [truthy length match_prefixes]. rewrite Hm.
  rewrite <- E. apply strip_idem.
Qed.

Lemma same_letter_letter (x c : N) :
  (97 <= c <= 122)%N -> same_letter x c -> letter c x = true.
Proof.
  intros Hc [-> | [_ ->]]; unfold letter.
  - rewrite N.eqb_refl. reflexivity.
  - rewrite N.eqb_refl. apply orb_true_r.
Qed.

Lemma same_letter_colon (x : N) : same_letter x 58 -> (x =? 58)%N = true.
Proof.
  intros [-> | [H _]]; [reflexivity | lia].
Qed.

Lemma match_prefix_reply (p q rest : str) :
  Forall2 same_letter p q -> In q reply_prefixes ->
  match_prefix (p ++ rest) = Some rest.
Proof.
  intros Hpq Hq.
  destruct Hq as [<- | [<- | [<- | []]]].
  - change (u "re:") with [114; 101; 58]%N in Hpq.
    inversion Hpq as [|a ? p1 ? Ha H1]; subst.
    inversion H1 as [|b ? p2 ? Hb H2]; subst.
    inversion H2 as [|c ? p3 ? Hc H3]; subst.
    inversion H3; subst. cbn [app match_prefix].
    rewrite (same_letter_letter a 114), (same_letter_letter b 101),
      (same_letter_colon c) by (assumption || lia).
    reflexivity.
  - change (u "fw:") with [102; 119; 58]%N in Hpq.
    inversion Hpq as [|a ? p1 ? Ha H1]; subst.
    inversion H1 as [|b ? p2 ? Hb H2]; subst.
    inversion H2 as [|c ? p3 ? Hc H3]; subst.
    inversion H3; subst. cbn [app match_prefix].
    rewrite (same_letter_letter a 102), (same_letter_letter b 119),
      (same_letter_colon c) by (assumption || lia).
    cbn [andb].
    destruct (letter 114 a && letter 101 b); reflexivity.
  - change (u "fwd:") with [102; 119; 100; 58]%N in Hpq.
    inversion Hpq as [|a ? p1 ? Ha H1]; subst.
    inversion H1 as [|b ? p2 ? Hb H2]; subst.
    inversion H2 as [|c ? p3 ? Hc H3]; subst.
    inversion H3 as [|d ? p4 ? Hd H4]; subst.
    inversion H4; subst. cbn [app match_prefix].
    rewrite (same_letter_letter a 102), (same_letter_letter b 119),
      (same_letter_letter c 100), (same_letter_colon d)
      by (assumption || lia).
    cbn [andb].
    assert (Hc58 : (c =? 58)%N = false).
    { destruct Hc as [-> | [_ ->]]; reflexivity. }
    rewrite Hc58, !andb_false_r. reflexivity.
Qed.

(** X27. A reply has the subject of its message.  Putting re:, fw: or
    fwd:, in any case of the letters and followed by any white space, in
    front of a subject does not change what [normalize_subject] makes of
    it, up to the white space the subject itself begins with; so do any
    number of such prefixes. *)
Theorem normalize_subject_reply :
  forall (p q ws subject : str),
    Forall2 same_letter p q ->
    In q reply_prefixes ->
    forallb isspace ws = true ->
    normalize_subject (p ++ ws ++ subject)
    = normalize_subject (lstrip subject).
Proof.
  intros p q ws s Hpq Hq Hws.
  assert (Hlen : (3 <= length p)%nat).
  { rewrite (Forall2_length _ _ _ Hpq).
    destruct Hq as [<- | [<- | [<- | []]]]; vm_compute; lia. }
  unfold normalize_subject at 1.
  destruct (p ++ ws ++ s) as [|c r] eqn:E.
  { apply (f_equal (@length N)) in E. rewrite length_app in E.
    cbn [length] in E. lia. }
  cbn [truthy]. rewrite <- E. clear c r E.
  destruct (length (p ++ ws ++ s)) as [|n] eqn:En.
  { rewrite length_app in En. lia. }
  cbn [match_prefixes].
  rewrite (match_prefix_reply p q (ws ++ s) Hpq Hq).
  rewrite (lstrip_app_space ws s Hws).
  pose proof (lstrip_length s) as Hl.
  rewrite !length_app in En.
  rewrite (match_prefixes_fuel n (length (lstrip s)) (lstrip s)) by lia.
  unfold normalize_subject.
  destruct (lstrip s) as [|c r]; reflexivity.
Qed.

End Subjects.

Lemma normalize_subject_idempotent_witness :
  let subject := u "Re: Fw: FW: hello " in
  lstrip subject = subject
  /\ subjects.normalize_subject subject = u "hello"
  /\ subjects.normalize_subject (subjects.normalize_subject subject)
     = subjects.normalize_subject subject.
Proof.
  intros subject.
  assert (Hs : lstrip subject = subject) by reflexivity.
  split; [exact Hs|]. split; [vm_compute; reflexivity|].
  apply (normalize_subject_idempotent subject Hs).
Defined.

Lemma normalize_subject_reply_witness :
  Forall2 same_letter (u "FWD:") (u "fwd:")
  /\ subjects.normalize_subject (u "FWD:" ++ u "  " ++ u "Re: hello")
     = subjects.normalize_subject (lstrip (u "Re: hello")).
Proof.
  assert (H : Forall2 same_letter (u "FWD:") (u "fwd:")).
  { change (u "FWD:") with [70; 87; 68; 58]%N.
    change (u "fwd:") with [102; 119; 100; 58]%N.
    do 3 (apply List.Forall2_cons; [right; split; [lia | reflexivity]|]).
    apply List.Forall2_cons; [left; reflexivity | apply List.Forall2_nil]. }
  split; [exact H|].
  apply (normalize_subject_reply (u "FWD:") (u "fwd:") (u "  ")
           (u "Re: hello") H).
  - right. right. left. reflexivity.
  - reflexivity.
Defined.

(** ** Commands of a mail body *)

Section CommandBlock.

Import commands.

Implicit Types (lines : list str) (m : gmap str str).

(** Nothing is read after a line that ends the block. *)
Lemma parse_lines_stops lines (l : str) (post : list str) m :
  ends_block l = true ->
  parse_lines (lines ++ l :: post) m = parse_lines lines m.
Proof.
  intros Hl. revert m. induction lines as [|x lines IH]; intros m.
  - cbn [app parse_lines]. unfold ends_block in Hl.
    destruct (negb (truthy (strip l))); [reflexivity|].
    cbn [orb] in Hl. rewrite Hl. reflexivity.
  - cbn [app parse_lines].
    destruct (negb (truthy (strip x))); [reflexivity|].
    destruct (quoted (strip x)); [reflexivity|].
    destruct (negb (startswith (strip x) (u "/"))); [apply IH|].
    destruct (split1 (tl (strip x))) as [|cmd args]; apply IH.
Qed.

Lemma splitlines_from_break (cur b : str) :
  splitlines_from cur (10%N :: b) = cur :: splitlines_from [] b.
Proof.
  cbn [splitlines_from]. change (is_linebreak 10) with true. cbn iota.
  destruct b; reflexivity.
Qed.

(** The lines of a text followed by a line feed and more text: the lines
    of the text, closed by an empty line when the text is empty or ends
    with a boundary, then the lines of what follows. *)
Lemma splitlines_from_app (n : nat) :
  forall (a cur b : str),
    (length a <= n)%nat ->
    exists A : list str,
      splitlines_from cur (a ++ 10%N :: b) = A ++ splitlines_from [] b
      /\ (A = splitlines_from cur a \/ A = splitlines_from cur a ++ [[]]).
Proof.
  induction n as [|n IH]; intros a cur b Hn.
  - destruct a; [|cbn [length] in Hn; lia]. cbn [app].
    rewrite splitlines_from_break. exists [cur]. split; [reflexivity|].
    destruct cur; [right | left]; reflexivity.
  - destruct a as [|c a']. 
    { cbn [app]. rewrite splitlines_from_break. exists [cur].
      split; [reflexivity|]. destruct cur; [right | left]; reflexivity. }
    cbn [length] in Hn. cbn [app splitlines_from].
    destruct (is_linebreak c) eqn:Hc.
    + destruct a' as [|d a''].
      * cbn [app]. destruct ((c =? 13)%N && (10 =? 10)%N) eqn:Hcr.
        -- exists [cur]. split; [reflexivity|]. left. reflexivity.
        -- rewrite splitlines_from_break. exists [cur; []].
           split; [reflexivity|]. right. reflexivity.
      * cbn [app]. destruct ((c =? 13)%N && (d =? 10)%N).
        -- destruct (IH a'' [] b) as (A & HA & Hor);
             [cbn [length] in Hn; lia|].
           exists (cur :: A). rewrite HA. split; [reflexivity|].
           destruct Hor as [-> | ->]; [left | right]; reflexivity.
        -- destruct (IH (d :: a'') [] b) as (A & HA & Hor); [lia|].
           cbn [app] in HA.
           exists (cur :: A). rewrite HA. split; [reflexivity|].
           destruct Hor as [-> | ->]; [left | right]; reflexivity.
    + apply IH. lia.
Qed.

(** The first line of a text begins with what was begun. *)
Lemma splitlines_from_first (b : str) :
  forall (c0 : N) (cur : str),
    exists (x : str) (rest : list str),
      splitlines_from (c0 :: cur) b = (c0 :: x) :: rest.
Proof.
  induction b as [|c r IH]; intros c0 cur.
  - exists cur, []. reflexivity.
  - cbn [splitlines_from]. destruct (is_linebreak c).
    + eexists cur, _. reflexivity.
    + apply (IH c0 (cur ++ [c])).
Qed.

Lemma parse_block_cut (a b : str) (l : str) (post : list str) :
  splitlines_from [] b = l :: post ->
  ends_block l = true ->
  _parse_command_block (a ++ 10%N :: b) = _parse_command_block a.
Proof.
  intros Hb Hl. unfold _parse_command_block, splitlines.
  assert (Ht : truthy (a ++ 10%N :: b) = true) by (destruct a; reflexivity).
  rewrite Ht.
  destruct (splitlines_from_app (length a) a [] b (le_n _))
    as (A & HA & Hor).
  rewrite HA, Hb, parse_lines_stops by exact Hl.
  assert (Hend : parse_lines A ∅ = parse_lines (splitlines_from [] a) ∅).
  { destruct Hor as [-> | ->]; [reflexivity|].
    apply parse_lines_stops. reflexivity. }
  rewrite Hend. destruct a; reflexivity.
Qed.

(** X28. The command block ends at the first blank line and at the first
    quoted line: whatever follows an empty line, or a line that begins
    with [>], is not read, so that a command quoted from an earlier
    message is never taken for a command of this one. *)
Theorem parse_command_block_stops :
  forall a b : str,
    _parse_command_block (a ++ [10; 10]%N ++ b) = _parse_command_block a
    /\ _parse_command_block (a ++ [10]%N ++ u ">" ++ b)
       = _parse_command_block a.
Proof.
  intros a b. split.
  - cbn [app].
    apply (parse_block_cut a (10%N :: b) [] (splitlines_from [] b)).
    + apply splitlines_from_break.
    + reflexivity.
  - change (u ">") with [62%N]. cbn [app].
    destruct (splitlines_from_first b 62%N []) as (x & rest & Hx).
    apply (parse_block_cut a (62%N :: b) (62%N :: x) rest).
    + cbn [splitlines_from]. change (is_linebreak 62) with false.
      cbn iota. cbn [app]. exact Hx.
    + unfold ends_block, strip. cbn [lstrip].
      change (isspace 62) with false. cbn iota.
      rewrite rstrip_cons by reflexivity.
      cbn [truthy negb orb]. unfold quoted.
      change (u ">") with [62%N]. cbn [startswith].
      rewrite N.eqb_refl.
      destruct (rstrip x); cbn [startswith andb orb]; reflexivity.
Qed.

Lemma word_spec (s : str) :
  Forall (fun c => isspace c = false) (word s).1
  /\ (match s with
      | c :: _ => isspace c = false -> (word s).1 <> []
      | [] => True
      end).
Proof.
  induction s as [|c r [IH _]]; [split; [constructor | exact I]|].
  cbn [word]. destruct (isspace c) eqn:Hc.
  - split; [constructor | intros; discriminate].
  - destruct (word r) as [w rest]. cbn [fst] in *.
    split; [constructor; assumption | intros _; discriminate].
Qed.

Lemma split1_head (s cmd : str) (args : list str) :
  split1 s = cmd :: args ->
  cmd <> [] /\ Forall (fun c => isspace c = false) cmd.
Proof.
  unfold split1. pose proof (lstrip_head s) as Hh.
  destruct (lstrip s) as [|c r]; [discriminate|].
  destruct (word_spec (c :: r)) as [Hall Hne].
  destruct (word (c :: r)) as [w rest]. cbn [fst] in *.
  destruct (lstrip rest); intros [= <- _]; split; auto.
Qed.

Lemma parse_lines_keys (Q : str -> str -> Prop) lines m :
  (forall cmd arg, cmd <> [] ->
                   Forall (fun c => isspace c = false) cmd ->
                   strip arg = arg -> Q (lower cmd) arg) ->
  map_Forall Q m -> map_Forall Q (parse_lines lines m).
Proof.
  intros HQ. revert m. induction lines as [|x lines IH]; intros m Hm;
    cbn [parse_lines]; [exact Hm|].
  destruct (negb (truthy (strip x))); [exact Hm|].
  destruct (quoted (strip x)); [exact Hm|].
  destruct (negb (startswith (strip x) (u "/"))); [apply IH; exact Hm|].
  destruct (split1 (tl (strip x))) as [|cmd args] eqn:E;
    [apply IH; exact Hm|].
  apply IH. apply map_Forall_insert_2; [|exact Hm].
  destruct (split1_head _ _ _ E) as [Hne Hall].
  apply HQ; [exact Hne | exact Hall |].
  destruct args as [|a ?]; [reflexivity | apply strip_idem].
Qed.

(** X29. The shape of the commands read.  Every name in the dict
    [_parse_command_block] returns is not empty, holds no white space and
    is in lower case; every argument has no white space at either end. *)
Theorem parse_command_block_shape :
  forall (body name arg : str),
    _parse_command_block body !! name = Some arg ->
    name <> []
    /\ Forall (fun c => isspace c = false) name
    /\ lower name = name
    /\ strip arg = arg.
Proof.
  intros body name arg Hlook.
  assert (Hall : map_Forall
                   (fun k v => k <> []
                               /\ Forall (fun c => isspace c = false) k
                               /\ lower k = k /\ strip v = v)
                   (_parse_command_block body)).
  { unfold _parse_command_block.
    destruct (truthy body); [|apply map_Forall_empty].
    apply parse_lines_keys; [|apply map_Forall_empty].
    intros cmd a Hne Hcmd Ha. split; [|split; [|split]].
    - destruct cmd; [contradiction | discriminate].
    - unfold lower. apply Forall_map.
      eapply Forall_impl; [exact Hcmd|]. cbn beta.
      intros c Hc. rewrite isspace_lower_cp. exact Hc.
    - apply lower_idem.
    - exact Ha. }
  apply (Hall name arg Hlook).
Qed.

End CommandBlock.

Section FirstAfter.

Import commands.

Context {T P : Type}.
Variable _to_naive : T -> option datetime.

Lemma datetime_leb_true (a b : datetime) :
  leb a b = true
  <-> dt_day a < dt_day b \/ (dt_day a = dt_day b /\ dt_us a <= dt_us b).
Proof.
  unfold leb, ltb.
  destruct (Z.ltb_spec (dt_day b) (dt_day a)),
           (Z.eqb_spec (dt_day b) (dt_day a)),
           (Z.ltb_spec (dt_us b) (dt_us a)); cbn; split; intros; try lia;
    try discriminate; try reflexivity.
Qed.

(** X30. On the replies of a thread sorted by time, as
    [_build_sent_index] leaves them, [_find_first_after] answers the
    earliest reply at or after the given moment, with its payload: its
    time is at or after the moment and no reply at or after the moment is
    earlier.  It answers nothing exactly when every reply that has a time
    is before the moment. *)
Theorem find_first_after_earliest :
  forall (events : list (T * P)) (after_dt : T) (after : datetime),
    _to_naive after_dt = Some after ->
    (forall (i j : nat) (x y : T * P) (n m : datetime),
       (i < j)%nat -> events !! i = Some x -> events !! j = Some y ->
       _to_naive x.1 = Some n -> _to_naive y.1 = Some m ->
       leb n m = true) ->
    match _find_first_after _to_naive events after_dt with
    | (Some ndt, Some payload) =>
        (exists dt : T, In (dt, payload) events /\ _to_naive dt = Some ndt)
        /\ leb after ndt = true
        /\ (forall (x : T * P) (n : datetime),
              In x events -> _to_naive x.1 = Some n ->
              leb after n = true -> leb ndt n = true)
    | (None, None) =>
        forall (x : T * P) (n : datetime),
          In x events -> _to_naive x.1 = Some n -> leb after n = false
    | _ => False
    end.
Proof.
  intros events after_dt after Hafter. unfold _find_first_after.
  rewrite Hafter. clear Hafter after_dt.
  induction events as [|[dt payload] events IH]; intros Hsorted.
  - cbn [first_after]. intros x n [].
  - cbn [first_after].
    assert (Htail : forall (i j : nat) (x y : T * P) (n m : datetime),
               (i < j)%nat -> events !! i = Some x -> events !! j = Some y ->
               _to_naive x.1 = Some n -> _to_naive y.1 = Some m ->
               leb n m = true).
    { intros i j x y n m Hij Hi Hj. apply (Hsorted (S i) (S j) x y n m);
        [lia | exact Hi | exact Hj]. }
    specialize (IH Htail).
    destruct (_to_naive dt) as [ndt|] eqn:Hdt.
    + destruct (leb after ndt) eqn:Hle.
      * split; [exists dt; split; [left; reflexivity | exact Hdt]|].
        split; [exact Hle|].
        intros x n [<- | Hin] Hn _.
        -- cbn [fst] in Hn. rewrite Hdt in Hn. injection Hn as <-.
           apply datetime_leb_true. lia.
        -- apply list_elem_of_In in Hin.
           apply list_elem_of_lookup in Hin as [j Hj].
           apply (Hsorted 0%nat (S j) (dt, payload) x ndt n);
             [lia | reflexivity | exact Hj | exact Hdt | exact Hn].
      * destruct (first_after _to_naive events (Some after))
          as [[ndt'|] [payload'|]]; try exact IH.
        -- destruct IH as ((dt' & Hin & Hdt') & Hle' & Hmin).
           split; [exists dt'; split; [right; exact Hin | exact Hdt']|].
           split; [exact Hle'|].
           intros x n [<- | Hx] Hn Hge; [|apply (Hmin x n Hx Hn Hge)].
           cbn [fst] in Hn. rewrite Hdt in Hn. injection Hn as <-.
           congruence.
        -- intros x n [<- | Hx] Hn; [|apply (IH x n Hx Hn)].
           cbn [fst] in Hn. rewrite Hdt in Hn. injection Hn as <-.
           exact Hle.
    + destruct (first_after _to_naive events (Some after))
        as [[ndt'|] [payload'|]]; try exact IH.
      * destruct IH as ((dt' & Hin & Hdt') & Hle' & Hmin).
        split; [exists dt'; split; [right; exact Hin | exact Hdt']|].
        split; [exact Hle'|].
        intros x n [<- | Hx] Hn Hge; [|apply (Hmin x n Hx Hn Hge)].
        cbn [fst] in Hn. congruence.
      * intros x n [<- | Hx] Hn; [|apply (IH x n Hx Hn)].
        cbn [fst] in Hn. congruence.
Qed.

End FirstAfter.

Lemma parse_command_block_shape_witness :
  let body := u "/Status  resolved " ++ [10%N] ++ u "/owner user@example.com"
              ++ [10; 10]%N ++ u "> quoted line" ++ [10%N]
              ++ u "/status ignored" in
  commands._parse_command_block body !! u "status" = Some (u "resolved")
  /\ u "status" <> []
  /\ Forall (fun c => isspace c = false) (u "status")
  /\ lower (u "status") = u "status"
  /\ strip (u "resolved") = u "resolved".
Proof.
  intros body.
  assert (H : commands._parse_command_block body !! u "status"
              = Some (u "resolved")) by (vm_compute; reflexivity).
  split; [exact H|].
  apply (parse_command_block_shape body (u "status") (u "resolved") H).
Defined.

Lemma find_first_after_earliest_witness :
  let events := [(Some (fixtures.dt 2 9), u "first");
                 (None, u "undated");
                 (Some (fixtures.dt 2 11), u "second");
                 (Some (fixtures.dt 3 10), u "third")] in
  commands._find_first_after id events (Some (fixtures.dt 2 10))
  = (Some (fixtures.dt 2 11), Some (u "second"))
  /\ forall (x : option datetime * str) (n : datetime),
       In x events -> x.1 = Some n ->
       leb (fixtures.dt 2 10) n = true -> leb (fixtures.dt 2 11) n = true.
Proof.
  intros events.
  assert (Hres : commands._find_first_after id events
                   (Some (fixtures.dt 2 10))
                 = (Some (fixtures.dt 2 11), Some (u "second")))
    by (vm_compute; reflexivity).
  split; [exact Hres|].
  pose proof (find_first_after_earliest id events (Some (fixtures.dt 2 10))
                (fixtures.dt 2 10) eq_refl) as H.
  rewrite Hres in H. apply H.
  intros i j x y n m Hij Hi Hj Hn Hm.
  destruct i as [|[|[|[|i]]]]; try discriminate Hi;
    injection Hi as <-; try discriminate Hn; injection Hn as <-;
    (destruct j as [|[|[|[|j]]]]; try discriminate Hj; try lia;
     injection Hj as <-; try discriminate Hm; injection Hm as <-;
     vm_compute; reflexivity).
Defined.
